(** * statement-parser: the state-machine engine, its orchestrator and the
      PayPal format definition, embedded from the TypeScript sources.

    Source files:
    - [parser-state-machine.ts] ([createParserStateMachine])
    - [statement-parser.ts]     ([createStatementParser])
    - [implemented-parsers/paypal-parser.ts] ([performStateAction], [nextState])
    - [sanitizer/sanitized-test.ts] ([validateSanitizedParsing],
      [createSanitizedTestFileObject], [createSanitizedTestInput])

    Conventions of the embedding.
    - A JavaScript string is a [string]: a sequence of code units below 256.
    - An [Error] object is kept as its [message]. What the action and the
      transition function throw meets the [catch] block of the engine and
      may be any value ([thrown]); elsewhere a thrown value is handed on
      untouched and is kept as an [Error].
    - A call that may throw returns an [outcome]: a [callResult] for the
      action and the transition function, a [result] elsewhere. A call that
      may touch the JavaScript heap takes the world [W] and returns the new
      one.
    - The [DEBUG] flag only drives [console] output and is left out, as is
      every other [console] output. *)

From Stdlib Require Import ZArith String Ascii List Lia Bool DecimalString.
From stdpp Require Import gmap strings list fin_maps.

Local Open Scope string_scope.
Local Open Scope list_scope.

(* ===================================================================== *)
(** ** JavaScript values                                                   *)
(* ===================================================================== *)

Module Js.

(** [new Error(message)], kept as its [message]. *)
Record Error := mkError { message : string }.

(** How a call ends: normal return, or [throw] of an [E]. *)
Inductive outcome (E A : Type) : Type :=
| Ok (a : A)
| Thrown (e : E).
Arguments Ok {E A} a.
Arguments Thrown {E A} e.

(** The end of a call whose thrown value is kept as an [Error]. *)
Abbreviation result := (outcome Error).

Definition bind {E A B} (r : outcome E A) (k : A → outcome E B) : outcome E B :=
  match r with
  | Ok a => k a
  | Thrown e => Thrown e
  end.

(** A number: [NaN], an infinity, or [Fin mant scale], the binary64 number
    nearest to the decimal [mant / 10^scale]. The decimal is zero or lies
    within the range of binary64: [Number] gives zero and the infinities for
    text beyond it. Numbers come from text only and are then compared with
    zero or passed to [Math.abs]; the sign of zero is not represented, and
    two decimals that round to the same number are kept apart. *)
Inductive number :=
| NaN
| Inf (negative : bool)
| Fin (mant : Z) (scale : nat).

Definition loc := positive.

Inductive value :=
| VUndefined
| VNull
| VBool (b : bool)
| VNumber (n : number)
| VString (s : string)
| VRef (l : loc).

(** A value that the statement [error.message += text] cannot be applied to:
    a primitive ([undefined], [null], a boolean, a number or a string; the
    module code is strict), or an object whose [message] is read-only, as a
    frozen [Error] is. *)
Inductive unwritable :=
| Primitive (v : value)
| ReadOnly (e : Error).

(** A value thrown by the action or by the transition function, as a
    [catch] block that runs [error.message += text] finds it.
    - [ErrorObject e]: an object whose [message] can be read and written,
      [message e] being the text that the property reads as; an [Error] is
      one.
    - [Unwritable what raised]: the value [what], on which the statement
      throws; [raised] is the [TypeError] that the language raises for it.
      Its wording is the JavaScript engine's own. *)
Inductive thrown :=
| ErrorObject (e : Error)
| Unwritable (what : unwritable) (raised : Error).

(** The end of a call of the action or of the transition function. *)
Abbreviation callResult := (outcome thrown).

(** A call that throws [Error] objects only, as a call that may throw any
    value. *)
Definition raise {A} (r : result A) : callResult A :=
  match r with
  | Ok a => Ok a
  | Thrown e => Thrown (ErrorObject e)
  end.

(** [n < 0]; false for [NaN]. *)
Definition ltZero (n : number) : bool :=
  match n with
  | NaN => false
  | Inf negative => negative
  | Fin m _ => (m <? 0)%Z
  end.

(** [Math.abs(n)] *)
Definition abs (n : number) : number :=
  match n with
  | NaN => NaN
  | Inf _ => Inf false
  | Fin m k => Fin (Z.abs m) k
  end.

(** [!v]: the negation of ToBoolean. *)
Definition falsy (v : value) : bool :=
  match v with
  | VUndefined | VNull => true
  | VBool b => negb b
  | VNumber NaN => true
  | VNumber (Inf _) => false
  | VNumber (Fin m _) => (m =? 0)%Z
  | VString s => if decide (s = "") then true else false
  | VRef _ => false
  end.

(** [s.startsWith(p)] *)
Fixpoint startsWith (p s : string) : bool :=
  match p with
  | EmptyString => true
  | String a p' =>
      match s with
      | EmptyString => false
      | String b s' => if decide (a = b) then startsWith p' s' else false
      end
  end.

(** [s.includes(p)] *)
Fixpoint includes (p s : string) : bool :=
  startsWith p s ||
  match s with
  | EmptyString => false
  | String _ s' => includes p s'
  end.

End Js.
Import Js.

(** Option objects: own enumerable properties, by name. *)
Abbreviation options := (gmap string value).

(* ===================================================================== *)
(** ** parser-state-machine.ts                                             *)
(* ===================================================================== *)

Module Machine.

(** What the engine needs of [OutputType extends ParsedOutput], for an
    output living in world [W]; [InitOutputType] is the type of the
    [initOutput] fragment. *)
Class ParsedOutputLike (W OutputType InitOutputType : Type) := {
  (** the text of [${output.filePath}] *)
  filePathText : OutputType → W → string;
  (** [output.accountSuffix] *)
  accountSuffixOf : OutputType → W → value;
  (** lines 88-102: [startingOutput] overlaid with the JSON copy of
      [initOutput || {}]; arguments are [filePath],
      [parserOptions.yearPrefix] and [initOutput]. *)
  buildOutput : string → value → option InitOutputType → W → result (OutputType * W)
}.

Section Types.
Context {W StateType OutputType InitOutputType : Type}.

(** [performStateActionFunction] *)
Definition performStateActionFunction : Type :=
  StateType → string → OutputType → options → W → callResult (OutputType * W).

(** [nextStateFunction]: current state and input only. *)
Definition nextStateFunction : Type :=
  StateType → string → W → callResult (StateType * W).

(** [ParserInitInput] *)
Record ParserInitInput := {
  action : performStateActionFunction;
  next : nextStateFunction;
  endState : StateType;
  initialState : StateType;
  initOutput : option InitOutputType;
  defaultParserOptions : option options
}.

(** [CreateStateMachineInput = ParserInitInput & {filePath, inputParserOptions}] *)
Record CreateStateMachineInput := {
  init : ParserInitInput;
  filePath : string;
  inputParserOptions : option options
}.

(** One call made by the engine during the loop. *)
Inductive Event :=
| CallAction (state : StateType) (input : string) (output : OutputType) (opts : options)
| CallNext (state : StateType) (input : string).

End Types.
Arguments performStateActionFunction : clear implicits.
Arguments nextStateFunction : clear implicits.
Arguments ParserInitInput : clear implicits.
Arguments CreateStateMachineInput : clear implicits.
Arguments Event : clear implicits.

(** Modelled from the spec: [collapseDefaultParserOptions] of
    [parser-options.ts], which is not among the sources. "If the format
    declares no fields beyond the base set, the resolved defaults equal the
    base defaults exactly"; otherwise the format-specific defaults are
    layered over the base defaults. [base] is the base default option set of
    the same absent file. *)
Definition collapseDefaultParserOptions (base : options) (formatDefaults : option options)
  : options :=
  match formatDefaults with
  | None => base
  | Some d => d ∪ base
  end.

(** [inputParserOptions ?? {}] *)
Definition orEmpty (o : option options) : options :=
  match o with
  | Some m => m
  | None => ∅
  end.

(** Lines 80-86: [{...defaultOptions, ...(inputParserOptions ?? {})}] *)
Definition resolveOptions (base : options) (formatDefaults caller : option options)
  : options :=
  orEmpty caller ∪ collapseDefaultParserOptions base formatDefaults.

(** [options.yearPrefix]: a missing property reads as [undefined]. *)
Definition getProp (o : options) (k : string) : value :=
  match o !! k with
  | Some v => v
  | None => VUndefined
  end.

Section Engine.
Context {W StateType OutputType InitOutputType : Type}.
Context `{!EqDecision StateType}.
Context `{!ParsedOutputLike W OutputType InitOutputType}.

Abbreviation Input := (CreateStateMachineInput W StateType OutputType InitOutputType).
Abbreviation Ev := (Event StateType OutputType).

(** Lines 124-127, the [catch] block: what it throws for the caught value.
    Line 125, [error.message += ` in file: ${filePath}`], gives the thrown
    object its longer message, and line 126 throws that object again; on a
    value that does not take the assignment line 125 itself throws, and
    line 126 is not reached. *)
Definition inFile (path : string) (error : thrown) : Error :=
  match error with
  | ErrorObject e => mkError (message e +:+ " in file: " +:+ path)
  | Unwritable _ raised => raised
  end.

(** Lines 111-113 *)
Definition endOfInputError (output : OutputType) (w : W) : Error :=
  mkError ("Reached end of input before hitting end state on " +:+ filePathText output w).

(** Line 131 *)
Definition incompleteError (output : OutputType) (w : W) : Error :=
  mkError ("Parse completed without filling in account suffix on "
           +:+ filePathText output w).

(** Lines 130-139 *)
Definition finish (output : OutputType) (w : W) : result (OutputType * W) :=
  if falsy (accountSuffixOf output w)
  then Thrown (incompleteError output w)
  else Ok (output, w).

(** Lines 104-139: the loop over the iterator of [inputs], then the
    completion check. The first component lists the calls made to the
    caller's functions, in order. *)
Fixpoint runLoop (m : Input) (parserOptions : options)
    (state : StateType) (output : OutputType) (w : W) (inputs : list string)
  : list Ev * result (OutputType * W) :=
  if decide (state = endState (init m)) then ([], finish output w)
  else
    match inputs with
    | [] => ([], Thrown (endOfInputError output w))
    | input :: rest =>
        match action (init m) state input output parserOptions w with
        | Thrown e =>
            ([CallAction state input output parserOptions],
             Thrown (inFile (filePath m) e))
        | Ok (output', w') =>
            match next (init m) state input w' with
            | Thrown e =>
                ([CallAction state input output parserOptions; CallNext state input],
                 Thrown (inFile (filePath m) e))
            | Ok (state', w'') =>
                let '(calls, r) := runLoop m parserOptions state' output' w'' rest in
                (CallAction state input output parserOptions
                   :: CallNext state input :: calls, r)
            end
        end
    end.

(** Lines 80-86: the options of a run. *)
Definition optionsOf (base : options) (m : Input) : options :=
  resolveOptions base (defaultParserOptions (init m)) (inputParserOptions m).

(** Lines 88-102: the output the loop starts from. *)
Definition firstOutput (base : options) (m : Input) (w : W) : result (OutputType * W) :=
  buildOutput (filePath m) (getProp (optionsOf base m) "yearPrefix") (initOutput (init m)) w.

(** Lines 76-140, with the calls made. *)
Definition runStateMachine (base : options) (m : Input) (inputs : list string) (w : W)
  : list Ev * result (OutputType * W) :=
  match firstOutput base m w with
  | Thrown e => ([], Thrown e)
  | Ok (output, w0) =>
      runLoop m (optionsOf base m) (initialState (init m)) output w0 inputs
  end.

(** [createParserStateMachine(input)(inputs)] *)
Definition createParserStateMachine (base : options) (m : Input)
    (inputs : list string) (w : W) : result (OutputType * W) :=
  snd (runStateMachine base m inputs w).

(** The loop run over [lines] with every line consumed: the state before
    each line is not the end state and neither call throws. *)
Fixpoint consume (m : Input) (parserOptions : options)
    (state : StateType) (output : OutputType) (w : W) (lines : list string)
  : option (StateType * OutputType * W) :=
  match lines with
  | [] => Some (state, output, w)
  | input :: rest =>
      if decide (state = endState (init m)) then None
      else
        match action (init m) state input output parserOptions w with
        | Thrown _ => None
        | Ok (output', w') =>
            match next (init m) state input w' with
            | Thrown _ => None
            | Ok (state', w'') => consume m parserOptions state' output' w'' rest
            end
        end
  end.

(** The calls made while [consume] runs. *)
Fixpoint consumeCalls (m : Input) (parserOptions : options)
    (state : StateType) (output : OutputType) (w : W) (lines : list string)
  : list Ev :=
  match lines with
  | [] => []
  | input :: rest =>
      match action (init m) state input output parserOptions w with
      | Thrown _ => []
      | Ok (output', w') =>
          match next (init m) state input w' with
          | Thrown _ => []
          | Ok (state', w'') =>
              CallAction state input output parserOptions :: CallNext state input
                :: consumeCalls m parserOptions state' output' w'' rest
          end
      end
  end.

(** The line an action call received. *)
Definition actionInput (e : Ev) : option string :=
  match e with
  | CallAction _ input _ _ => Some input
  | CallNext _ _ => None
  end.

(** The line a transition call received. *)
Definition nextInput (e : Ev) : option string :=
  match e with
  | CallAction _ _ _ _ => None
  | CallNext _ input => Some input
  end.

(** The lines pulled from the iterator: one per action call. *)
Definition consumedLines (calls : list Ev) : list string := omap actionInput calls.

(** The lines handed to the transition function. *)
Definition transitionLines (calls : list Ev) : list string := omap nextInput calls.

(** A run from the start that consumes every line of [lines]: the state,
    output and world it is in afterwards. *)
Definition runTo (base : options) (m : Input) (w : W) (lines : list string)
  : option (StateType * OutputType * W) :=
  match firstOutput base m w with
  | Thrown _ => None
  | Ok (output, w0) =>
      consume m (optionsOf base m) (initialState (init m)) output w0 lines
  end.

(** The calls made during [runTo]. *)
Definition callsTo (base : options) (m : Input) (w : W) (lines : list string) : list Ev :=
  match firstOutput base m w with
  | Thrown _ => []
  | Ok (output, w0) =>
      consumeCalls m (optionsOf base m) (initialState (init m)) output w0 lines
  end.

(** The caller's functions leave [output.filePath] as they find it. *)
Definition keepsFilePath (m : Input) : Prop :=
  (∀ s l o opts w o' w',
      action (init m) s l o opts w = Ok (o', w') → filePathText o' w' = filePathText o w)
  ∧ (∀ s l w s' w' o,
      next (init m) s l w = Ok (s', w') → filePathText o w' = filePathText o w).

(** The output the loop starts from carries the [filePath] given to the
    engine: the [initOutput] fragment has not replaced it. *)
Definition startsWithFilePath (base : options) (m : Input) (w : W) : Prop :=
  ∀ o0 w0, firstOutput base m w = Ok (o0, w0) → filePathText o0 w0 = filePath m.

(** The shape of the calls of a run that is in state [s] with output [o] in
    world [w]. For a line on which the action returns: the action call, then
    the transition call on the same state and line, then the calls of the
    run from what the two returned; nothing follows when the transition
    function throws. For a line on which the action throws: the action call
    alone, and nothing after it. *)
Inductive paired (m : Input) (po : options)
  : StateType → OutputType → W → list Ev → Prop :=
| paired_nil s o w : paired m po s o w []
| paired_step s l o w o' w' s' w'' rest :
    action (init m) s l o po w = Ok (o', w') →
    next (init m) s l w' = Ok (s', w'') →
    paired m po s' o' w'' rest →
    paired m po s o w (CallAction s l o po :: CallNext s l :: rest)
| paired_last s l o w o' w' e :
    action (init m) s l o po w = Ok (o', w') →
    next (init m) s l w' = Thrown e →
    paired m po s o w [CallAction s l o po; CallNext s l]
| paired_throw s l o w e :
    action (init m) s l o po w = Thrown e →
    paired m po s o w [CallAction s l o po].

End Engine.

End Machine.

(* ===================================================================== *)
(** ** parsed-output.ts, as used by the engine: plain records              *)
(* ===================================================================== *)

Module Plain.

(** A [Date], by the calendar day of its time value. *)
Record Date := mkDate { year : Z; month : Z; day : Z }.

(** [ParsedOutput<T>] as the scaffold of lines 88-96 lays it out. *)
Record ParsedOutput (T : Type) := mkOutput {
  incomes : list T;
  expenses : list T;
  filePath : string;
  yearPrefix : value;
  accountSuffix : string;
  endDate : option Date;
  startDate : option Date
}.
Arguments mkOutput {T}.
Arguments incomes {T}.
Arguments expenses {T}.
Arguments filePath {T}.
Arguments yearPrefix {T}.
Arguments accountSuffix {T}.
Arguments endDate {T}.
Arguments startDate {T}.

(** Lines 88-96 *)
Definition startingOutput {T} (path : string) (yp : value) : ParsedOutput T :=
  {| incomes := [];
     expenses := [];
     filePath := path;
     yearPrefix := yp;
     accountSuffix := "";
     endDate := None;
     startDate := None |}.

(** Outputs held as records, for format definitions that give no
    [initOutput]: the JSON copy of [{}] adds nothing to the scaffold. No heap
    is involved, the world is [unit]. *)
#[global] Instance plainOutput (T : Type)
  : Machine.ParsedOutputLike unit (ParsedOutput T) Empty_set := {|
  Machine.filePathText := λ o _, filePath o;
  Machine.accountSuffixOf := λ o _, VString (accountSuffix o);
  Machine.buildOutput := λ path yp _ w, Ok (startingOutput path yp, w)
|}.

(** A function without effects, which throws [Error] objects only, as a
    call in world [unit]. *)
Definition pureCall {A} (r : result A) : unit → callResult (A * unit) :=
  λ w, raise (bind r (λ a, Ok (a, w))).

End Plain.

(* ===================================================================== *)
(** ** statement-parser.ts                                                 *)
(* ===================================================================== *)

Module Orchestrator.
Import Machine.

(** Modelled from the spec: [flatten2dArray] of [augments/array.ts], which
    is not among the sources. "Flatten pages into one ordered line sequence;
    page boundaries are not retained." *)
Definition flatten2dArray {A} (pages : list (list A)) : list A := concat pages.

Section Types.
Context {W StateType OutputType InitOutputType Keyword : Type}.

(** [(filePath: string) => Promise<string[][]> | string[][]], awaited. What
    it throws, and what [outputValidation] throws, is handed on by the parser
    as it is: no statement reads or writes it, and it is kept as an
    [Error]. *)
Definition PdfProcessing : Type := string → W → result (list (list string) * W).

(** [CreateStatementParserInput]. [pdfProcessing] is [None] when the
    property is absent and [Some None] when it is present and [undefined]. *)
Record CreateStatementParserInput := {
  pdfProcessing : option (option PdfProcessing);
  outputValidation : option (OutputType → W → result (unit * W));
  parserKeywords : list Keyword;
  initInput : ParserInitInput W StateType OutputType InitOutputType
}.

(** [ParseFunctionInputs] *)
Record ParseFunctionInputs := {
  parseFilePath : string;
  parseInputParserOptions : option options;
  debug : bool
}.

(** [StatementParser], with the [defaultParserOptions] property that
    [returnValue] carries when the format definition has one. *)
Record StatementParser := {
  parser : ParseFunctionInputs → W → result (OutputType * W);
  keywords : list Keyword;
  carriedDefaults : option options
}.

End Types.
Arguments PdfProcessing : clear implicits.
Arguments CreateStatementParserInput : clear implicits.
Arguments StatementParser : clear implicits.

Section Create.
Context {W StateType OutputType InitOutputType Keyword : Type}.
Context `{!EqDecision StateType}.
Context `{!ParsedOutputLike W OutputType InitOutputType}.

Abbreviation RawInput :=
  (CreateStatementParserInput W StateType OutputType InitOutputType Keyword).

(** [readPdf] of [read-pdf.ts], the default [pdfProcessing]. *)
Variable readPdf : PdfProcessing W.
(** The base default options of [parser-options.ts]. *)
Variable base : options.

(** Lines 31-37: the default [pdfProcessing]. *)
Definition createStatementParserInputDefault : PdfProcessing W := readPdf.

(** Lines 46-49: [{...createStatementParserInputDefault, ...rawInputs}.pdfProcessing] *)
Definition mergedPdfProcessing (rawInputs : RawInput) : option (PdfProcessing W) :=
  match pdfProcessing rawInputs with
  | None => Some createStatementParserInputDefault
  | Some given => given
  end.

(** Lines 62-70 *)
Definition stateMachineInputs (rawInputs : RawInput) (args : ParseFunctionInputs)
  : CreateStateMachineInput W StateType OutputType InitOutputType :=
  {| init := initInput rawInputs;
     filePath := parseFilePath args;
     inputParserOptions := parseInputParserOptions args |}.

(** Lines 51-83: the [parser] closure, its promise awaited. *)
Definition parse (rawInputs : RawInput) (args : ParseFunctionInputs) (w : W)
  : result (OutputType * W) :=
  match mergedPdfProcessing rawInputs with
  | None => Thrown (mkError "Missing pdf processing method")
  | Some process =>
      match process (parseFilePath args) w with
      | Thrown e => Thrown e
      | Ok (pdfPages, w1) =>
          let statementLines := flatten2dArray pdfPages in
          match createParserStateMachine base (stateMachineInputs rawInputs args)
                  statementLines w1 with
          | Thrown e => Thrown e
          | Ok (output, w2) =>
              match outputValidation rawInputs with
              | None => Ok (output, w2)
              | Some validate =>
                  match validate output w2 with
                  | Thrown e => Thrown e
                  | Ok (_, w3) => Ok (output, w3)
                  end
              end
          end
      end
  end.

(** Lines 39-92. The body has no [throw] and calls nothing that can throw:
    the completion is always normal. *)
Definition createStatementParser (rawInputs : RawInput)
  : result (StatementParser W OutputType Keyword) :=
  Ok {| parser := parse rawInputs;
        keywords := parserKeywords rawInputs;
        carriedDefaults := defaultParserOptions (initInput rawInputs) |}.

(** A format definition whose option type declares the fields [introduced]
    leaves one of them, not a base option, without a default. The option type
    is erased at run time; here it is the set of field names it declares. *)
Definition omitsDefault (introduced : gset string) (rawInputs : RawInput) : Prop :=
  ∃ k, k ∈ introduced ∧ base !! k = None
       ∧ orEmpty (defaultParserOptions (initInput rawInputs)) !! k = None.

End Create.

End Orchestrator.

(* ===================================================================== *)
(** ** Strings, regular expressions and [Number], as the format uses them  *)
(* ===================================================================== *)

Module Text.

Definition code (c : ascii) : N := N_of_ascii c.

Definition inRange (lo hi : N) (c : ascii) : bool :=
  ((lo <=? code c) && (code c <=? hi))%N.

Definition isDigit (c : ascii) : bool := inRange 48 57 c.

(** Upper-case letters of Latin-1: A-Z and U+00C0-U+00DE without U+00D7. *)
Definition isUpper (c : ascii) : bool :=
  inRange 65 90 c || (inRange 192 222 c && negb (code c =? 215)%N).

(** Lower-case letters of Latin-1 with an upper case in Latin-1. *)
Definition isLower (c : ascii) : bool :=
  inRange 97 122 c || (inRange 224 254 c && negb (code c =? 247)%N).

Definition lowerChar (c : ascii) : ascii :=
  if isUpper c then ascii_of_N (code c + 32) else c.

Definition upperChar (c : ascii) : ascii :=
  if isLower c then ascii_of_N (code c - 32) else c.

(** [s.toLowerCase()] *)
Fixpoint toLowerCase (s : string) : string :=
  match s with
  | EmptyString => EmptyString
  | String c s' => String (lowerChar c) (toLowerCase s')
  end.

(** White space and line terminators below 256. *)
Definition isSpace (c : ascii) : bool :=
  inRange 9 13 c || (code c =? 32)%N || (code c =? 160)%N.

Definition isWord (c : ascii) : bool :=
  inRange 48 57 c || inRange 65 90 c || inRange 97 122 c || (code c =? 95)%N.

Definition isLineTerminator (c : ascii) : bool :=
  (code c =? 10)%N || (code c =? 13)%N.

End Text.

Module RegExp.
Import Text.

(** A class of characters. *)
Inductive charClass :=
| Lit (c : ascii)                (* the character itself *)
| Digit                          (* \d *)
| Word                           (* \w *)
| Space                          (* \s *)
| Dot                            (* .  *)
| Union (a b : charClass).       (* [ab] *)

(** One element of a pattern. The patterns of the format definition repeat
    single character classes only and their groups do not nest. *)
Inductive atom :=
| Chars (k : charClass) (min : nat) (max : option nat) (greedy : bool)
| Open                           (* ( *)
| Close                          (* ) *)
| Bol                            (* ^ *)
| Eol.                           (* $ *)

Record regex := { atoms : list atom; ignoreCase : bool }.

(** Canonicalisation under the [i] flag. *)
Definition canon (ci : bool) (c : ascii) : ascii :=
  if ci then upperChar c else c.

Fixpoint matchesClass (ci : bool) (k : charClass) (c : ascii) : bool :=
  match k with
  | Lit a => if decide (canon ci a = canon ci c) then true else false
  | Digit => isDigit c
  | Word => isWord c
  | Space => isSpace c
  | Dot => negb (isLineTerminator c)
  | Union a b => matchesClass ci a c || matchesClass ci b c
  end.

(** Position in the input, groups closed so far (last first) and the text
    of the group that is open, if any (last character first). *)
Record matchState := {
  pos : nat;
  closed : list string;
  opened : option string
}.

Definition take1 (c : ascii) (st : matchState) : matchState :=
  {| pos := S (pos st);
     closed := closed st;
     opened := option_map (String c) (opened st) |}.

Definition belowMax (n : nat) (max : option nat) : bool :=
  match max with
  | None => true
  | Some k => (n <? k)%nat
  end.

Definition orElse {A} (x y : option A) : option A :=
  match x with
  | Some a => Some a
  | None => y
  end.

(** [k{min,max}] after [n] repetitions, then the rest of the pattern [rest]:
    a greedy repetition tries one more character first, a lazy one tries the
    rest first. *)
Fixpoint repeatClass {R} (ci : bool) (k : charClass) (min : nat) (max : option nat)
    (greedy : bool) (rest : string → matchState → option R)
    (n : nat) (s : string) (st : matchState) : option R :=
  let stop := if (min <=? n)%nat then rest s st else None in
  let more :=
    match s with
    | EmptyString => None
    | String c s' =>
        if belowMax n max && matchesClass ci k c
        then repeatClass ci k min max greedy rest (S n) s' (take1 c st)
        else None
    end in
  if greedy then orElse more stop else orElse stop more.

(** The pattern matched at the current position; the result lists the
    captured groups, first group first. *)
Fixpoint matchHere (ci : bool) (p : list atom) (s : string) (st : matchState)
  : option (list string) :=
  match p with
  | [] => Some (rev (closed st))
  | Chars k min max greedy :: p' => repeatClass ci k min max greedy (matchHere ci p') 0 s st
  | Open :: p' =>
      matchHere ci p' s {| pos := pos st; closed := closed st; opened := Some "" |}
  | Close :: p' =>
      matchHere ci p' s
        {| pos := pos st;
           closed := match opened st with
                     | Some g => String.rev g :: closed st
                     | None => closed st
                     end;
           opened := None |}
  | Bol :: p' => if decide (pos st = 0) then matchHere ci p' s st else None
  | Eol :: p' =>
      match s with
      | EmptyString => matchHere ci p' s st
      | String _ _ => None
      end
  end.

(** The leftmost match at or after position [at]. *)
Fixpoint search (re : regex) (at_ : nat) (s : string) : option (list string) :=
  orElse
    (matchHere (ignoreCase re) (atoms re) s {| pos := at_; closed := []; opened := None |})
    match s with
    | EmptyString => None
    | String _ s' => search re (S at_) s'
    end.

(** [s.match(re)] for a pattern without the [g] flag: the captured groups
    [match[1]], [match[2]], ..., or [None] for [null]. *)
Definition match_ (s : string) (re : regex) : option (list string) := search re 0 s.

(** The literal text [t] as a pattern. *)
Fixpoint lit (t : string) : list atom :=
  match t with
  | EmptyString => []
  | String c t' => Chars (Lit c) 1 (Some 1) true :: lit t'
  end.

Definition plus (k : charClass) : atom := Chars k 1 None true.       (* k+ *)
Definition star (k : charClass) : atom := Chars k 0 None true.       (* k* *)
Definition lazyPlus (k : charClass) : atom := Chars k 1 None false.  (* k+? *)
Definition opt (k : charClass) : atom := Chars k 0 (Some 1) true.    (* k? *)
Definition between (k : charClass) (lo hi : nat) : atom :=           (* k{lo,hi} *)
  Chars k lo (Some hi) true.

End RegExp.

Module Numeric.
Import Text.

(** A finite decimal without trailing zeros in its fraction. *)
Fixpoint normalise (m : Z) (k : nat) : number :=
  match k with
  | O => Fin m 0
  | S k' => if (m mod 10 =? 0)%Z then normalise (m / 10) k' else Fin m k
  end.

Definition digitValue (radix : Z) (c : ascii) : option Z :=
  let v :=
    if isDigit c then Some (Z.of_N (code c) - 48)%Z
    else if inRange 97 102 c then Some (Z.of_N (code c) - 87)%Z
    else if inRange 65 70 c then Some (Z.of_N (code c) - 55)%Z
    else None in
  match v with
  | Some d => if (d <? radix)%Z then Some d else None
  | None => None
  end.

(** The longest run of digits at the head of [s]: its value on top of
    [acc], the number of digits read and the rest of [s]. *)
Fixpoint readDigits (radix : Z) (acc : Z) (count : nat) (s : string) : Z * nat * string :=
  match s with
  | EmptyString => (acc, count, s)
  | String c s' =>
      match digitValue radix c with
      | Some d => readDigits radix (acc * radix + d)%Z (S count) s'
      | None => (acc, count, s)
      end
  end.

Fixpoint dropSpaces (s : string) : string :=
  match s with
  | EmptyString => s
  | String c s' => if isSpace c then dropSpaces s' else s
  end.

(** White space and line terminators stripped at both ends. *)
Definition trim (s : string) : string :=
  String.rev (dropSpaces (String.rev (dropSpaces s))).

(** [ExponentPart], optional: the exponent and the rest, or [None] when an
    exponent indicator is not followed by an integer. *)
Definition readExponent (s : string) : option (Z * string) :=
  match s with
  | String c s' =>
      if decide (c = "e"%char ∨ c = "E"%char) then
        let '(negative, body) :=
          match s' with
          | String "-"%char b => (true, b)
          | String "+"%char b => (false, b)
          | _ => (false, s')
          end in
        let '(e, count, rest) := readDigits 10 0 0 body in
        match count with
        | O => None
        | S _ => Some (if negative : bool then (- e)%Z else e, rest)
        end
      else Some (0%Z, s)
  | EmptyString => Some (0%Z, s)
  end.

(** [mant / 10^scale * 10^e] *)
Definition scaled (mant : Z) (scale : nat) (e : Z) : number :=
  let shift := (Z.of_nat scale - e)%Z in
  if (0 <=? shift)%Z then normalise mant (Z.to_nat shift)
  else Fin (mant * 10 ^ (- shift))%Z 0.

(** [StrUnsignedDecimalLiteral], with the sign to apply. *)
Definition unsignedDecimal (negative : bool) (s : string) : number :=
  if decide (s = "Infinity") then Inf negative
  else
    let '(whole, wholeCount, afterWhole) := readDigits 10 0 0 s in
    let '(mant, fracCount, afterFrac) :=
      match afterWhole with
      | String "."%char f => readDigits 10 whole 0 f
      | _ => (whole, 0, afterWhole)
      end in
    match wholeCount + fracCount with
    | O => NaN
    | S _ =>
        match readExponent afterFrac with
        | Some (e, EmptyString) =>
            scaled (if negative then (- mant)%Z else mant) fracCount e
        | _ => NaN
        end
    end.

(** [0x...], [0o...], [0b...] *)
Definition nonDecimal (radix : Z) (body : string) : number :=
  match readDigits radix 0 0 body with
  | (v, S _, EmptyString) => Fin v 0
  | _ => NaN
  end.

(** The value that the text denotes, not yet rounded. *)
Definition mathematicalValue (s : string) : number :=
  match trim s with
  | EmptyString => Fin 0 0
  | String "-"%char body => unsignedDecimal true body
  | String "+"%char body => unsignedDecimal false body
  | String "0"%char (String c body) as t =>
      if decide (c = "x"%char ∨ c = "X"%char) then nonDecimal 16 body
      else if decide (c = "o"%char ∨ c = "O"%char) then nonDecimal 8 body
      else if decide (c = "b"%char ∨ c = "B"%char) then nonDecimal 2 body
      else unsignedDecimal false t
  | t => unsignedDecimal false t
  end.

(** Rounding to binary64 (to the nearest, ties to even) at the two ends of
    the range: a value of size at most [2^-1075], half of the least positive
    number, gives zero; a value of size at least [2^1024 - 2^970], half way
    from the greatest finite number to [2^1024], gives an infinity. A value
    in between is kept: it stands for the number nearest to it. *)
Definition roundedToRange (n : number) : number :=
  match n with
  | Fin m k =>
      if (Z.abs m * 2 ^ 1075 <=? 10 ^ Z.of_nat k)%Z then Fin 0 0
      else if (10 ^ Z.of_nat k * (2 ^ 1024 - 2 ^ 970) <=? Z.abs m)%Z then Inf (m <? 0)%Z
      else Fin m k
  | _ => n
  end.

(** [Number(s)] for a string [s]. *)
Definition Number (s : string) : number := roundedToRange (mathematicalValue s).

End Numeric.

(* ===================================================================== *)
(** ** implemented-parsers/paypal-parser.ts                                *)
(* ===================================================================== *)

Module Paypal.
Import Machine RegExp Numeric.

(** The helpers that the format imports from [augments/date.ts] and
    [augments/string.ts], which are not among the sources. The date helpers
    may throw; what they throw is taken to be an [Error] object. *)
Class Augments := {
  dateFromNamedCommaFormat : string → result Plain.Date;
  dateFromSlashFormat : string → result Plain.Date;
  collapseSpaces : string → string;
  sanitizeNumberString : string → string
}.

Inductive State :=
| Header
| HeaderData
| Activity
| ExpenseInside
| IncomeInside
| ActivityHeader
| End_.

#[global] Instance State_eq_dec : EqDecision State.
Proof. solve_decision. Defined.

(** [ParsingTriggers] *)
Definition Usd : string := "USD".
Definition MustNotify : string := "you must notify us no later than".
Definition Statement : string := "statement period".

(** [/^page\s+\d+$/i] *)
Definition pageEndRegExp : regex :=
  {| atoms := [Bol] ++ lit "page" ++ [plus Space; plus Digit; Eol];
     ignoreCase := true |}.

(** [/date\s+description\s+currency\s+amount\s+fees\s+total/i] *)
Definition activityHeader : regex :=
  {| atoms := lit "date" ++ [plus Space] ++ lit "description" ++ [plus Space]
              ++ lit "currency" ++ [plus Space] ++ lit "amount" ++ [plus Space]
              ++ lit "fees" ++ [plus Space] ++ lit "total";
     ignoreCase := true |}.

(** [\w{1,3} \d{1,2},? \d{1,4}] *)
Definition namedDate : list atom :=
  [between Word 1 3] ++ lit " " ++ [between Digit 1 2; opt (Lit ","%char)] ++ lit " "
  ++ [between Digit 1 4].

(** [/(\w{1,3} \d{1,2},? \d{1,4})\s*-\s*(\w{1,3} \d{1,2},? \d{1,4})\s*(.+)$/] *)
Definition headerDataLineRegExp : regex :=
  {| atoms := [Open] ++ namedDate ++ [Close; star Space] ++ lit "-" ++ [star Space]
              ++ [Open] ++ namedDate ++ [Close; star Space]
              ++ [Open; plus Dot; Close; Eol];
     ignoreCase := false |}.

(** [[-,.\d]] *)
Definition numberChars : charClass :=
  Union (Lit "-"%char) (Union (Lit ","%char) (Union (Lit "."%char) Digit)).

(** [^(\d{1,2}/\d{1,2}/\d{1,4})\s+(.+?)USD\s+([-,.\d]+)\s+([-,.\d]+)\s+([-,.\d]+)$],
    with the [i] flag. *)
Definition transactionStartRegExp : regex :=
  {| atoms := [Bol; Open; between Digit 1 2] ++ lit "/" ++ [between Digit 1 2] ++ lit "/"
              ++ [between Digit 1 4; Close; plus Space; Open; lazyPlus Dot; Close]
              ++ lit Usd
              ++ [plus Space; Open; plus numberChars; Close;
                  plus Space; Open; plus numberChars; Close;
                  plus Space; Open; plus numberChars; Close; Eol];
     ignoreCase := true |}.

(** [PaypalTransaction = ParsedTransaction & {baseAmount, fees}] *)
Record PaypalTransaction := {
  date : Plain.Date;
  description : string;
  amount : number;
  fees : number;
  baseAmount : number;
  originalText : list string
}.

Abbreviation PaypalOutput := (Plain.ParsedOutput PaypalTransaction).

(** A keyword of [parserKeywords]. *)
Inductive ParserKeyword :=
| KeywordText (s : string)
| KeywordRegExp (r : regex).

(** [lastExpense.description += '\n' + collapseSpaces(line);
     lastExpense.originalText.push(line)] *)
Definition extend `{Augments} (line : string) (t : PaypalTransaction) : PaypalTransaction :=
  {| date := date t;
     description := description t +:+ String "010"%char (collapseSpaces line);
     amount := amount t;
     fees := fees t;
     baseAmount := baseAmount t;
     originalText := originalText t ++ [line] |}.

(** The update of [array[array.length - 1]]; reading [description] of
    [undefined] throws a [TypeError]. *)
Definition extendLast `{Augments} (line : string) (array : list PaypalTransaction)
  : result (list PaypalTransaction) :=
  match reverse array with
  | [] => Thrown (mkError "Cannot read properties of undefined (reading 'description')")
  | last :: before => Ok (reverse before ++ [extend line last])
  end.

Definition withHeader (o : PaypalOutput) (d1 d2 : Plain.Date) (suffix : string)
  : PaypalOutput :=
  {| Plain.incomes := Plain.incomes o;
     Plain.expenses := Plain.expenses o;
     Plain.filePath := Plain.filePath o;
     Plain.yearPrefix := Plain.yearPrefix o;
     Plain.accountSuffix := suffix;
     Plain.endDate := Some d2;
     Plain.startDate := Some d1 |}.

Definition withIncomes (o : PaypalOutput) (l : list PaypalTransaction) : PaypalOutput :=
  {| Plain.incomes := l;
     Plain.expenses := Plain.expenses o;
     Plain.filePath := Plain.filePath o;
     Plain.yearPrefix := Plain.yearPrefix o;
     Plain.accountSuffix := Plain.accountSuffix o;
     Plain.endDate := Plain.endDate o;
     Plain.startDate := Plain.startDate o |}.

Definition withExpenses (o : PaypalOutput) (l : list PaypalTransaction) : PaypalOutput :=
  {| Plain.incomes := Plain.incomes o;
     Plain.expenses := l;
     Plain.filePath := Plain.filePath o;
     Plain.yearPrefix := Plain.yearPrefix o;
     Plain.accountSuffix := Plain.accountSuffix o;
     Plain.endDate := Plain.endDate o;
     Plain.startDate := Plain.startDate o |}.

Definition isNone {A} (o : option A) : bool :=
  match o with
  | None => true
  | Some _ => false
  end.

(** Lines 47-85. The function updates [output] in place and returns it; the
    arrays and transactions it reaches are the output's own, so the update is
    given as the new value of the record. *)
Definition performStateAction `{Augments} (currentState : State) (line : string)
    (output : PaypalOutput) : result PaypalOutput :=
  if bool_decide (currentState = HeaderData) && isNone (Plain.startDate output) then
    match match_ line headerDataLineRegExp with
    | Some [startDate; endDate; accountId] =>
        bind (dateFromNamedCommaFormat startDate) (λ d1,
        bind (dateFromNamedCommaFormat endDate) (λ d2,
        Ok (withHeader output d1 d2 accountId)))
    | _ => Ok output
    end
  else if bool_decide (currentState = Activity) then
    match match_ line transactionStartRegExp with
    | Some [date_; description_; amountString; fees_; total] =>
        let amount_ := Number (sanitizeNumberString amountString) in
        bind (dateFromSlashFormat date_) (λ d,
        let newTransaction :=
          {| date := d;
             description := collapseSpaces description_;
             amount := abs (Number (sanitizeNumberString total));
             fees := abs (Number (sanitizeNumberString fees_));
             baseAmount := abs amount_;
             originalText := [line] |} in
        if ltZero amount_
        then Ok (withExpenses output (Plain.expenses output ++ [newTransaction]))
        else Ok (withIncomes output (Plain.incomes output ++ [newTransaction])))
    | _ => Ok output
    end
  else if bool_decide (currentState = ExpenseInside) && negb (bool_decide (line = "")) then
    bind (extendLast line (Plain.expenses output)) (λ l, Ok (withExpenses output l))
  else if bool_decide (currentState = IncomeInside) && negb (bool_decide (line = "")) then
    bind (extendLast line (Plain.incomes output)) (λ l, Ok (withIncomes output l))
  else Ok output.

(** Lines 87-136 *)
Definition nextState `{Augments} (currentState : State) (line0 : string) : State :=
  let line := Text.toLowerCase line0 in
  if includes MustNotify line then End_
  else
    match currentState with
    | Header =>
        if includes Statement line then HeaderData
        else if isNone (match_ line activityHeader) then currentState
        else ActivityHeader
    | ActivityHeader => if decide (line = "") then Activity else currentState
    | HeaderData => Header
    | ExpenseInside => if decide (line = "") then Activity else currentState
    | IncomeInside => if decide (line = "") then Activity else currentState
    | Activity =>
        match match_ line transactionStartRegExp with
        | Some [_; _; _; _; total] =>
            if ltZero (Number (sanitizeNumberString total)) then ExpenseInside
            else IncomeInside
        | _ => if isNone (match_ line pageEndRegExp) then currentState else Header
        end
    | End_ => currentState
    end.

(** No stored amount is below zero. *)
Definition notNegative (t : PaypalTransaction) : Prop :=
  ltZero (amount t) = false ∧ ltZero (fees t) = false ∧ ltZero (baseAmount t) = false.

(** Lines 39-45: the format definition handed to [createStatementParser].
    [enumValues] stands for [getEnumTypedValues(ParsingTriggers)], of the
    absent [augments/object.ts]. *)
Definition paypalInput `{Augments} (enumValues : list string)
  : Orchestrator.CreateStatementParserInput unit State PaypalOutput Empty_set ParserKeyword :=
  {| Orchestrator.pdfProcessing := None;
     Orchestrator.outputValidation := None;
     Orchestrator.parserKeywords :=
       map KeywordText enumValues
       ++ [KeywordRegExp activityHeader; KeywordRegExp pageEndRegExp];
     Orchestrator.initInput :=
       {| action := λ s line o _, Plain.pureCall (performStateAction s line o);
          next := λ s line, Plain.pureCall (Ok (nextState s line));
          endState := End_;
          initialState := Header;
          initOutput := None;
          defaultParserOptions := None |} |}.

(** The state machine of the PayPal format for the file [path]. *)
Definition paypalMachine `{Augments} (path : string) (caller : option options)
  : CreateStateMachineInput unit State PaypalOutput Empty_set :=
  {| init := Orchestrator.initInput (paypalInput []);
     filePath := path;
     inputParserOptions := caller |}.

End Paypal.

(* ===================================================================== *)
(** ** Outputs in the JavaScript heap                                      *)
(* ===================================================================== *)

Module Heap.
Import Machine.

(** An object of the heap: a plain object with its own data properties, an
    array, a [Date] with the text of [toISOString()] ([None] for an invalid
    date), or a function. Accessor properties and [toJSON] methods other
    than that of [Date] are not represented, nor are [BigInt] and symbol
    values: what [JSON.stringify] does with them is outside the model. *)
Inductive object :=
| OObject (props : gmap string value)
| OArray (elems : list value)
| ODate (iso : option string)
| OFunction.

Abbreviation heap := (gmap loc object).

(** A new object at an unused location. *)
Definition alloc (ob : object) (h : heap) : loc * heap :=
  let l := fresh (dom h) in (l, <[l := ob]> h).
Arguments alloc : simpl never.

(** The values an object holds. *)
Definition child (ob : object) (v : value) : Prop :=
  match ob with
  | OObject props => ∃ k, props !! k = Some v
  | OArray elems => v ∈ elems
  | ODate _ | OFunction => False
  end.

(** [reachable h v x]: the object at [x] is [v] or is nested in it. *)
Inductive reachable (h : heap) : value → loc → Prop :=
| reach_here l : reachable h (VRef l) l
| reach_child l ob v x :
    h !! l = Some ob → child ob v → reachable h v x → reachable h (VRef l) x.

(** Everything nested in [v] is allocated. *)
Definition valid (h : heap) (v : value) : Prop :=
  ∀ x, reachable h v x → x ∈ dom h.

Definition isPrimitive (v : value) : bool :=
  match v with
  | VRef _ => false
  | _ => true
  end.

(** A JSON text, by its syntax tree. *)
#[warnings="-register-all"]
Inductive json :=
| JNull
| JBool (b : bool)
| JNumber (mant : Z) (scale : nat)
| JString (s : string)
| JArray (elems : list json)
| JObject (members : list (string * json)).

Section Traverse.
Context {A B : Type}.

(** [f] over a list, stopping at the first throw. *)
Fixpoint mapResult (f : A → result B) (xs : list A) : result (list B) :=
  match xs with
  | [] => Ok []
  | x :: xs' => bind (f x) (λ y, bind (mapResult f xs') (λ ys, Ok (y :: ys)))
  end.

Variable p : A → heap → value * heap.

(** The elements of a JSON array, revived left to right. *)
Fixpoint parseElems (js : list A) (h : heap) : list value * heap :=
  match js with
  | [] => ([], h)
  | j :: js' =>
      let '(v, h1) := p j h in
      let '(vs, h2) := parseElems js' h1 in
      (v :: vs, h2)
  end.

(** The members of a JSON object, revived left to right; a later member
    replaces an earlier one of the same name. *)
Fixpoint parseMembers (ms : list (string * A)) (acc : gmap string value) (h : heap)
  : gmap string value * heap :=
  match ms with
  | [] => (acc, h)
  | (k, j) :: ms' =>
      let '(v, h1) := p j h in
      parseMembers ms' (<[k := v]> acc) h1
  end.

End Traverse.

(** The [TypeError] of [JSON.stringify] on a circular structure and the
    [SyntaxError] of [JSON.parse(undefined)]. The messages are worded by the
    JavaScript engine and differ between engines and versions; these are
    V8's, which continues the first with a description of the cycle. Nothing
    below depends on the wording. *)
Definition circular : Error := mkError "Converting circular structure to JSON".

Definition notJson : Error :=
  mkError (String (ascii_of_nat 34)
             ("undefined" +:+ String (ascii_of_nat 34) " is not valid JSON")).

(** The bound on the nesting of a traversal is used up. With the bound at
    the size of the heap this is not met: the locations on [stack] are
    distinct and allocated. *)
Definition exhausted : Error := mkError "nesting bound exhausted".

(** [JSON.stringify(v)], as the tree of the text: [None] is [undefined].
    [stack] holds the objects being serialised, [fuel] bounds their number. *)
Fixpoint stringify (fuel : nat) (stack : list loc) (h : heap) (v : value)
  : result (option json) :=
  match v with
  | VUndefined => Ok None
  | VNull => Ok (Some JNull)
  | VBool b => Ok (Some (JBool b))
  | VNumber (Fin m k) => Ok (Some (JNumber m k))
  | VNumber _ => Ok (Some JNull)
  | VString s => Ok (Some (JString s))
  | VRef l =>
      match h !! l with
      | None | Some OFunction => Ok None
      | Some (ODate iso) =>
          Ok (Some (match iso with Some s => JString s | None => JNull end))
      | Some (OArray elems) =>
          if bool_decide (l ∈ stack) then Thrown circular
          else
            match fuel with
            | O => Thrown exhausted
            | S fuel' =>
                bind (mapResult (stringify fuel' (l :: stack) h) elems) (λ js,
                Ok (Some (JArray (map (default JNull) js))))
            end
      | Some (OObject props) =>
          if bool_decide (l ∈ stack) then Thrown circular
          else
            match fuel with
            | O => Thrown exhausted
            | S fuel' =>
                bind (mapResult
                        (λ kv, bind (stringify fuel' (l :: stack) h kv.2) (λ r, Ok (kv.1, r)))
                        (map_to_list props)) (λ ms,
                Ok (Some (JObject (omap (λ kr, pair kr.1 <$> kr.2) ms))))
            end
      end
  end.

(** [JSON.parse(text)]: every array and object of the text is a new object
    of the heap. *)
Fixpoint parse (j : json) (h : heap) : value * heap :=
  match j with
  | JNull => (VNull, h)
  | JBool b => (VBool b, h)
  | JNumber m k => (VNumber (Fin m k), h)
  | JString s => (VString s, h)
  | JArray js =>
      let '(vs, h1) := parseElems parse js h in
      let '(l, h2) := alloc (OArray vs) h1 in
      (VRef l, h2)
  | JObject ms =>
      let '(props, h1) := parseMembers parse ms ∅ h in
      let '(l, h2) := alloc (OObject props) h1 in
      (VRef l, h2)
  end.

(** The own enumerable properties of an array or of a string: its indices. *)
Fixpoint indexed {A} (i : nat) (vs : list A) : gmap string A :=
  match vs with
  | [] => ∅
  | v :: vs' => <[NilEmpty.string_of_uint (Nat.to_uint i) := v]> (indexed (S i) vs')
  end.

Fixpoint chars (s : string) : list value :=
  match s with
  | EmptyString => []
  | String c s' => VString (String c EmptyString) :: chars s'
  end.

(** The properties that [{...v}] copies. *)
Definition spreadProps (h : heap) (v : value) : gmap string value :=
  match v with
  | VRef l =>
      match h !! l with
      | Some (OObject props) => props
      | Some (OArray elems) => indexed 0 elems
      | _ => ∅
      end
  | VString s => indexed 0 (chars s)
  | _ => ∅
  end.

(** [o[k]] for an object [o]. *)
Definition getField (h : heap) (o : value) (k : string) : value :=
  match o with
  | VRef l =>
      match h !! l with
      | Some (OObject props) => getProp props k
      | _ => VUndefined
      end
  | _ => VUndefined
  end.

(** Lines 88-96: the properties of [startingOutput]. *)
Definition scaffold (incomes expenses : loc) (path : string) (yp : value)
  : gmap string value :=
  {[ "incomes" := VRef incomes;
     "expenses" := VRef expenses;
     "filePath" := VString path;
     "yearPrefix" := yp;
     "accountSuffix" := VString "";
     "endDate" := VUndefined;
     "startDate" := VUndefined ]}.

(** Lines 88-102. [JSON.parse(undefined)] throws a [SyntaxError]. *)
Definition buildOutput (path : string) (yp : value) (initOutput : option value) (h : heap)
  : result (value * heap) :=
  let '(lIncomes, h1) := alloc (OArray []) h in
  let '(lExpenses, h2) := alloc (OArray []) h1 in
  let '(lStarting, h3) := alloc (OObject (scaffold lIncomes lExpenses path yp)) h2 in
  let '(source, h4) :=
    match initOutput with
    | Some v => if falsy v then (λ '(l, h'), (VRef l, h')) (alloc (OObject ∅) h3) else (v, h3)
    | None => (λ '(l, h'), (VRef l, h')) (alloc (OObject ∅) h3)
    end in
  match stringify (size h4) [] h4 source with
  | Thrown e => Thrown e
  | Ok None => Thrown notJson
  | Ok (Some j) =>
      let '(copy, h5) := parse j h4 in
      let '(lOutput, h6) :=
        alloc (OObject (spreadProps h5 copy ∪ spreadProps h5 (VRef lStarting))) h5 in
      Ok (VRef lOutput, h6)
  end.

(** Outputs held in the heap: [OutputType] is a reference to an object, as
    its type says. [toText] is the conversion of a value to a string that a
    template literal applies. *)
Definition heapOutput (toText : heap → value → string)
  : ParsedOutputLike heap value value :=
  {| filePathText := λ o h, toText h (getField h o "filePath");
     accountSuffixOf := λ o h, getField h o "accountSuffix";
     Machine.buildOutput := buildOutput |}.

(** The shape of a value down to depth [n]. *)
#[warnings="-register-all"]
Inductive tree :=
| TLeaf (v : value)
| TCut
| TDate (iso : option string)
| TFunction
| TArray (elems : list tree)
| TObject (props : gmap string tree).

Fixpoint view (n : nat) (h : heap) (v : value) : tree :=
  match v with
  | VRef l =>
      match n with
      | O => TCut
      | S n' =>
          match h !! l with
          | None => TCut
          | Some (OObject props) => TObject (view n' h <$> props)
          | Some (OArray elems) => TArray (view n' h <$> elems)
          | Some (ODate iso) => TDate iso
          | Some OFunction => TFunction
          end
      end
  | _ => TLeaf v
  end.

(** Two values, each in its heap, are structurally equal. *)
Definition sameShape (h1 : heap) (v1 : value) (h2 : heap) (v2 : value) : Prop :=
  ∀ n, view n h1 v1 = view n h2 v2.

Section Callbacks.
Context {StateType : Type}.

(** An action that stays within its output: what it returns is made of what
    its output argument held and of new objects, and it leaves every other
    object as it was. *)
Definition confinedAction (act : performStateActionFunction heap StateType value) : Prop :=
  ∀ s l o opts h o' h',
    valid h o →
    act s l o opts h = Ok (o', h') →
    dom h ⊆ dom h'
    ∧ valid h' o'
    ∧ (∀ x, reachable h' o' x → reachable h o x ∨ x ∉ dom h)
    ∧ (∀ x, x ∈ dom h → ¬ reachable h o x → h' !! x = h !! x).

(** A transition function that changes no object. *)
Definition framedNext (nxt : nextStateFunction heap StateType) : Prop :=
  ∀ s l h s' h', nxt s l h = Ok (s', h') → h ⊆ h'.

(** An action that is a function of the shape of its output argument. *)
Definition shapeAction (act : performStateActionFunction heap StateType value) : Prop :=
  ∀ s l opts h1 o1 h2 o2,
    valid h1 o1 → valid h2 o2 →
    sameShape h1 o1 h2 o2 →
    match act s l o1 opts h1, act s l o2 opts h2 with
    | Ok (o1', h1'), Ok (o2', h2') => sameShape h1' o1' h2' o2'
    | Thrown e1, Thrown e2 => e1 = e2
    | _, _ => False
    end.

(** A transition function whose result does not depend on the heap. *)
Definition shapeNext (nxt : nextStateFunction heap StateType) : Prop :=
  ∀ s l h1 h2,
    match nxt s l h1, nxt s l h2 with
    | Ok (s1, _), Ok (s2, _) => s1 = s2
    | Thrown e1, Thrown e2 => e1 = e2
    | _, _ => False
    end.

End Callbacks.

(** Induction on JSON trees, with the elements and members at hand. *)
Fixpoint json_nested_ind (P : json → Prop)
    (HNull : P JNull) (HBool : ∀ b, P (JBool b))
    (HNumber : ∀ m k, P (JNumber m k)) (HString : ∀ s, P (JString s))
    (HArray : ∀ js, Forall P js → P (JArray js))
    (HObject : ∀ ms, Forall (λ m, P m.2) ms → P (JObject ms))
    (j : json) : P j :=
  match j with
  | JNull => HNull
  | JBool b => HBool b
  | JNumber m k => HNumber m k
  | JString s => HString s
  | JArray js =>
      HArray js
        ((fix go (js : list json) : Forall P js :=
            match js with
            | [] => Forall_nil_2 P
            | j' :: js' =>
                Forall_cons_2 P j' js'
                  (json_nested_ind P HNull HBool HNumber HString HArray HObject j')
                  (go js')
            end) js)
  | JObject ms =>
      HObject ms
        ((fix go (ms : list (string * json)) : Forall (λ m, P m.2) ms :=
            match ms with
            | [] => Forall_nil_2 _
            | m' :: ms' =>
                Forall_cons_2 (λ m, P m.2) m' ms'
                  (json_nested_ind P HNull HBool HNumber HString HArray HObject m'.2)
                  (go ms')
            end) ms)
  end.

(** [g] holds the objects nested in [v] as [h] does. *)
Definition agreeOn (h g : heap) (v : value) : Prop :=
  ∀ y, reachable h v y → g !! y = h !! y.

(** Everything nested in [v] was allocated between [h] and [h']. *)
Definition freshIn (h h' : heap) (v : value) : Prop :=
  ∀ x, reachable h' v x → x ∈ dom h' ∧ x ∉ dom h.

(** What [p] allocates is new and leaves the heap below it as it was. *)
Definition allocatesFresh {A} (p : A → heap → value * heap) (j : A) : Prop :=
  ∀ h v h', p j h = (v, h') → h ⊆ h' ∧ freshIn h h' v.

(** Two runs of [p] on the same text give structurally equal values. *)
Definition sameShapes {A} (p : A → heap → value * heap) (j : A) : Prop :=
  ∀ h v h' g w g', p j h = (v, h') → p j g = (w, g') → sameShape h' v g' w.

(** The properties gathered so far in two runs correspond. *)
Definition sameProps (h : heap) (a : gmap string value) (g : heap) (b : gmap string value)
  : Prop :=
  ∀ n, view n h <$> a = view n g <$> b.

(** [createParserStateMachine(m)(inputs)] over outputs in the heap. *)
Definition parseCall {StateType : Type} `{!EqDecision StateType}
    (toText : heap → value → string) (base : options)
    (m : CreateStateMachineInput heap StateType value value)
    (inputs : list string) (h : heap) : result (value * heap) :=
  @createParserStateMachine heap StateType value value _ (heapOutput toText) base m inputs h.

End Heap.

(* ===================================================================== *)
(** ** sanitizer/sanitized-test.ts                                         *)
(* ===================================================================== *)

Module Sanitizer.

(** The double quotation mark, as a string. *)
Definition quote : string := String (ascii_of_nat 34) EmptyString.

Section Types.
Context {W ParserType ParserOptions T : Type}.

Abbreviation Output := (Plain.ParsedOutput T).

(** [SanitizingStatementPdf['parserInput']]: the parser input of
    [parse-api.ts] with [name] and [debug] required. *)
Record ParserInput := {
  filePath : string;
  name : string;
  debug : bool;
  parserOptions : option ParserOptions
}.

(** [SanitizingStatementPdf] *)
Record StatementPdf := {
  parserInput : ParserInput;
  type : ParserType
}.

(** The object handed to [parseText]; a property that the object literal
    does not have is [None]. [textFilePath], [textName], [textDebug] and
    [textOptions] are its properties [filePath], [name], [debug] and
    [parserOptions]. *)
Record ParseTextInput := {
  textLines : list string;
  textFilePath : option string;
  textName : option string;
  textDebug : option bool;
  textOptions : option ParserOptions
}.

(** An entry of [parsers] ([all-parsers.ts]). [parseText] is called inside
    [try]: it gives its completion and the world it leaves. *)
Record Parser := {
  parsePdf : ParserInput → W → result (Output * W);
  parseText : ParseTextInput → W → result Output * W
}.

(** [SanitizedTestFile], as an object: a property that is absent or
    [undefined] is [None]. [testName] and [testOptions] are its properties
    [name] and [parserOptions]. *)
Record SanitizedTestFile := {
  text : list string;
  parserType : ParserType;
  testName : string;
  testOptions : option ParserOptions;
  output : option Output;
  errorMessage : option string
}.

(** [TestInputObject<ParsedOutput, Error>] of [test-vir], as built at the end
    of the file: [expectError] holds the [errorMessage] property, which may
    be [undefined]. *)
Record TestInputObject := {
  test : W → result Output * W;
  description : string;
  expect : option Output;
  expectError : option (option string)
}.

End Types.
Arguments ParserInput : clear implicits.
Arguments StatementPdf : clear implicits.
Arguments ParseTextInput : clear implicits.
Arguments Parser : clear implicits.
Arguments SanitizedTestFile : clear implicits.
Arguments TestInputObject : clear implicits.

Section Functions.
Context {W ParserType ParserOptions T : Type}.

(** [parsers] of [all-parsers.ts] *)
Variable parsers : ParserType → Parser W ParserOptions T.
(** [sanitizePdf] of [sanitizer.ts], awaited *)
Variable sanitizePdf : string → ParserType → bool → W → result (list string * W).
(** [JSON.parse(readFileSync(filePath).toString())] *)
Variable readTestFile :
  string → W → result (SanitizedTestFile ParserType ParserOptions T * W).

(** Lines 33-57 *)
Definition validateSanitizedParsing
    (statementPdf : StatementPdf ParserType ParserOptions)
    (parsedSanitized : Plain.ParsedOutput T) (w : W) : result (unit * W) :=
  let parser := parsers (type statementPdf) in
  match parsePdf parser (parserInput statementPdf) w with
  | Thrown e => Thrown e
  | Ok (parsedOriginal, w1) =>
      if negb (length (Plain.incomes parsedSanitized)
               =? length (Plain.incomes parsedOriginal))%nat then
        Thrown (mkError ("Sanitized incomes count did not match the original in "
                         +:+ quote +:+ name (parserInput statementPdf) +:+ quote))
      else if negb (length (Plain.expenses parsedSanitized)
                    =? length (Plain.expenses parsedOriginal))%nat then
        Thrown (mkError ("Sanitized expenses count did not match the original in "
                         +:+ quote +:+ name (parserInput statementPdf) +:+ quote))
      else Ok (tt, w1)
  end.

(** Lines 89-91: [parseError?.message || '...'] *)
Definition messageOf (parseError : option Error) : string :=
  match parseError with
  | Some e =>
      if decide (message e = "")
      then "Sanitized parser output is undefined but no error was encountered"
      else message e
  | None => "Sanitized parser output is undefined but no error was encountered"
  end.

(** Lines 63-96 *)
Definition createSanitizedTestFileObject
    (statementPdf : StatementPdf ParserType ParserOptions) (w : W)
  : result (SanitizedTestFile ParserType ParserOptions T * W) :=
  let input := parserInput statementPdf in
  let parser := parsers (type statementPdf) in
  match sanitizePdf (filePath input) (type statementPdf) (debug input) w with
  | Thrown e => Thrown e
  | Ok (sanitizedText, w1) =>
      let '(completion, w2) :=
        parseText parser
          {| textLines := sanitizedText;
             textFilePath := Some (filePath input);
             textName := Some (name input);
             textDebug := Some (debug input);
             textOptions := parserOptions input |} w1 in
      let '(parsedSanitized, parseError) :=
        match completion with
        | Ok o => (Some o, None)
        | Thrown e => (None, Some e)
        end in
      Ok ({| text := sanitizedText;
             parserType := type statementPdf;
             testName := name input;
             testOptions := None;
             output := parsedSanitized;
             errorMessage :=
               match parsedSanitized with
               | Some _ => None
               | None => Some (messageOf parseError)
               end |}, w2)
  end.

(** Lines 146-170 *)
Definition createSanitizedTestInput (path : string) (w : W)
  : result (TestInputObject W T * W) :=
  match readTestFile path w with
  | Thrown e => Thrown e
  | Ok (testFile, w1) =>
      let parser := parsers (parserType testFile) in
      Ok ({| test := parseText parser
                       {| textLines := text testFile;
                          textFilePath := None;
                          textName := Some (testName testFile);
                          textDebug := None;
                          textOptions := testOptions testFile |};
             description := "compared sanitized file " +:+ quote +:+ path +:+ quote;
             expect := output testFile;
             expectError :=
               match output testFile with
               | Some _ => None
               | None => Some (errorMessage testFile)
               end |}, w1)
  end.

End Functions.

End Sanitizer.

(* ===================================================================== *)
(** ** Notions used in the properties                                     *)
(* ===================================================================== *)

Module RegExpNotions.
Import Text RegExp.

(** Every character of [s] passes [f]. *)
Fixpoint allChars (f : ascii → bool) (s : string) : bool :=
  match s with
  | EmptyString => true
  | String c s' => f c && allChars f s'
  end.

(** The groups of a match state, lower-cased. *)
Definition lowerState (st : matchState) : matchState :=
  {| pos := pos st;
     closed := map toLowerCase (closed st);
     opened := option_map toLowerCase (opened st) |}.


(** The number of groups that a pattern closes; [open] tells whether a
    group is open where the pattern starts. *)
Fixpoint groups (p : list atom) (open : bool) : nat :=
  match p with
  | [] => 0
  | Open :: p' => groups p' true
  | Close :: p' => (if open then 1 else 0) + groups p' false
  | _ :: p' => groups p' open
  end.

(** A group is open. *)
Definition inGroup (st : matchState) : bool :=
  match opened st with
  | Some _ => true
  | None => false
  end.

End RegExpNotions.

Module PaypalNotions.
Import Machine RegExp Numeric Paypal.

(** The line contains the notice that ends a statement, in any letter case. *)
Definition isNotice (line : string) : bool :=
  includes MustNotify (Text.toLowerCase line).

(** The line has the form of a transaction. *)
Definition isTransactionLine (line : string) : bool :=
  negb (isNone (match_ line transactionStartRegExp)).

(** On a transaction line, the amount column and the total column are on
    the same side of zero. *)
Definition signsAgree `{Augments} (line : string) : Prop :=
  ∀ d desc a f t,
    match_ line transactionStartRegExp = Some [d; desc; a; f; t] →
    ltZero (Number (sanitizeNumberString a)) = ltZero (Number (sanitizeNumberString t)).

(** The state and the output fit: inside an expense there is an expense,
    inside an income an income. *)
Definition fits (s : State) (o : PaypalOutput) : Prop :=
  (s = ExpenseInside → Plain.expenses o ≠ []) ∧ (s = IncomeInside → Plain.incomes o ≠ []).

(** [t'] is [t] with description lines added. *)
Definition extends (t t' : PaypalTransaction) : Prop :=
  date t' = date t ∧ amount t' = amount t ∧ fees t' = fees t
  ∧ baseAmount t' = baseAmount t
  ∧ (∃ more, originalText t' = originalText t ++ more)
  ∧ (∃ more, description t' = description t +:+ more).

(** [l'] is [l] with description lines added to its transactions and with
    transactions added at its end. *)
Definition grown (l l' : list PaypalTransaction) : Prop :=
  ∃ kept added, l' = kept ++ added ∧ Forall2 extends l kept.

(** The text kept with a transaction: a transaction line of [inputs], then
    non-empty lines of [inputs]. *)
Definition textFrom (inputs : list string) (t : PaypalTransaction) : Prop :=
  ∃ first more,
    originalText t = first :: more
    ∧ isTransactionLine first = true ∧ first ∈ inputs
    ∧ Forall (λ x, x ∈ inputs ∧ x ≠ "") more.

Definition count (o : PaypalOutput) : nat :=
  length (Plain.incomes o) + length (Plain.expenses o).

(** What a call of the action does to the output. *)
Inductive changed `{Augments} (s : State) (l : string) (o : PaypalOutput) : PaypalOutput → Prop :=
| changed_nothing : changed s l o o
| changed_header a b c d1 d2 :
    s = HeaderData → Plain.startDate o = None →
    match_ l headerDataLineRegExp = Some [a; b; c] →
    dateFromNamedCommaFormat a = Ok d1 → dateFromNamedCommaFormat b = Ok d2 →
    changed s l o (withHeader o d1 d2 c)
| changed_expense t :
    s = Activity → isTransactionLine l = true → originalText t = [l] →
    notNegative t →
    changed s l o (withExpenses o (Plain.expenses o ++ [t]))
| changed_income t :
    s = Activity → isTransactionLine l = true → originalText t = [l] →
    notNegative t →
    changed s l o (withIncomes o (Plain.incomes o ++ [t]))
| changed_last_expense before last :
    s = ExpenseInside → l ≠ "" → Plain.expenses o = before ++ [last] →
    changed s l o (withExpenses o (before ++ [extend l last]))
| changed_last_income before last :
    s = IncomeInside → l ≠ "" → Plain.incomes o = before ++ [last] →
    changed s l o (withIncomes o (before ++ [extend l last])).


(** Where the header of an output comes from, in the lines [pre] read so
    far: with no [startDate] the suffix and the end date are not set either;
    otherwise a line that holds the statement-period trigger is directly
    followed by a header-data line whose groups gave the two dates and the
    suffix. *)
Definition headerFrom `{Augments} (pre : list string) (o : PaypalOutput) : Prop :=
  match Plain.startDate o with
  | None => Plain.accountSuffix o = "" ∧ Plain.endDate o = None
  | Some d1 =>
      ∃ before l0 l1 after a b d2,
        pre = before ++ l0 :: l1 :: after
        ∧ includes Statement (Text.toLowerCase l0) = true
        ∧ match_ l1 headerDataLineRegExp = Some [a; b; Plain.accountSuffix o]
        ∧ dateFromNamedCommaFormat a = Ok d1
        ∧ dateFromNamedCommaFormat b = Ok d2
        ∧ Plain.endDate o = Some d2
  end.


(** The lines [pre] hold the column header of the activity table, and an
    empty line somewhere after it. *)
Definition tableOpened (pre : list string) : Prop :=
  ∃ before l0 between after,
    pre = before ++ l0 :: between ++ "" :: after
    ∧ isNone (match_ l0 activityHeader) = false.

(** The state is inside the activity table. *)
Definition inTable (s : State) : Prop :=
  s = Activity ∨ s = ExpenseInside ∨ s = IncomeInside.


(** [o] with another [yearPrefix]. *)
Definition withYearPrefix (o : PaypalOutput) (yp : value) : PaypalOutput :=
  {| Plain.incomes := Plain.incomes o;
     Plain.expenses := Plain.expenses o;
     Plain.filePath := Plain.filePath o;
     Plain.yearPrefix := yp;
     Plain.accountSuffix := Plain.accountSuffix o;
     Plain.endDate := Plain.endDate o;
     Plain.startDate := Plain.startDate o |}.

End PaypalNotions.

Module HeapNotions.
Import Heap.





End HeapNotions.

(* ===================================================================== *)
(** ** Sample format definitions and inputs                                *)
(* ===================================================================== *)

Module Samples.
Import Machine.

Abbreviation Out := (Plain.ParsedOutput unit).

Definition setFilePath (path : string) (o : Out) : Out :=
  {| Plain.incomes := Plain.incomes o;
     Plain.expenses := Plain.expenses o;
     Plain.filePath := path;
     Plain.yearPrefix := Plain.yearPrefix o;
     Plain.accountSuffix := Plain.accountSuffix o;
     Plain.endDate := Plain.endDate o;
     Plain.startDate := Plain.startDate o |}.

Definition setAccountSuffix (suffix : string) (o : Out) : Out :=
  {| Plain.incomes := Plain.incomes o;
     Plain.expenses := Plain.expenses o;
     Plain.filePath := Plain.filePath o;
     Plain.yearPrefix := Plain.yearPrefix o;
     Plain.accountSuffix := suffix;
     Plain.endDate := Plain.endDate o;
     Plain.startDate := Plain.startDate o |}.

(** [next: (state, input) => input === 'end'], states [false] and [true]. *)
Definition untilEnd : nextStateFunction unit bool :=
  λ _ input, Plain.pureCall (Ok (if decide (input = "end") then true else false)).

Definition machineOf (act : performStateActionFunction unit bool Out)
  : CreateStateMachineInput unit bool Out Empty_set :=
  {| init := {| action := act;
                next := untilEnd;
                endState := true;
                initialState := false;
                initOutput := None;
                defaultParserOptions := None |};
     filePath := "statement.pdf";
     inputParserOptions := None |}.

(** [action: (state, input, output) => ({...output, filePath: 'other.pdf'})] *)
Definition renaming : CreateStateMachineInput unit bool Out Empty_set :=
  machineOf (λ _ _ o _, Plain.pureCall (Ok (setFilePath "other.pdf" o))).

(** [action: (state, input, output) => output] *)
Definition idle : CreateStateMachineInput unit bool Out Empty_set :=
  machineOf (λ _ _ o _, Plain.pureCall (Ok o)).

(** [action: (state, input, output) => ({...output, accountSuffix: input})] *)
Definition suffixing : CreateStateMachineInput unit bool Out Empty_set :=
  machineOf (λ _ input o _, Plain.pureCall (Ok (setAccountSuffix input o))).

(** [action: () => { throw new Error('boom') }] *)
Definition failing : CreateStateMachineInput unit bool Out Empty_set :=
  machineOf (λ _ _ _ _, Plain.pureCall (Thrown (mkError "boom"))).

(** [action: () => { throw 'boom' }]. The [TypeError] of line 125 on the
    string is given with the wording of V8. *)
Definition throwingText : CreateStateMachineInput unit bool Out Empty_set :=
  machineOf (λ _ _ _ _ _,
    Thrown (Unwritable (Primitive (VString "boom"))
              (mkError "Cannot create property 'message' on string 'boom'"))).

(** [action: () => { throw null }]. Reading [message] of [null] throws; the
    [TypeError] is given with the wording of V8. *)
Definition throwingNull : CreateStateMachineInput unit bool Out Empty_set :=
  machineOf (λ _ _ _ _ _,
    Thrown (Unwritable (Primitive VNull)
              (mkError "Cannot read properties of null (reading 'message')"))).

(** As [idle], with a transition function that throws on the line ['bad']. *)
Definition failingNext : CreateStateMachineInput unit bool Out Empty_set :=
  {| init := {| action := λ _ _ o _, Plain.pureCall (Ok o);
                next := λ s input,
                  if decide (input = "bad")
                  then Plain.pureCall (Thrown (mkError "bad line"))
                  else untilEnd s input;
                endState := true;
                initialState := false;
                initOutput := None;
                defaultParserOptions := None |};
     filePath := "statement.pdf";
     inputParserOptions := None |}.

(** The base defaults of [parser-options.ts], as the spec describes them: a
    numeric [yearPrefix]. *)
Definition baseOptions : options := {[ "yearPrefix" := VNumber (Fin 20 0) ]}.

(** A format definition registered with no [defaultParserOptions], whose
    pages come from a stub instead of a PDF file. *)
Definition registration
  : Orchestrator.CreateStatementParserInput unit bool Out Empty_set string :=
  {| Orchestrator.pdfProcessing := Some (Some (λ _ w, Ok ([["1234"]; ["end"; "z"]], w)));
     Orchestrator.outputValidation := None;
     Orchestrator.parserKeywords := [];
     Orchestrator.initInput := init suffixing |}.

(** [readPdf] for a world without files. *)
Definition noPdf : Orchestrator.PdfProcessing unit :=
  λ path _, Thrown (mkError ("no such file: " +:+ path)).

(** Stand-ins for the absent helpers of [augments/], enough to run the
    PayPal format on sample lines. *)
Fixpoint removeCommas (s : string) : string :=
  match s with
  | EmptyString => EmptyString
  | String c s' => if decide (c = ","%char) then removeCommas s' else String c (removeCommas s')
  end.

(** Runs of white space become one space. *)
Fixpoint squeeze (afterSpace : bool) (s : string) : string :=
  match s with
  | EmptyString => EmptyString
  | String c s' =>
      if Text.isSpace c
      then (if afterSpace then squeeze true s' else String " "%char (squeeze true s'))
      else String c (squeeze false s')
  end.

Definition monthNumber (name : string) : option Z :=
  list_to_map (M := gmap string Z)
    [("jan", 1); ("feb", 2); ("mar", 3); ("apr", 4); ("may", 5); ("jun", 6);
     ("jul", 7); ("aug", 8); ("sep", 9); ("oct", 10); ("nov", 11); ("dec", 12)]%Z
  !! Text.toLowerCase name.

(** ["1/5/2021"] *)
Definition slashDate (s : string) : result Plain.Date :=
  match RegExp.match_ s
          {| RegExp.atoms := [RegExp.Bol; RegExp.Open; RegExp.plus RegExp.Digit; RegExp.Close]
                             ++ RegExp.lit "/"
                             ++ [RegExp.Open; RegExp.plus RegExp.Digit; RegExp.Close]
                             ++ RegExp.lit "/"
                             ++ [RegExp.Open; RegExp.plus RegExp.Digit; RegExp.Close;
                                 RegExp.Eol];
             RegExp.ignoreCase := false |} with
  | Some [mo; d; y] =>
      Ok (Plain.mkDate (Numeric.readDigits 10 0 0 y).1.1
                       (Numeric.readDigits 10 0 0 mo).1.1
                       (Numeric.readDigits 10 0 0 d).1.1)
  | _ => Thrown (mkError ("Invalid date: " +:+ s))
  end.

(** ["Jan 1, 2021"] *)
Definition namedCommaDate (s : string) : result Plain.Date :=
  match RegExp.match_ s
          {| RegExp.atoms := [RegExp.Bol; RegExp.Open; RegExp.plus RegExp.Word; RegExp.Close]
                             ++ RegExp.lit " "
                             ++ [RegExp.Open; RegExp.plus RegExp.Digit; RegExp.Close;
                                 RegExp.opt (RegExp.Lit ","%char)]
                             ++ RegExp.lit " "
                             ++ [RegExp.Open; RegExp.plus RegExp.Digit; RegExp.Close;
                                 RegExp.Eol];
             RegExp.ignoreCase := false |} with
  | Some [mo; d; y] =>
      match monthNumber mo with
      | Some n =>
          Ok (Plain.mkDate (Numeric.readDigits 10 0 0 y).1.1 n
                           (Numeric.readDigits 10 0 0 d).1.1)
      | None => Thrown (mkError ("Invalid month: " +:+ mo))
      end
  | _ => Thrown (mkError ("Invalid date: " +:+ s))
  end.

Definition augments : Paypal.Augments :=
  {| Paypal.dateFromNamedCommaFormat := namedCommaDate;
     Paypal.dateFromSlashFormat := slashDate;
     Paypal.collapseSpaces := λ s, squeeze false (Numeric.trim s);
     Paypal.sanitizeNumberString := removeCommas |}.

(** The lines of the scenario of the specification. *)
Definition coffeeLine : string := "1/5/2021 Coffee Shop USD -4.50 0.00 -4.50".

Definition statementLines : list string :=
  ["header";
   "statement period";
   "Jan 1, 2021 - Jan 31, 2021 1234";
   "date description currency amount fees total";
   "";
   coffeeLine;
   "";
   "you must notify us no later than ..."].

(** The result that the specification gives for [statementLines]. *)
Definition scenarioOutput (path : string) (yp : value) : Paypal.PaypalOutput :=
  {| Plain.incomes := [];
     Plain.expenses :=
       [{| Paypal.date := Plain.mkDate 2021 1 5;
           Paypal.description := "Coffee Shop";
           Paypal.amount := Fin 45 1;
           Paypal.fees := Fin 0 0;
           Paypal.baseAmount := Fin 45 1;
           Paypal.originalText := [coffeeLine] |}];
     Plain.filePath := path;
     Plain.yearPrefix := yp;
     Plain.accountSuffix := "1234";
     Plain.endDate := Some (Plain.mkDate 2021 1 31);
     Plain.startDate := Some (Plain.mkDate 2021 1 1) |}.

(** A sale whose fee exceeds the gross amount: the amount column is
    positive, the total column negative. *)
Definition feeLine : string := "1/7/2021 Tiny Sale USD 0.10 -0.33 -0.23".

Definition feeLines : list string :=
  ["date description currency amount fees total"; ""; feeLine; "invoice 42"].

(** A heap with an output object shared by every call (at 1), and an
    [initOutput] fragment (at 3) that holds an array. *)
Definition sampleHeap : Heap.heap :=
  {[ 1%positive := Heap.OObject {[ "accountSuffix" := VString "1234";
                                   "incomes" := VRef 2%positive ]};
     2%positive := Heap.OArray [];
     3%positive := Heap.OObject {[ "accountSuffix" := VString "99";
                                   "tags" := VRef 4%positive ]};
     4%positive := Heap.OArray [VString "a"; VUndefined] ]}.

Definition heapMachine (act : performStateActionFunction Heap.heap bool value)
  : CreateStateMachineInput Heap.heap bool value value :=
  {| init := {| action := act;
                next := λ _ input h, Ok (bool_decide (input = "end"), h);
                endState := true;
                initialState := false;
                initOutput := Some (VRef 3%positive);
                defaultParserOptions := None |};
     filePath := "statement.pdf";
     inputParserOptions := None |}.

(** [const SHARED = {...}; action: () => SHARED] *)
Definition sharing : CreateStateMachineInput Heap.heap bool value value :=
  heapMachine (λ _ _ _ _ h, Ok (VRef 1%positive, h)).

(** [action: (state, input, output) => ({...output, accountSuffix: input})] *)
Definition replacing : CreateStateMachineInput Heap.heap bool value value :=
  heapMachine (λ _ input o _ h,
    let '(l, h') :=
      Heap.alloc (Heap.OObject (<["accountSuffix" := VString input]> (Heap.spreadProps h o))) h in
    Ok (VRef l, h')).

(** [action: (state, input, output) => { output.accountSuffix = input;
    return output; }], for an output that is a plain object; the assignment
    throws on anything else. *)
Definition mutating : CreateStateMachineInput Heap.heap bool value value :=
  heapMachine (λ _ input o _ h,
    match o with
    | VRef l =>
        match h !! l with
        | Some (Heap.OObject props) =>
            Ok (o, <[l := Heap.OObject (<["accountSuffix" := VString input]> props)]> h)
        | _ => Thrown (ErrorObject
            (mkError "Cannot set properties of undefined (setting 'accountSuffix')"))
        end
    | _ => Thrown (ErrorObject
            (mkError "Cannot set properties of undefined (setting 'accountSuffix')"))
    end).

(** A stand-in for the text of a value in a template literal. *)
Definition plainText : Heap.heap → value → string :=
  λ _ v, match v with VString s => s | _ => "?" end.


(** The notice in capital letters. *)
Definition noticeLine : string := "YOU MUST NOTIFY US NO LATER THAN 60 DAYS".

(** A transaction line in small letters. *)
Definition smallLine : string := "1/5/2021 coffee shop usd -4.50 0.00 -4.50".

(** A transaction line whose amount column is a lone minus sign. *)
Definition oddLine : string := "1/9/2021 Refund USD - 0.00 5.00".

(** A registration that gives [pdfProcessing: undefined]. *)
Definition unreadable
  : Orchestrator.CreateStatementParserInput unit bool Out Empty_set string :=
  {| Orchestrator.pdfProcessing := Some None;
     Orchestrator.outputValidation := None;
     Orchestrator.parserKeywords := [];
     Orchestrator.initInput := init suffixing |}.

(** A registration with a validator that has nothing to object. *)
Definition validated
  : Orchestrator.CreateStatementParserInput unit bool Out Empty_set string :=
  {| Orchestrator.pdfProcessing := Some (Some (λ _ w, Ok ([["1234"]; ["end"; "z"]], w)));
     Orchestrator.outputValidation := Some (λ _ w, Ok (tt, w));
     Orchestrator.parserKeywords := [];
     Orchestrator.initInput := init suffixing |}.



(** Parsers, a sanitizer and a file reader for sanitized tests: the text
    parser rejects an empty text with an error that has no message. *)
Definition sampleParsers : unit → Sanitizer.Parser unit unit unit :=
  λ _, {| Sanitizer.parsePdf := λ input w,
            Ok (Plain.startingOutput (Sanitizer.filePath input) VUndefined, w);
          Sanitizer.parseText := λ input w,
            (match Sanitizer.textLines input with
             | [] => Thrown (mkError "")
             | _ => Ok (Plain.startingOutput "" VUndefined)
             end, w) |}.

Definition sampleSanitizer : string → unit → bool → unit → result (list string * unit) :=
  λ path _ _ w, Ok (if decide (path = "empty.pdf") then [] else ["xxx"], w).

Definition samplePdf (path : string) : Sanitizer.StatementPdf unit unit :=
  {| Sanitizer.parserInput :=
       {| Sanitizer.filePath := path;
          Sanitizer.name := "sample";
          Sanitizer.debug := false;
          Sanitizer.parserOptions := Some tt |};
     Sanitizer.type := tt |}.

(** A statement with an expense that has a second description line, and
    an income after it. *)
Definition refundLine : string := "1/6/2021 Refund USD 2.00 0.00 2.00".

Definition longerLines : list string :=
  take 6 statementLines
  ++ ["downtown branch"; ""; refundLine; ""; "you must notify us no later than ..."].

Definition coffee : Paypal.PaypalTransaction :=
  {| Paypal.date := Plain.mkDate 2021 1 5;
     Paypal.description := "Coffee Shop";
     Paypal.amount := Fin 45 1;
     Paypal.fees := Fin 0 0;
     Paypal.baseAmount := Fin 45 1;
     Paypal.originalText := [coffeeLine] |}.

Definition coffeeDowntown : Paypal.PaypalTransaction :=
  {| Paypal.date := Plain.mkDate 2021 1 5;
     Paypal.description := "Coffee Shop" +:+ String "010"%char "downtown branch";
     Paypal.amount := Fin 45 1;
     Paypal.fees := Fin 0 0;
     Paypal.baseAmount := Fin 45 1;
     Paypal.originalText := [coffeeLine; "downtown branch"] |}.

Definition refund : Paypal.PaypalTransaction :=
  {| Paypal.date := Plain.mkDate 2021 1 6;
     Paypal.description := "Refund";
     Paypal.amount := Fin 2 0;
     Paypal.fees := Fin 0 0;
     Paypal.baseAmount := Fin 2 0;
     Paypal.originalText := [refundLine] |}.

(** A transaction line whose amount column is below zero and too small for
    binary64, with a total of [-1.00]. *)
Fixpoint zeros (n : nat) : string :=
  match n with
  | O => EmptyString
  | S n' => String "0"%char (zeros n')
  end.

Definition tinyLine : string := "1/8/2021 Dust USD -0." +:+ zeros 324 +:+ "1 0.00 -1.00".

(** The test file recorded for [empty.pdf]. *)
Definition emptyRecord : Sanitizer.SanitizedTestFile unit unit unit :=
  {| Sanitizer.text := [];
     Sanitizer.parserType := tt;
     Sanitizer.testName := "sample";
     Sanitizer.testOptions := None;
     Sanitizer.output := None;
     Sanitizer.errorMessage :=
       Some "Sanitized parser output is undefined but no error was encountered" |}.

End Samples.

(* ===================================================================== *)
(** * Properties                                                           *)
(* ===================================================================== *)

(** ** Strings *)

Lemma startsWith_app (p b : string) : startsWith p (p +:+ b) = true.
Proof.
  induction p as [|a p IH]; simpl; [done|].
  by rewrite decide_True.
Qed.

Lemma includes_startsWith (p s : string) :
  startsWith p s = true → includes p s = true.
Proof. intros H. destruct s; simpl; by rewrite H. Qed.

Lemma includes_app (p a b : string) : includes p (a +:+ p +:+ b) = true.
Proof.
  induction a as [|c a IH].
  - change (includes p (p +:+ b) = true).
    apply includes_startsWith, startsWith_app.
  - change (includes p (String c (a +:+ p +:+ b)) = true).
    simpl. rewrite IH. apply orb_true_r.
Qed.

Lemma includes_suffix (p a : string) : includes p (a +:+ p) = true.
Proof.
  assert (E : p +:+ "" = p).
  { induction p as [|c p IH]; [done|].
    change (String c (p +:+ "") = String c p). by rewrite IH. }
  rewrite <- E at 2. apply (includes_app p a "").
Qed.

Lemma startsWith_split (p s : string) :
  startsWith p s = true → ∃ b, s = p +:+ b.
Proof.
  revert s. induction p as [|a p IH]; intros s H; simpl in *.
  - by exists s.
  - destruct s as [|c s]; [done|]. case_decide; [|done]. subst.
    destruct (IH _ H) as [b ->]. by exists b.
Qed.

Lemma includes_split (p s : string) :
  includes p s = true → ∃ a b, s = a +:+ p +:+ b.
Proof.
  induction s as [|c s IH]; simpl; intros H.
  - rewrite orb_false_r in H. destruct (startsWith_split _ _ H) as [b ->].
    by exists "", b.
  - apply orb_true_iff in H as [H|H].
    + destruct (startsWith_split _ _ H) as [b ->]. by exists "", b.
    + destruct (IH H) as (a & b & ->). by exists (String c a), b.
Qed.

(** ** Patterns and numbers on sample text *)

Example pageEnd_ignores_case : RegExp.match_ "Page 12" Paypal.pageEndRegExp = Some [].
Proof. reflexivity. Qed.

Example pageEnd_is_anchored : RegExp.match_ "page 1 of 2" Paypal.pageEndRegExp = None.
Proof. reflexivity. Qed.

Example headerData_leftmost :
  RegExp.match_ "xx Jan 1 2021-Feb 2, 21 acct 9" Paypal.headerDataLineRegExp
  = Some ["Jan 1 2021"; "Feb 2, 21"; "acct 9"].
Proof. vm_compute. reflexivity. Qed.

Example description_is_lazy :
  RegExp.match_ "12/31/20  A   USD  b USD 1,000.00 -1.5 998.50"
    Paypal.transactionStartRegExp
  = Some ["12/31/20"; "A   USD  b "; "1,000.00"; "-1.5"; "998.50"].
Proof. vm_compute. reflexivity. Qed.

Example other_currency_is_no_transaction :
  RegExp.match_ "1/5/2021 Coffee Shop EUR -4.50 0.00 -4.50" Paypal.transactionStartRegExp
  = None.
Proof. vm_compute. reflexivity. Qed.

Example Number_samples :
  map Numeric.Number ["-4.50"; "0.00"; ""; " 12 "; "1.5e-2"; "0x1F"; "-"; "1.2.3"; "-Infinity"]
  = [Fin (-45) 1; Fin 0 0; Fin 0 0; Fin 12 0; Fin 15 3; Fin 31 0; NaN; NaN; Inf true].
Proof. vm_compute. reflexivity. Qed.

(** Text beyond the binary64 range: a size below half of the least positive
    number gives zero, which is not below zero; a size past the greatest
    finite number gives an infinity. *)
Example Number_at_the_ends :
  map Numeric.Number ["-1e-400"; "-2e-324"; "-3e-324"; "1e400"; "-1e309"]
  = [Fin 0 0; Fin 0 0; Fin (-3) 324; Inf false; Inf true]
  ∧ map (λ s, ltZero (Numeric.Number s)) ["-1e-400"; "-2e-324"; "-3e-324"; "-1e309"]
    = [false; false; true; true].
Proof. split; vm_compute; reflexivity. Qed.

(** ** The engine *)

Lemma pureCall_thrown {A} (r : result A) (w : unit) (t : thrown) :
  Plain.pureCall r w = Thrown t → ∃ e, t = ErrorObject e ∧ r = Thrown e.
Proof. destruct r as [a|e]; [done|]. intros [= <-]. by exists e. Qed.

Section EngineFacts.
Context {W StateType OutputType InitOutputType : Type}.
Context `{!EqDecision StateType}.
Context `{!Machine.ParsedOutputLike W OutputType InitOutputType}.
Import Machine.

Variable m : CreateStateMachineInput W StateType OutputType InitOutputType.
Variable po : options.

Lemma runLoop_at_end (o : OutputType) (w : W) (inputs : list string) :
  runLoop m po (endState (init m)) o w inputs = ([], finish o w).
Proof. destruct inputs; simpl; by rewrite decide_True. Qed.

Lemma runLoop_consume (pre rest : list string) :
  ∀ s o w s' o' w',
    consume m po s o w pre = Some (s', o', w') →
    runLoop m po s o w (pre ++ rest)
    = (consumeCalls m po s o w pre ++ fst (runLoop m po s' o' w' rest),
       snd (runLoop m po s' o' w' rest)).
Proof.
  induction pre as [|l pre IH]; intros s o w s' o' w' Hc; simpl in *.
  - inversion Hc; subst. by destruct (runLoop _ _ _ _ _ _).
  - case_decide; [done|].
    destruct (action _ _ _ _ _ _) as [[o1 w1]|]; [|done].
    destruct (next _ _ _ _) as [[s1 w2]|]; [|done].
    rewrite (IH _ _ _ _ _ _ Hc). done.
Qed.

Lemma consumedLines_consumeCalls (pre : list string) :
  ∀ s o w c, consume m po s o w pre = Some c →
    consumedLines (consumeCalls m po s o w pre) = pre.
Proof.
  induction pre as [|l pre IH]; intros s o w c Hc; simpl in *; [done|].
  case_decide; [done|].
  destruct (action _ _ _ _ _ _) as [[o1 w1]|]; [|done].
  destruct (next _ _ _ _) as [[s1 w2]|]; [|done].
  unfold consumedLines in *. simpl. f_equal. eauto.
Qed.

Lemma transitionLines_consumeCalls (pre : list string) :
  ∀ s o w c, consume m po s o w pre = Some c →
    transitionLines (consumeCalls m po s o w pre) = pre.
Proof.
  induction pre as [|l pre IH]; intros s o w c Hc; simpl in *; [done|].
  case_decide; [done|].
  destruct (action _ _ _ _ _ _) as [[o1 w1]|]; [|done].
  destruct (next _ _ _ _) as [[s1 w2]|]; [|done].
  unfold transitionLines in *. simpl. f_equal. eauto.
Qed.

End EngineFacts.

Section EngineRuns.
Context {W StateType OutputType InitOutputType : Type}.
Context `{!EqDecision StateType}.
Context `{!Machine.ParsedOutputLike W OutputType InitOutputType}.
Import Machine.

Variable base : options.
Variable m : CreateStateMachineInput W StateType OutputType InitOutputType.

Lemma run_after (w : W) (pre rest : list string) s o w' :
  runTo base m w pre = Some (s, o, w') →
  runStateMachine base m (pre ++ rest) w
  = (callsTo base m w pre ++ fst (runLoop m (optionsOf base m) s o w' rest),
     snd (runLoop m (optionsOf base m) s o w' rest)).
Proof.
  unfold runTo, runStateMachine, callsTo.
  destruct (firstOutput base m w) as [[o0 w0]|]; [|done].
  apply runLoop_consume.
Qed.

Lemma consume_keeps_filePath (po : options) (lines : list string) :
  keepsFilePath m →
  ∀ s o w s' o' w',
    consume m po s o w lines = Some (s', o', w') →
    filePathText o' w' = filePathText o w.
Proof.
  intros [Ha Hn]. induction lines as [|l lines IH]; intros s o w s' o' w' Hc; simpl in *.
  - by inversion Hc.
  - case_decide; [done|].
    destruct (action _ _ _ _ _ _) as [[o1 w1]|] eqn:Ea; [|done].
    destruct (next _ _ _ _) as [[s1 w2]|] eqn:En; [|done].
    rewrite (IH _ _ _ _ _ _ Hc), (Hn _ _ _ _ _ o1 En). eauto.
Qed.

Lemma runTo_filePath (w : W) (lines : list string) s o w' :
  keepsFilePath m → startsWithFilePath base m w →
  runTo base m w lines = Some (s, o, w') →
  filePathText o w' = filePath m.
Proof.
  intros Hk Hs. unfold runTo.
  destruct (firstOutput base m w) as [[o0 w0]|] eqn:E; [|done].
  intros Hc. rewrite (consume_keeps_filePath _ _ Hk _ _ _ _ _ _ Hc). by apply Hs.
Qed.

Lemma runLoop_paired (po : options) (inputs : list string) :
  ∀ s o w, paired m po s o w (fst (runLoop m po s o w inputs)).
Proof.
  induction inputs as [|l inputs IH]; intros s o w; simpl.
  - case_decide; constructor.
  - case_decide; [constructor|].
    destruct (action _ _ _ _ _ _) as [[o1 w1]|] eqn:Ea.
    + destruct (next _ _ _ _) as [[s1 w2]|] eqn:En.
      * specialize (IH s1 o1 w2). destruct (runLoop _ _ _ _ _ _). simpl in *.
        by econstructor.
      * simpl. by eapply paired_last.
    + simpl. by eapply paired_throw.
Qed.

Lemma consumedLines_app (a b : list (Event StateType OutputType)) :
  consumedLines (a ++ b) = consumedLines a ++ consumedLines b.
Proof. unfold consumedLines. apply omap_app. Qed.

Lemma transitionLines_app (a b : list (Event StateType OutputType)) :
  transitionLines (a ++ b) = transitionLines a ++ transitionLines b.
Proof. unfold transitionLines. apply omap_app. Qed.

Lemma callsTo_lines (w : W) (pre : list string) s o w' :
  runTo base m w pre = Some (s, o, w') →
  consumedLines (callsTo base m w pre) = pre
  ∧ transitionLines (callsTo base m w pre) = pre.
Proof.
  unfold runTo, callsTo.
  destruct (firstOutput base m w) as [[o0 w0]|]; [|done].
  intros Hc. split.
  - eapply consumedLines_consumeCalls, Hc.
  - eapply transitionLines_consumeCalls, Hc.
Qed.

Lemma runLoop_consumed_prefix (po : options) (inputs : list string) :
  ∀ s o w, ∃ n, consumedLines (fst (runLoop m po s o w inputs)) = take n inputs.
Proof.
  induction inputs as [|l inputs IH]; intros s o w; simpl.
  - exists 0. by case_decide.
  - case_decide; [by exists 0|].
    destruct (action _ _ _ _ _ _) as [[o1 w1]|] eqn:Ea.
    + destruct (next _ _ _ _) as [[s1 w2]|] eqn:En.
      * destruct (IH s1 o1 w2) as [n Hn]. destruct (runLoop _ _ _ _ _ _). simpl in *.
        exists (S n). unfold consumedLines in *. simpl. by rewrite Hn.
      * by exists 1.
    + by exists 1.
Qed.

Lemma runLoop_transition_prefix (po : options) (inputs : list string) :
  ∀ s o w, ∃ n, transitionLines (fst (runLoop m po s o w inputs)) = take n inputs.
Proof.
  induction inputs as [|l inputs IH]; intros s o w; simpl.
  - exists 0. by case_decide.
  - case_decide; [by exists 0|].
    destruct (action _ _ _ _ _ _) as [[o1 w1]|] eqn:Ea.
    + destruct (next _ _ _ _) as [[s1 w2]|] eqn:En.
      * destruct (IH s1 o1 w2) as [n Hn]. destruct (runLoop _ _ _ _ _ _). simpl in *.
        exists (S n). unfold transitionLines in *. simpl. by rewrite Hn.
      * by exists 1.
    + by exists 0.
Qed.

End EngineRuns.

Section EngineInvariants.
Context {W StateType OutputType InitOutputType : Type}.
Context `{!EqDecision StateType}.
Context `{!Machine.ParsedOutputLike W OutputType InitOutputType}.
Import Machine.

Variable m : CreateStateMachineInput W StateType OutputType InitOutputType.
Variable po : options.

(** What the caller's functions keep, a returned output has. *)
Lemma runLoop_ok_invariant (Inv : OutputType → W → Prop) :
  (∀ s l o w o' w', Inv o w → action (init m) s l o po w = Ok (o', w') → Inv o' w') →
  (∀ s l w s' w' o, Inv o w → next (init m) s l w = Ok (s', w') → Inv o w') →
  ∀ inputs s o w o' w',
    Inv o w → snd (runLoop m po s o w inputs) = Ok (o', w') → Inv o' w'.
Proof.
  intros Hact Hnext. induction inputs as [|l inputs IH]; intros s o w o' w' Hi; simpl.
  - case_decide; [|done]. simpl. unfold finish.
    destruct (falsy _); [done|]. by intros [= <- <-].
  - case_decide.
    + simpl. unfold finish. destruct (falsy _); [done|]. by intros [= <- <-].
    + destruct (action _ _ _ _ _ _) as [[o1 w1]|] eqn:Ea; [|done].
      destruct (next _ _ _ _) as [[s1 w2]|] eqn:En; [|done].
      specialize (IH s1 o1 w2 o' w'). destruct (runLoop _ _ _ _ _ _). simpl in *.
      apply IH. eapply Hnext; [|done]. by eapply Hact.
Qed.

(** Two runs over the same lines whose outputs stay related at every call
    return related outputs. *)
Lemma runLoop_ok_simulation (R : OutputType → W → OutputType → W → Prop) :
  (∀ s l o1 w1 o2 w2, R o1 w1 o2 w2 →
     match action (init m) s l o1 po w1, action (init m) s l o2 po w2 with
     | Ok (a, u), Ok (b, v) => R a u b v
     | Thrown _, Thrown _ => True
     | _, _ => False
     end) →
  (∀ s l o1 w1 o2 w2, R o1 w1 o2 w2 →
     match next (init m) s l w1, next (init m) s l w2 with
     | Ok (s1, u), Ok (s2, v) => s1 = s2 ∧ R o1 u o2 v
     | Thrown _, Thrown _ => True
     | _, _ => False
     end) →
  ∀ inputs s o1 w1 o2 w2 a u b v,
    R o1 w1 o2 w2 →
    snd (runLoop m po s o1 w1 inputs) = Ok (a, u) →
    snd (runLoop m po s o2 w2 inputs) = Ok (b, v) →
    R a u b v.
Proof.
  intros Hact Hnext.
  induction inputs as [|l inputs IH]; intros s o1 w1 o2 w2 a u b v Hr; simpl.
  - case_decide; [|done]. simpl. unfold finish.
    do 2 (destruct (falsy _); [done|]). by intros [= <- <-] [= <- <-].
  - case_decide.
    + simpl. unfold finish.
      do 2 (destruct (falsy _); [done|]). by intros [= <- <-] [= <- <-].
    + specialize (Hact s l _ _ _ _ Hr).
      destruct (action (init m) s l o1 po w1) as [[a1 u1]|];
        destruct (action (init m) s l o2 po w2) as [[b1 v1]|]; try done.
      specialize (Hnext s l _ _ _ _ Hact).
      destruct (next (init m) s l u1) as [[s1 u2]|];
        destruct (next (init m) s l v1) as [[s2 v2]|]; try done.
      destruct Hnext as [<- Hr2].
      specialize (IH s1 a1 u2 b1 v2 a u b v Hr2).
      destruct (runLoop m po s1 a1 u2 inputs), (runLoop m po s1 b1 v2 inputs). exact IH.
Qed.

End EngineInvariants.


(** ** Claims on the engine *)

Section EngineClaims.
Context {W StateType OutputType InitOutputType : Type}.
Context `{!EqDecision StateType}.
Context `{!Machine.ParsedOutputLike W OutputType InitOutputType}.
Import Machine.

Variable base : options.
Variable m : CreateStateMachineInput W StateType OutputType InitOutputType.

(** C1 (as amended). When the line sequence is exhausted while the state is
    not the end state, the parse throws and returns no output; the message
    of the error ends with the [filePath] field of the output at that moment.
    It contains the file path given to the engine whenever the starting
    output carries that path and the action and transition functions leave
    the field alone. *)
Theorem end_of_input_is_fatal (inputs : list string) (w : W) s o w' :
  runTo base m w inputs = Some (s, o, w') →
  s ≠ endState (init m) →
  createParserStateMachine base m inputs w
    = Thrown (mkError ("Reached end of input before hitting end state on "
                       +:+ filePathText o w'))
  ∧ (keepsFilePath m → startsWithFilePath base m w →
     ∀ e, createParserStateMachine base m inputs w = Thrown e →
          includes (filePath m) (message e) = true).
Proof.
  intros Hrun Hs.
  assert (E : createParserStateMachine base m inputs w = Thrown (endOfInputError o w')).
  { unfold createParserStateMachine.
    rewrite <- (app_nil_r inputs), (run_after _ _ _ _ _ _ _ _ Hrun). simpl.
    by rewrite decide_False. }
  split; [exact E|].
  intros Hk Hst e He. rewrite E in He. injection He as <-.
  unfold endOfInputError. cbn [message].
  rewrite (runTo_filePath _ _ _ _ _ _ _ Hk Hst Hrun).
  apply includes_suffix.
Qed.

(** C2 (as amended). When the end state is reached with [accountSuffix]
    still empty, the parse throws; the message ends with the [filePath] field
    of the output at that moment, which is the path given to the engine
    whenever the starting output carries it and the caller's functions leave
    it alone. An output is returned only with a non-empty (truthy)
    [accountSuffix]. *)
Theorem incomplete_output_is_fatal (w : W) :
  (∀ pre rest o w',
      runTo base m w pre = Some (endState (init m), o, w') →
      accountSuffixOf o w' = VString "" →
      createParserStateMachine base m (pre ++ rest) w
        = Thrown (mkError ("Parse completed without filling in account suffix on "
                           +:+ filePathText o w'))
      ∧ (keepsFilePath m → startsWithFilePath base m w →
         ∀ e, createParserStateMachine base m (pre ++ rest) w = Thrown e →
              includes (filePath m) (message e) = true))
  ∧ (∀ inputs o w',
      createParserStateMachine base m inputs w = Ok (o, w') →
      falsy (accountSuffixOf o w') = false ∧ accountSuffixOf o w' ≠ VString "").
Proof.
  split.
  - intros pre rest o w' Hrun Hempty.
    assert (E : createParserStateMachine base m (pre ++ rest) w
                = Thrown (incompleteError o w')).
    { unfold createParserStateMachine.
      rewrite (run_after _ _ _ _ _ _ _ _ Hrun), runLoop_at_end. simpl.
      unfold finish. by rewrite Hempty. }
    split; [exact E|].
    intros Hk Hst e He. rewrite E in He. injection He as <-.
    unfold incompleteError. cbn [message].
    rewrite (runTo_filePath _ _ _ _ _ _ _ Hk Hst Hrun).
    apply includes_suffix.
  - intros inputs o w'. unfold createParserStateMachine, runStateMachine.
    destruct (firstOutput base m w) as [[o0 w0]|]; [|done].
    generalize (initialState (init m)). revert o0 w0.
    induction inputs as [|l inputs IH]; intros o0 w0 s; simpl.
    + case_decide; [|done]. simpl. unfold finish.
      destruct (falsy (accountSuffixOf o0 w0)) eqn:F; [done|].
      intros [= <- <-]. split; [done|]. intros E. by rewrite E in F.
    + case_decide.
      * simpl. unfold finish.
        destruct (falsy (accountSuffixOf o0 w0)) eqn:F; [done|].
        intros [= <- <-]. split; [done|]. intros E. by rewrite E in F.
      * destruct (action _ _ _ _ _ _) as [[o1 w1]|]; [|done].
        destruct (next _ _ _ _) as [[s1 w2]|]; [|done].
        specialize (IH o1 w2 s1). destruct (runLoop _ _ _ _ _ _). exact IH.
Qed.

(** C3 (as amended). The calls of a run come in pairs, line after line.
    For a consumed line on which the action returns, the action is called
    once and then the transition function once, on the same state (the state
    before the action) and the same line; the transition function receives
    nothing else. The calls before are those of the earlier lines, the calls
    after those of later lines. For a line on which the action throws, the
    line is consumed and handed to the action once, the transition function
    is not called for it, and the run ends there with an error: the
    transition function has received the earlier lines only. The lines
    consumed are a prefix of the input. *)
Theorem calls_are_paired (inputs : list string) (w : W) :
  (∀ o0 w0, firstOutput base m w = Ok (o0, w0) →
     paired m (optionsOf base m) (initialState (init m)) o0 w0
       (fst (runStateMachine base m inputs w)))
  ∧ (∃ n, consumedLines (fst (runStateMachine base m inputs w)) = take n inputs)
  ∧ (∀ pre l rest s o w1 o' w2,
       inputs = pre ++ l :: rest →
       runTo base m w pre = Some (s, o, w1) →
       s ≠ endState (init m) →
       action (init m) s l o (optionsOf base m) w1 = Ok (o', w2) →
       ∃ later n k,
         fst (runStateMachine base m inputs w)
         = callsTo base m w pre
             ++ CallAction s l o (optionsOf base m) :: CallNext s l :: later
         ∧ consumedLines (callsTo base m w pre) = pre
         ∧ transitionLines (callsTo base m w pre) = pre
         ∧ consumedLines later = take n rest
         ∧ transitionLines later = take k rest)
  ∧ (∀ pre l rest s o w1 e,
       inputs = pre ++ l :: rest →
       runTo base m w pre = Some (s, o, w1) →
       s ≠ endState (init m) →
       action (init m) s l o (optionsOf base m) w1 = Thrown e →
       fst (runStateMachine base m inputs w)
       = callsTo base m w pre ++ [CallAction s l o (optionsOf base m)]
       ∧ consumedLines (fst (runStateMachine base m inputs w)) = pre ++ [l]
       ∧ transitionLines (fst (runStateMachine base m inputs w)) = pre
       ∧ ∃ e', snd (runStateMachine base m inputs w) = Thrown e').
Proof.
  split; [|split; [|split]].
  - intros o0 w0 E. unfold runStateMachine. rewrite E. apply runLoop_paired.
  - unfold runStateMachine.
    destruct (firstOutput base m w) as [[o0 w0]|];
      [apply runLoop_consumed_prefix | by exists 0].
  - intros pre l rest s o w1 o' w2 -> Hrun Hs Ha.
    destruct (callsTo_lines _ _ _ _ _ _ _ Hrun) as [Hc Ht].
    rewrite (run_after _ _ _ _ _ _ _ _ Hrun). cbn [fst runLoop].
    rewrite decide_False by done. rewrite Ha.
    destruct (next (init m) s l w2) as [[s1 w3]|e1].
    + destruct (runLoop_consumed_prefix m (optionsOf base m) rest s1 o' w3) as [n Hn].
      destruct (runLoop_transition_prefix m (optionsOf base m) rest s1 o' w3) as [k Hk].
      destruct (runLoop _ _ _ _ _ rest) as [later r]. exists later, n, k.
      by cbn [fst] in *.
    + exists [], 0, 0. by repeat split.
  - intros pre l rest s o w1 e -> Hrun Hs Ha.
    destruct (callsTo_lines _ _ _ _ _ _ _ Hrun) as [Hc Ht].
    rewrite (run_after _ _ _ _ _ _ _ _ Hrun). cbn [fst snd runLoop].
    rewrite decide_False by done. rewrite Ha. cbn [fst snd].
    split; [done|]. rewrite consumedLines_app, transitionLines_app, Hc, Ht.
    split; [done|]. split; [by rewrite app_nil_r|by eexists].
Qed.

(** C6 (as amended). What the action or the transition function throws ends
    the run: the failing call is the last call and no output is returned.
    When the thrown value is an object whose message can be written, as an
    [Error] is, the run throws it with [" in file: <filePath>"] appended to
    its message. When it is a value that does not take the assignment (a
    primitive such as a string, [null] or [undefined], or an object with a
    read-only message) the run throws the [TypeError] of the assignment
    instead: nothing is appended and the value is not thrown again. *)
Theorem callback_error_gets_file (w : W) (pre rest : list string) (l : string) s o w1 :
  runTo base m w pre = Some (s, o, w1) →
  s ≠ endState (init m) →
  (∀ t, action (init m) s l o (optionsOf base m) w1 = Thrown t →
     runStateMachine base m (pre ++ l :: rest) w
       = (callsTo base m w pre ++ [CallAction s l o (optionsOf base m)],
          Thrown (match t with
                  | ErrorObject e => mkError (message e +:+ " in file: " +:+ filePath m)
                  | Unwritable _ raised => raised
                  end)))
  ∧ (∀ o' w2 t, action (init m) s l o (optionsOf base m) w1 = Ok (o', w2) →
     next (init m) s l w2 = Thrown t →
     runStateMachine base m (pre ++ l :: rest) w
       = (callsTo base m w pre
            ++ [CallAction s l o (optionsOf base m); CallNext s l],
          Thrown (match t with
                  | ErrorObject e => mkError (message e +:+ " in file: " +:+ filePath m)
                  | Unwritable _ raised => raised
                  end))).
Proof.
  intros Hrun Hs. split.
  - intros t Ha. rewrite (run_after _ _ _ _ _ _ _ _ Hrun). simpl.
    rewrite decide_False by done. by rewrite Ha.
  - intros o' w2 t Ha Hn. rewrite (run_after _ _ _ _ _ _ _ _ Hrun). simpl.
    rewrite decide_False by done. by rewrite Ha, Hn.
Qed.

(** C7. Once the state is the end state after a prefix of the lines, the
    loop stops: the run is the run on the prefix alone, and the lines handed
    to the action and to the transition function are those of the prefix. *)
Theorem loop_stops_at_end_state (w : W) (pre rest : list string) o w' :
  runTo base m w pre = Some (endState (init m), o, w') →
  runStateMachine base m (pre ++ rest) w = runStateMachine base m pre w
  ∧ consumedLines (fst (runStateMachine base m (pre ++ rest) w)) = pre
  ∧ transitionLines (fst (runStateMachine base m (pre ++ rest) w)) = pre.
Proof.
  intros Hrun.
  assert (E : runStateMachine base m (pre ++ rest) w
              = (callsTo base m w pre, finish o w')).
  { rewrite (run_after _ _ _ _ _ _ _ _ Hrun), runLoop_at_end. simpl.
    by rewrite app_nil_r. }
  split; [|split].
  - rewrite E. rewrite <- (app_nil_r pre) at 2.
    rewrite (run_after _ _ _ _ _ _ _ _ Hrun), runLoop_at_end. simpl.
    by rewrite app_nil_r.
  - rewrite E. simpl. unfold runTo, callsTo in *.
    destruct (firstOutput base m w) as [[o0 w0]|]; [|done].
    eapply consumedLines_consumeCalls, Hrun.
  - rewrite E. simpl. unfold runTo, callsTo in *.
    destruct (firstOutput base m w) as [[o0 w0]|]; [|done].
    eapply transitionLines_consumeCalls, Hrun.
Qed.

End EngineClaims.

Lemma plain_startsWithFilePath {StateType T} (base : options)
    (m : Machine.CreateStateMachineInput unit StateType (Plain.ParsedOutput T) Empty_set) w :
  Machine.startsWithFilePath base m w.
Proof. intros o0 w0 [= <- <-]. done. Qed.

Lemma idle_keepsFilePath : Machine.keepsFilePath Samples.idle.
Proof.
  split.
  - intros s l o opts w o' w' [= <- <-]. done.
  - intros s l w s' w' o [= <- <-]. done.
Qed.

(** C1, witness: two lines that never reach the end state. *)
Lemma end_of_input_is_fatal_witness :
  Machine.createParserStateMachine ∅ Samples.idle ["a"; "b"] tt
    = Thrown (mkError "Reached end of input before hitting end state on statement.pdf")
  ∧ includes "statement.pdf"
      "Reached end of input before hitting end state on statement.pdf" = true.
Proof.
  pose proof (end_of_input_is_fatal ∅ Samples.idle ["a"; "b"] tt false
                (Plain.startingOutput "statement.pdf" VUndefined) tt) as H.
  destruct H as [H1 H2]; [reflexivity | discriminate |].
  split; [exact H1|].
  exact (H2 idle_keepsFilePath (plain_startsWithFilePath _ _ _) _ H1).
Defined.

(** C1 as stated fails: with an action that replaces [output.filePath], the
    input is exhausted outside the end state and the message names the
    replaced path, not the path given to the engine. *)
Lemma end_of_input_names_other_file :
  Machine.runTo ∅ Samples.renaming tt ["x"]
    = Some (false, Samples.setFilePath "other.pdf"
                     (Plain.startingOutput "statement.pdf" VUndefined), tt)
  ∧ Machine.createParserStateMachine ∅ Samples.renaming ["x"] tt
    = Thrown (mkError "Reached end of input before hitting end state on other.pdf")
  ∧ includes (Machine.filePath Samples.renaming)
      "Reached end of input before hitting end state on other.pdf" = false.
Proof. repeat split; vm_compute; reflexivity. Qed.

(** C2, witness: the end state reached with an empty suffix, one line left
    over; and a run that returns its output. *)
Lemma incomplete_output_is_fatal_witness :
  Machine.createParserStateMachine ∅ Samples.idle (["a"; "end"] ++ ["z"]) tt
    = Thrown (mkError "Parse completed without filling in account suffix on statement.pdf")
  ∧ VString "end" ≠ VString "".
Proof.
  split.
  - refine (proj1 (proj1 (incomplete_output_is_fatal ∅ Samples.idle tt)
                      ["a"; "end"] ["z"]
                      (Plain.startingOutput "statement.pdf" VUndefined) tt _ _));
      reflexivity.
  - refine (proj2 (proj2 (incomplete_output_is_fatal ∅ Samples.suffixing tt)
                      ["end"]
                      (Samples.setAccountSuffix "end"
                         (Plain.startingOutput "statement.pdf" VUndefined)) tt _)).
    reflexivity.
Defined.

(** C2 as stated fails: with an action that replaces [output.filePath], the
    end state is reached with an empty suffix and the message names the
    replaced path, not the path given to the engine. *)
Lemma incomplete_output_names_other_file :
  Machine.runTo ∅ Samples.renaming tt ["end"]
    = Some (true, Samples.setFilePath "other.pdf"
                    (Plain.startingOutput "statement.pdf" VUndefined), tt)
  ∧ Machine.createParserStateMachine ∅ Samples.renaming ["end"] tt
    = Thrown (mkError "Parse completed without filling in account suffix on other.pdf")
  ∧ includes (Machine.filePath Samples.renaming)
      "Parse completed without filling in account suffix on other.pdf" = false.
Proof. repeat split; vm_compute; reflexivity. Qed.

(** C3, witness: a line on which the action returns, between two others,
    and a line on which the action throws. *)
Lemma calls_are_paired_witness :
  (∃ later n k,
     fst (Machine.runStateMachine ∅ Samples.suffixing ["a"; "b"; "end"; "z"] tt)
     = Machine.callsTo ∅ Samples.suffixing tt ["a"]
         ++ Machine.CallAction false "b"
              (Samples.setAccountSuffix "a" (Plain.startingOutput "statement.pdf" VUndefined))
              (Machine.optionsOf ∅ Samples.suffixing)
            :: Machine.CallNext false "b" :: later
     ∧ Machine.consumedLines (Machine.callsTo ∅ Samples.suffixing tt ["a"]) = ["a"]
     ∧ Machine.transitionLines (Machine.callsTo ∅ Samples.suffixing tt ["a"]) = ["a"]
     ∧ Machine.consumedLines later = take n ["end"; "z"]
     ∧ Machine.transitionLines later = take k ["end"; "z"])
  ∧ (fst (Machine.runStateMachine ∅ Samples.failing ["x"; "y"] tt)
     = Machine.callsTo ∅ Samples.failing tt []
         ++ [Machine.CallAction false "x" (Plain.startingOutput "statement.pdf" VUndefined)
               (Machine.optionsOf ∅ Samples.failing)]
     ∧ Machine.consumedLines (fst (Machine.runStateMachine ∅ Samples.failing ["x"; "y"] tt))
       = [] ++ ["x"]
     ∧ Machine.transitionLines (fst (Machine.runStateMachine ∅ Samples.failing ["x"; "y"] tt))
       = []
     ∧ ∃ e', snd (Machine.runStateMachine ∅ Samples.failing ["x"; "y"] tt) = Thrown e').
Proof.
  split.
  - refine (proj1 (proj2 (proj2 (calls_are_paired ∅ Samples.suffixing
                                   ["a"; "b"; "end"; "z"] tt)))
              ["a"] "b" ["end"; "z"] false
              (Samples.setAccountSuffix "a" (Plain.startingOutput "statement.pdf" VUndefined))
              tt
              (Samples.setAccountSuffix "b"
                 (Samples.setAccountSuffix "a"
                    (Plain.startingOutput "statement.pdf" VUndefined)))
              tt _ _ _ _); [reflexivity | reflexivity | discriminate | reflexivity].
  - refine (proj2 (proj2 (proj2 (calls_are_paired ∅ Samples.failing ["x"; "y"] tt)))
              [] "x" ["y"] false (Plain.startingOutput "statement.pdf" VUndefined) tt
              (ErrorObject (mkError "boom")) _ _ _ _);
      [reflexivity | reflexivity | discriminate | reflexivity].
Defined.

(** C3 as stated fails: on a line whose action throws, the line is consumed
    and handed to the action, and the transition function is not called. *)
Lemma throwing_action_skips_transition :
  Machine.consumedLines (fst (Machine.runStateMachine ∅ Samples.failing ["x"; "y"] tt))
    = ["x"]
  ∧ Machine.transitionLines (fst (Machine.runStateMachine ∅ Samples.failing ["x"; "y"] tt))
    = [].
Proof. split; vm_compute; reflexivity. Qed.

(** C6, witness: an action that throws an [Error] on the first line, a
    transition function that throws one on the second, and an action that
    throws a string. *)
Lemma callback_error_gets_file_witness :
  snd (Machine.runStateMachine ∅ Samples.failing ([] ++ "x" :: ["y"]) tt)
    = Thrown (mkError "boom in file: statement.pdf")
  ∧ snd (Machine.runStateMachine ∅ Samples.failingNext (["a"] ++ "bad" :: ["y"]) tt)
    = Thrown (mkError "bad line in file: statement.pdf")
  ∧ snd (Machine.runStateMachine ∅ Samples.throwingText ([] ++ "x" :: ["y"]) tt)
    = Thrown (mkError "Cannot create property 'message' on string 'boom'").
Proof.
  split; [|split].
  - destruct (callback_error_gets_file ∅ Samples.failing tt [] ["y"] "x" false
                (Plain.startingOutput "statement.pdf" VUndefined) tt) as [H _];
      [reflexivity | discriminate |].
    rewrite (H (ErrorObject (mkError "boom"))); reflexivity.
  - destruct (callback_error_gets_file ∅ Samples.failingNext tt ["a"] ["y"] "bad" false
                (Plain.startingOutput "statement.pdf" VUndefined) tt) as [_ H];
      [reflexivity | discriminate |].
    rewrite (H (Plain.startingOutput "statement.pdf" VUndefined) tt
               (ErrorObject (mkError "bad line")));
      reflexivity.
  - destruct (callback_error_gets_file ∅ Samples.throwingText tt [] ["y"] "x" false
                (Plain.startingOutput "statement.pdf" VUndefined) tt) as [H _];
      [reflexivity | discriminate |].
    rewrite (H (Unwritable (Primitive (VString "boom"))
                  (mkError "Cannot create property 'message' on string 'boom'")));
      reflexivity.
Defined.

(** C6 as stated fails: an action that throws [null] ends the run with the
    [TypeError] of line 125. The file path is not appended, and what is
    thrown is not what the action threw. *)
Lemma thrown_null_gets_no_file :
  Machine.action (Machine.init Samples.throwingNull) false "x"
      (Plain.startingOutput "statement.pdf" VUndefined) ∅ tt
    = Thrown (Unwritable (Primitive VNull)
                (mkError "Cannot read properties of null (reading 'message')"))
  ∧ Machine.runStateMachine ∅ Samples.throwingNull ["x"; "y"] tt
    = ([Machine.CallAction false "x" (Plain.startingOutput "statement.pdf" VUndefined) ∅],
       Thrown (mkError "Cannot read properties of null (reading 'message')"))
  ∧ includes (" in file: " +:+ Machine.filePath Samples.throwingNull)
      "Cannot read properties of null (reading 'message')" = false.
Proof. repeat split; vm_compute; reflexivity. Qed.

(** C7, witness: the end state is reached on the second line; a third line
    is never handed to the caller's functions. *)
Lemma loop_stops_at_end_state_witness :
  Machine.consumedLines
    (fst (Machine.runStateMachine ∅ Samples.suffixing (["1234"; "end"] ++ ["trailing"]) tt))
    = ["1234"; "end"]
  ∧ Machine.transitionLines
    (fst (Machine.runStateMachine ∅ Samples.suffixing (["1234"; "end"] ++ ["trailing"]) tt))
    = ["1234"; "end"].
Proof.
  refine (proj2 (loop_stops_at_end_state ∅ Samples.suffixing tt ["1234"; "end"]
                   ["trailing"]
                   (Samples.setAccountSuffix "end"
                      (Samples.setAccountSuffix "1234"
                         (Plain.startingOutput "statement.pdf" VUndefined))) tt _)).
  reflexivity.
Defined.

(** ** Options and registration *)

Section OptionClaims.
Context {W StateType OutputType InitOutputType : Type}.
Context `{!EqDecision StateType}.
Context `{!Machine.ParsedOutputLike W OutputType InitOutputType}.
Import Machine.

Variable base : options.

Lemma resolveOptions_lookup (fmt caller : option options) (k : string) :
  resolveOptions base fmt caller !! k
  = match orEmpty caller !! k with
    | Some v => Some v
    | None =>
        match orEmpty fmt !! k with
        | Some v => Some v
        | None => base !! k
        end
    end.
Proof.
  unfold resolveOptions, collapseDefaultParserOptions.
  rewrite lookup_union. destruct (orEmpty caller !! k) as [v|] eqn:Ec.
  - by destruct fmt as [d|]; [destruct ((d ∪ base) !! k)|destruct (base !! k)].
  - destruct fmt as [d|]; simpl.
    + rewrite lookup_union. by destruct (d !! k), (base !! k).
    + rewrite lookup_empty. by destruct (base !! k).
Qed.

Lemma runLoop_options (m : CreateStateMachineInput W StateType OutputType InitOutputType)
    (po : options) (inputs : list string) :
  ∀ s o w s' l o' opts,
    CallAction s' l o' opts ∈ fst (runLoop m po s o w inputs) → opts = po.
Proof.
  induction inputs as [|x inputs IH]; intros s o w s' l o' opts; simpl.
  - case_decide; simpl; by intros ?%elem_of_nil.
  - case_decide; [by intros ?%elem_of_nil|].
    destruct (action _ _ _ _ _ _) as [[o1 w1]|].
    + destruct (next _ _ _ _) as [[s1 w2]|].
      * specialize (IH s1 o1 w2 s' l o' opts). destruct (runLoop _ _ _ _ _ _).
        simpl in *. rewrite !elem_of_cons. intros [E|[E|E]]; [congruence|done|eauto].
      * simpl. rewrite !elem_of_cons. intros [E|[E|E%elem_of_nil]]; [congruence|done|done].
    + simpl. rewrite elem_of_cons. intros [E|E%elem_of_nil]; [congruence|done].
Qed.

(** C4. For every option field the resolved value is the caller's when the
    caller gives the field, else the format default when the format gives
    it, else the base default; every action call of the run receives this
    resolved set. *)
Theorem option_precedence
    (m : CreateStateMachineInput W StateType OutputType InitOutputType)
    (inputs : list string) (w : W) (k : string) :
  optionsOf base m !! k
  = match orEmpty (inputParserOptions m) !! k with
    | Some v => Some v
    | None =>
        match orEmpty (defaultParserOptions (init m)) !! k with
        | Some v => Some v
        | None => base !! k
        end
    end
  ∧ ∀ s l o opts,
      CallAction s l o opts ∈ fst (runStateMachine base m inputs w) →
      opts = optionsOf base m.
Proof.
  split; [apply resolveOptions_lookup|].
  intros s l o opts. unfold runStateMachine.
  destruct (firstOutput base m w) as [[o0 w0]|]; [apply runLoop_options|].
  by intros ?%elem_of_nil.
Qed.

Section Registration.
Context {Keyword : Type}.
Import Orchestrator.

Variable readPdf : PdfProcessing W.

(** C5 (as amended). [createStatementParser] checks nothing about option
    defaults: it returns a parser for every format definition. A field with
    no base default, no format default and no caller override is absent from
    the options of a parse and reads as [undefined]. *)
Theorem registration_never_fails
    (rawInputs : CreateStatementParserInput W StateType OutputType InitOutputType Keyword) :
  (∃ p, createStatementParser readPdf base rawInputs = Ok p
        ∧ parser p = parse readPdf base rawInputs)
  ∧ ∀ args k,
      base !! k = None →
      orEmpty (defaultParserOptions (initInput rawInputs)) !! k = None →
      orEmpty (parseInputParserOptions args) !! k = None →
      getProp (optionsOf base (stateMachineInputs rawInputs args)) k = VUndefined.
Proof.
  split; [by eexists|].
  intros args k Hb Hf Hc. unfold getProp, optionsOf.
  rewrite resolveOptions_lookup. simpl. by rewrite Hc, Hf, Hb.
Qed.

End Registration.
End OptionClaims.

(** C5, witness: the field [dateFormat] has no default at any layer. *)
Lemma registration_never_fails_witness :
  Machine.getProp
    (Machine.optionsOf Samples.baseOptions
       (Orchestrator.stateMachineInputs Samples.registration
          {| Orchestrator.parseFilePath := "statement.pdf";
             Orchestrator.parseInputParserOptions := None;
             Orchestrator.debug := false |}))
    "dateFormat" = VUndefined.
Proof.
  apply (proj2 (registration_never_fails Samples.baseOptions Samples.noPdf
                  Samples.registration)); reflexivity.
Defined.

(** C5 as stated fails: a format definition whose option type introduces
    [dateFormat] and gives it no default registers without error, and its
    parser runs. *)
Lemma missing_default_registers :
  Orchestrator.omitsDefault Samples.baseOptions {[ "dateFormat" ]} Samples.registration
  ∧ (∀ e, Orchestrator.createStatementParser Samples.noPdf Samples.baseOptions
            Samples.registration ≠ Thrown e)
  ∧ Orchestrator.parse Samples.noPdf Samples.baseOptions Samples.registration
      {| Orchestrator.parseFilePath := "statement.pdf";
         Orchestrator.parseInputParserOptions := None;
         Orchestrator.debug := false |} tt
    = Ok (Samples.setAccountSuffix "end"
            (Samples.setAccountSuffix "1234"
               (Plain.startingOutput "statement.pdf" (VNumber (Fin 20 0)))), tt).
Proof.
  split; [|split].
  - exists "dateFormat". split; [set_solver|]. split; reflexivity.
  - discriminate.
  - vm_compute. reflexivity.
Qed.

(** ** The PayPal format *)

Section EngineSteps.
Context {W StateType OutputType InitOutputType : Type}.
Context `{!EqDecision StateType}.
Context `{!Machine.ParsedOutputLike W OutputType InitOutputType}.
Import Machine.

Lemma consume_cons (m : CreateStateMachineInput W StateType OutputType InitOutputType)
    (po : options) s o w l rest o' w' s' w'' :
  s ≠ endState (init m) →
  action (init m) s l o po w = Ok (o', w') →
  next (init m) s l w' = Ok (s', w'') →
  consume m po s o w (l :: rest) = consume m po s' o' w'' rest.
Proof. intros Hs Ha Hn. simpl. rewrite decide_False by done. by rewrite Ha, Hn. Qed.

End EngineSteps.

Lemma match_headerData :
  RegExp.match_ "Jan 1, 2021 - Jan 31, 2021 1234" Paypal.headerDataLineRegExp
  = Some ["Jan 1, 2021"; "Jan 31, 2021"; "1234"].
Proof. vm_compute. reflexivity. Qed.

Lemma match_coffeeLine :
  RegExp.match_ Samples.coffeeLine Paypal.transactionStartRegExp
  = Some ["1/5/2021"; "Coffee Shop "; "-4.50"; "0.00"; "-4.50"].
Proof. vm_compute. reflexivity. Qed.

Lemma match_coffeeLine_lower :
  RegExp.match_ (Text.toLowerCase Samples.coffeeLine) Paypal.transactionStartRegExp
  = Some ["1/5/2021"; "coffee shop "; "-4.50"; "0.00"; "-4.50"].
Proof. vm_compute. reflexivity. Qed.

Section PaypalScenario.
Import Machine Paypal.
Context `{Augments}.
Variable base : options.
Variable path : string.
Variable caller : option options.

Hypothesis named_start : dateFromNamedCommaFormat "Jan 1, 2021" = Ok (Plain.mkDate 2021 1 1).
Hypothesis named_end : dateFromNamedCommaFormat "Jan 31, 2021" = Ok (Plain.mkDate 2021 1 31).
Hypothesis slash_date : dateFromSlashFormat "1/5/2021" = Ok (Plain.mkDate 2021 1 5).
Hypothesis collapse_description : collapseSpaces "Coffee Shop " = "Coffee Shop".
Hypothesis sanitize_amount : sanitizeNumberString "-4.50" = "-4.50".
Hypothesis sanitize_fees : sanitizeNumberString "0.00" = "0.00".

Lemma action_headerData (o : PaypalOutput) :
  Plain.startDate o = None →
  performStateAction HeaderData "Jan 1, 2021 - Jan 31, 2021 1234" o
  = Ok (withHeader o (Plain.mkDate 2021 1 1) (Plain.mkDate 2021 1 31) "1234").
Proof.
  intros Hs. unfold performStateAction. rewrite match_headerData, Hs.
  cbv beta iota. rewrite named_start, named_end. reflexivity.
Qed.

Lemma action_coffeeLine (o : PaypalOutput) :
  performStateAction Activity Samples.coffeeLine o
  = Ok (withExpenses o
          (Plain.expenses o
           ++ [{| date := Plain.mkDate 2021 1 5;
                  description := "Coffee Shop";
                  amount := Fin 45 1;
                  fees := Fin 0 0;
                  baseAmount := Fin 45 1;
                  originalText := [Samples.coffeeLine] |}])).
Proof.
  unfold performStateAction. rewrite match_coffeeLine.
  cbv beta iota. rewrite slash_date, collapse_description, sanitize_amount, sanitize_fees.
  reflexivity.
Qed.

Lemma next_coffeeLine : nextState Activity Samples.coffeeLine = ExpenseInside.
Proof.
  unfold nextState. rewrite match_coffeeLine_lower.
  cbv beta iota zeta. rewrite sanitize_amount. reflexivity.
Qed.


Lemma paypal_step (po : options) s (o : PaypalOutput) l rest o' s' :
  s ≠ End_ →
  performStateAction s l o = Ok o' →
  nextState s l = s' →
  consume (paypalMachine path caller) po s o tt (l :: rest)
  = consume (paypalMachine path caller) po s' o' tt rest.
Proof.
  intros Hs Ha Hn. apply (consume_cons _ _ _ _ _ _ _ o' tt s' tt); [exact Hs| |].
  - cbn [action init paypalMachine paypalInput Orchestrator.initInput].
    unfold Plain.pureCall. by rewrite Ha.
  - cbn [next init paypalMachine paypalInput Orchestrator.initInput].
    unfold Plain.pureCall. by rewrite Hn.
Qed.

Lemma scenario_consumed :
  runTo base (paypalMachine path caller) tt Samples.statementLines
  = Some (End_, Samples.scenarioOutput path
                  (getProp (optionsOf base (paypalMachine path caller)) "yearPrefix"), tt).
Proof.
  unfold runTo, firstOutput. cbn [buildOutput Plain.plainOutput].
  set (po := optionsOf base (paypalMachine path caller)).
  set (o0 := Plain.startingOutput _ _).
  unfold Samples.statementLines.
  rewrite (paypal_step po Header o0 "header" _ o0 Header);
    [|discriminate|reflexivity|reflexivity].
  rewrite (paypal_step po Header o0 "statement period" _ o0 HeaderData);
    [|discriminate|reflexivity|reflexivity].
  erewrite (paypal_step po HeaderData o0 _ _ _ Header);
    [|discriminate|by apply action_headerData|reflexivity].
  set (o1 := withHeader _ _ _ _).
  rewrite (paypal_step po Header o1 _ _ o1 ActivityHeader);
    [|discriminate|reflexivity|vm_compute; reflexivity].
  rewrite (paypal_step po ActivityHeader o1 "" _ o1 Activity);
    [|discriminate|reflexivity|reflexivity].
  erewrite (paypal_step po Activity o1 Samples.coffeeLine _ _ ExpenseInside);
    [|discriminate|apply action_coffeeLine|apply next_coffeeLine].
  set (o2 := withExpenses _ _).
  rewrite (paypal_step po ExpenseInside o2 "" _ o2 Activity);
    [|discriminate|reflexivity|reflexivity].
  rewrite (paypal_step po Activity o2 "you must notify us no later than ..." _ o2 End_);
    [|discriminate|vm_compute; reflexivity|vm_compute; reflexivity].
  reflexivity.
Qed.

(** C9. The scenario of the specification: the eight lines parse to one
    expense (Coffee Shop, amount 4.5, fees 0, base amount 4.5, 2021-01-05),
    no income, account suffix 1234 and the period 2021-01-01 to 2021-01-31.
    The absent helpers are taken to read the two named dates and the slash
    date as written, to strip the space that ends the description, and to
    leave comma-free numbers as they are. *)
Theorem paypal_scenario :
  createParserStateMachine base (paypalMachine path caller) Samples.statementLines tt
  = Ok (Samples.scenarioOutput path
          (getProp (optionsOf base (paypalMachine path caller)) "yearPrefix"), tt).
Proof.
  unfold createParserStateMachine.
  rewrite <- (app_nil_r Samples.statementLines).
  rewrite (run_after _ _ _ _ _ _ _ _ scenario_consumed).
  reflexivity.
Qed.

End PaypalScenario.

(** C9, witness: the scenario with the stand-in helpers. *)
Lemma paypal_scenario_witness :
  Machine.createParserStateMachine Samples.baseOptions
    (@Paypal.paypalMachine Samples.augments "statement.pdf" None)
    Samples.statementLines tt
  = Ok ({| Plain.incomes := [];
           Plain.expenses :=
             [{| Paypal.date := Plain.mkDate 2021 1 5;
                 Paypal.description := "Coffee Shop";
                 Paypal.amount := Fin 45 1;
                 Paypal.fees := Fin 0 0;
                 Paypal.baseAmount := Fin 45 1;
                 Paypal.originalText := ["1/5/2021 Coffee Shop USD -4.50 0.00 -4.50"] |}];
           Plain.filePath := "statement.pdf";
           Plain.yearPrefix := VNumber (Fin 20 0);
           Plain.accountSuffix := "1234";
           Plain.endDate := Some (Plain.mkDate 2021 1 31);
           Plain.startDate := Some (Plain.mkDate 2021 1 1) |}, tt).
Proof.
  apply (@paypal_scenario Samples.augments Samples.baseOptions "statement.pdf" None);
    vm_compute; reflexivity.
Defined.

Lemma match_feeLine :
  RegExp.match_ Samples.feeLine Paypal.transactionStartRegExp
  = Some ["1/7/2021"; "Tiny Sale "; "0.10"; "-0.33"; "-0.23"].
Proof. vm_compute. reflexivity. Qed.

Lemma match_feeLine_lower :
  RegExp.match_ (Text.toLowerCase Samples.feeLine) Paypal.transactionStartRegExp
  = Some ["1/7/2021"; "tiny sale "; "0.10"; "-0.33"; "-0.23"].
Proof. vm_compute. reflexivity. Qed.

Section PaypalAmounts.
Import Machine Paypal RegExp Numeric.
Context `{Augments}.


Lemma abs_not_negative (n : number) : ltZero (abs n) = false.
Proof. destruct n as [| |m k]; simpl; [done|done|]. apply Z.ltb_ge, Z.abs_nonneg. Qed.

Lemma extendLast_not_negative (line : string) (l l' : list PaypalTransaction) :
  extendLast line l = Ok l' → Forall notNegative l → Forall notNegative l'.
Proof.
  unfold extendLast. intros Hx Hl.
  assert (Hr : Forall notNegative (reverse l)) by by apply Forall_reverse.
  destruct (reverse l) as [|t before]; [done|].
  injection Hx as <-. apply Forall_cons in Hr as [Ht Hb].
  apply Forall_app. split; [by apply Forall_reverse|].
  by apply Forall_singleton.
Qed.

(** The action keeps every stored [amount], [fees] and [baseAmount] at or
    above zero, or [NaN] for a column that is not a number: the absolute value
    is taken of each. *)
Lemma performStateAction_not_negative (s : State) (line : string) (o o' : PaypalOutput) :
  performStateAction s line o = Ok o' →
  Forall notNegative (Plain.incomes o) → Forall notNegative (Plain.expenses o) →
  Forall notNegative (Plain.incomes o') ∧ Forall notNegative (Plain.expenses o').
Proof.
  intros Ha Hi He. unfold performStateAction in Ha.
  destruct (bool_decide (s = HeaderData) && isNone (Plain.startDate o)).
  { destruct (match_ line headerDataLineRegExp) as [[|a [|b [|c [|]]]]|];
      try (injection Ha as <-; done).
    destruct (dateFromNamedCommaFormat a); [|done].
    destruct (dateFromNamedCommaFormat b); [|done].
    injection Ha as <-. done. }
  destruct (bool_decide (s = Activity)).
  { destruct (match_ line transactionStartRegExp) as [[|a [|b [|c [|d [|e [|]]]]]]|];
      try (injection Ha as <-; done).
    destruct (dateFromSlashFormat a); [|done]. simpl in Ha.
    assert (Hn : ∀ d0 t1 t2 t3 txt,
               notNegative {| date := d0; description := t1; amount := abs t2;
                              fees := abs t3; baseAmount := abs (Number (sanitizeNumberString c));
                              originalText := txt |}).
    { intros. repeat split; apply abs_not_negative. }
    destruct (ltZero _); injection Ha as <-; simpl; split; try done;
      apply Forall_app; (split; [done|]); apply Forall_singleton, Hn. }
  destruct (bool_decide (s = ExpenseInside) && negb (bool_decide (line = ""))).
  { destruct (extendLast line (Plain.expenses o)) eqn:Ex; [|done].
    injection Ha as <-. simpl. split; [done|]. by eapply extendLast_not_negative. }
  destruct (bool_decide (s = IncomeInside) && negb (bool_decide (line = ""))).
  { destruct (extendLast line (Plain.incomes o)) eqn:Ex; [|done].
    injection Ha as <-. simpl. split; [|done]. by eapply extendLast_not_negative. }
  injection Ha as <-. done.
Qed.

(** Every transaction of a parsed PayPal statement has its [amount], [fees]
    and [baseAmount] at or above zero, or [NaN]. *)
Lemma paypal_output_not_negative (base : options) (path : string)
    (caller : option options) (inputs : list string) (o : PaypalOutput) :
  createParserStateMachine base (paypalMachine path caller) inputs tt = Ok (o, tt) →
  Forall notNegative (Plain.incomes o) ∧ Forall notNegative (Plain.expenses o).
Proof.
  unfold createParserStateMachine, runStateMachine, firstOutput.
  cbn [buildOutput Plain.plainOutput].
  apply (runLoop_ok_invariant (paypalMachine path caller) _
           (λ o _, Forall notNegative (Plain.incomes o)
                   ∧ Forall notNegative (Plain.expenses o))).
  - intros s l o1 w o' w' [Hi He].
    cbn [action init paypalMachine paypalInput Orchestrator.initInput].
    unfold Plain.pureCall. destruct (performStateAction s l o1) as [o2|] eqn:Ea; [|done].
    intros [= <- <-]. by eapply performStateAction_not_negative.
  - intros s l w s' w' o1 Hi _. exact Hi.
  - split; constructor.
Qed.

Hypothesis slash_date : dateFromSlashFormat "1/7/2021" = Ok (Plain.mkDate 2021 1 7).
Hypothesis collapse_description : collapseSpaces "Tiny Sale " = "Tiny Sale".
Hypothesis sanitize_amount : sanitizeNumberString "0.10" = "0.10".
Hypothesis sanitize_fees : sanitizeNumberString "-0.33" = "-0.33".
Hypothesis sanitize_total : sanitizeNumberString "-0.23" = "-0.23".

(** C10, the code at the failing input. The line has a positive amount
    column and a negative total column: the action appends the transaction
    to [incomes], by the sign of the amount column, while the transition
    function moves to [ExpenseInside], by the sign of the total column. *)
Theorem paypal_sign_columns_disagree (o : PaypalOutput) :
  performStateAction Activity Samples.feeLine o
  = Ok (withIncomes o
          (Plain.incomes o
           ++ [{| date := Plain.mkDate 2021 1 7;
                  description := "Tiny Sale";
                  amount := Fin 23 2;
                  fees := Fin 33 2;
                  baseAmount := Fin 1 1;
                  originalText := [Samples.feeLine] |}]))
  ∧ nextState Activity Samples.feeLine = ExpenseInside.
Proof.
  split.
  - unfold performStateAction. rewrite match_feeLine.
    cbv beta iota.
    rewrite slash_date, collapse_description, sanitize_amount, sanitize_fees, sanitize_total.
    reflexivity.
  - unfold nextState. rewrite match_feeLine_lower.
    cbv beta iota zeta. rewrite sanitize_total. reflexivity.
Qed.

End PaypalAmounts.

(** C10, witness: the failing line with the stand-in helpers; the
    description line that follows it makes the parse throw. *)
Lemma paypal_sign_columns_disagree_witness :
  @Paypal.nextState Samples.augments Paypal.Activity Samples.feeLine = Paypal.ExpenseInside
  ∧ Machine.createParserStateMachine Samples.baseOptions
      (@Paypal.paypalMachine Samples.augments "statement.pdf" None) Samples.feeLines tt
    = Thrown (mkError
        "Cannot read properties of undefined (reading 'description') in file: statement.pdf").
Proof.
  split.
  - refine (proj2 (@paypal_sign_columns_disagree Samples.augments _ _ _ _ _
                     (Plain.startingOutput "statement.pdf" VUndefined)));
      vm_compute; reflexivity.
  - vm_compute. reflexivity.
Defined.

(** ** Outputs in the heap *)

Section HeapFacts.
Import Machine Heap.

Implicit Types (h g : heap) (v w : value) (x l : loc).


Lemma reachable_primitive h v x : isPrimitive v = true → ¬ reachable h v x.
Proof. intros Hp Hr. by destruct Hr. Qed.

Lemma agreeOn_child h g l ob v :
  agreeOn h g (VRef l) → h !! l = Some ob → child ob v → agreeOn h g v.
Proof. intros Ha Hl Hc y Hy. apply Ha. by eapply reach_child. Qed.

Lemma reachable_agree h g v x : agreeOn h g v → reachable g v x → reachable h v x.
Proof.
  intros Ha Hr. induction Hr as [l|l ob v x Hl Hc Hr IH].
  - constructor.
  - assert (Hl' : h !! l = Some ob).
    { rewrite <- (Ha l); [done|constructor]. }
    eapply reach_child; [done..|]. apply IH. by eapply agreeOn_child.
Qed.

Lemma agreeOn_sym h g v : agreeOn h g v → agreeOn g h v.
Proof. intros Ha y Hy. symmetry. apply Ha. by apply (reachable_agree h g). Qed.

Lemma agreeOn_trans h1 h2 h3 v : agreeOn h1 h2 v → agreeOn h2 h3 v → agreeOn h1 h3 v.
Proof.
  intros H12 H23 y Hy. rewrite <- (H12 y Hy). apply H23.
  by apply (reachable_agree h2 h1); [apply agreeOn_sym|].
Qed.

Lemma valid_agreeOn h g v : h ⊆ g → valid h v → agreeOn h g v.
Proof.
  intros Hs Hv y Hy. destruct (proj1 (elem_of_dom _ _) (Hv y Hy)) as [ob Hob].
  rewrite Hob. by eapply lookup_weaken.
Qed.

Lemma valid_agree h g v : agreeOn h g v → valid h v → valid g v.
Proof.
  intros Ha Hv x Hx. pose proof (reachable_agree _ _ _ _ Ha Hx) as Hx'.
  apply elem_of_dom. rewrite (Ha x Hx'). apply elem_of_dom. by apply Hv.
Qed.

Lemma view_agree h g v n : agreeOn h g v → view n g v = view n h v.
Proof.
  revert v. induction n as [|n IH]; intros v Ha; destruct v as [| | | | |l]; try done.
  simpl. rewrite (Ha l) by constructor.
  destruct (h !! l) as [[props|elems| |]|] eqn:Hl; try done.
  - f_equal. apply map_fmap_ext. intros k c Hk. apply IH.
    eapply agreeOn_child; [done..|]. by exists k.
  - f_equal. apply list_fmap_ext. intros i c Hi. apply IH.
    eapply agreeOn_child; [done..|]. simpl. by eapply list_elem_of_lookup_2.
Qed.

Lemma sameShape_agree h g v h' w : agreeOn h g v → sameShape h v h' w → sameShape g v h' w.
Proof. intros Ha Hs n. rewrite <- (Hs n). by apply view_agree. Qed.

Lemma alloc_spec ob h l h' :
  alloc ob h = (l, h') → (l ∉ dom h) ∧ h' = <[l := ob]> h ∧ h ⊆ h'.
Proof.
  unfold alloc. intros [= <- <-].
  assert (Hf : fresh (dom h) ∉ dom h) by apply is_fresh.
  split; [done|]. split; [done|]. apply insert_subseteq. by apply not_elem_of_dom.
Qed.

Lemma freshIn_valid h h' v : freshIn h h' v → valid h' v.
Proof. intros Hf x Hx. by apply Hf. Qed.

Lemma freshIn_weaken h0 h h' h'' v :
  h0 ⊆ h → h' ⊆ h'' → freshIn h h' v → freshIn h0 h'' v.
Proof.
  intros H0 H' Hf x Hx.
  assert (Hx' : reachable h' v x).
  { apply (reachable_agree h' h''); [|done]. apply valid_agreeOn; [done|].
    by eapply freshIn_valid. }
  destruct (Hf x Hx') as [Hd Hn]. split.
  - by eapply (subseteq_dom h' h'').
  - intros Hd0. apply Hn. by eapply (subseteq_dom h0 h).
Qed.

Lemma freshIn_alloc h0 h1 l ob :
  h0 ⊆ h1 → l ∉ dom h1 →
  (∀ v, child ob v → freshIn h0 h1 v) →
  freshIn h0 (<[l := ob]> h1) (VRef l).
Proof.
  intros H01 Hl Hc x Hx.
  assert (Hsub : h1 ⊆ <[l := ob]> h1) by (apply insert_subseteq; by apply not_elem_of_dom).
  inversion Hx as [|? ob' v ? Hl' Hch Hr]; subst.
  - split; [set_solver|]. intros Hd. apply Hl. by eapply (subseteq_dom h0 h1).
  - rewrite lookup_insert_eq in Hl'. injection Hl' as <-.
    by apply (freshIn_weaken h0 h0 h1 (<[l := ob]> h1) v); [done|done|apply Hc|].
Qed.



Lemma parseElems_fresh {A} (p : A → heap → value * heap) (js : list A) :
  Forall (allocatesFresh p) js →
  ∀ h vs h', parseElems p js h = (vs, h') → h ⊆ h' ∧ Forall (freshIn h h') vs.
Proof.
  induction 1 as [|j js Hj _ IH]; intros h vs h' Hp; simpl in Hp.
  - injection Hp as <- <-. done.
  - destruct (p j h) as [v h1] eqn:Ej.
    destruct (parseElems p js h1) as [vs' h2] eqn:Ejs.
    injection Hp as <- <-.
    destruct (Hj _ _ _ Ej) as [H01 Hv]. destruct (IH _ _ _ Ejs) as [H12 Hvs].
    split; [by transitivity h1|]. constructor.
    + by apply (freshIn_weaken h h h1 h2).
    + eapply Forall_impl; [exact Hvs|]. intros w Hw.
      by apply (freshIn_weaken h h1 h2 h2).
Qed.

Lemma parseMembers_fresh {A} (p : A → heap → value * heap) (ms : list (string * A)) :
  Forall (λ m, allocatesFresh p m.2) ms →
  ∀ h0 acc h props h',
    h0 ⊆ h →
    (∀ k v, acc !! k = Some v → freshIn h0 h v) →
    parseMembers p ms acc h = (props, h') →
    h ⊆ h' ∧ ∀ k v, props !! k = Some v → freshIn h0 h' v.
Proof.
  induction 1 as [|[k j] ms Hj _ IH]; intros h0 acc h props h' H0 Hacc Hp; simpl in Hp.
  - injection Hp as <- <-. done.
  - destruct (p j h) as [v h1] eqn:Ej.
    destruct (Hj _ _ _ Ej) as [H01 Hv].
    destruct (IH h0 (<[k := v]> acc) h1 props h') as [H12 Hprops];
      [by transitivity h| |done|].
    + intros k' v' Hk'. destruct (decide (k = k')) as [->|Hne].
      * rewrite lookup_insert_eq in Hk'. injection Hk' as <-.
        by apply (freshIn_weaken h0 h h1 h1).
      * rewrite lookup_insert_ne in Hk' by done.
        apply (freshIn_weaken h0 h0 h h1); [done|done|]. by eapply Hacc.
    + split; [by transitivity h1|done].
Qed.

Lemma parse_JArray (js : list json) h :
  parse (JArray js) h
  = let '(vs, h1) := parseElems parse js h in
    let '(l, h2) := alloc (OArray vs) h1 in (VRef l, h2).
Proof. reflexivity. Qed.

Lemma parse_JObject (ms : list (string * json)) h :
  parse (JObject ms) h
  = let '(props, h1) := parseMembers parse ms ∅ h in
    let '(l, h2) := alloc (OObject props) h1 in (VRef l, h2).
Proof. reflexivity. Qed.

Lemma parse_fresh (j : json) : allocatesFresh parse j.
Proof.
  induction j as [| | | |js IH|ms IH] using json_nested_ind;
    intros h v h' Hp;
    try (injection Hp as <- <-; split; [done|]; intros x Hx; by inversion Hx).
  - rewrite parse_JArray in Hp. destruct (parseElems parse js h) as [vs h1] eqn:Ejs.
    destruct (alloc (OArray vs) h1) as [l h2] eqn:Ea.
    injection Hp as <- <-.
    destruct (parseElems_fresh _ _ IH _ _ _ Ejs) as [H01 Hvs].
    destruct (alloc_spec _ _ _ _ Ea) as (Hl & -> & H12).
    split; [by transitivity h1|]. apply freshIn_alloc; [done|done|].
    intros v Hv. simpl in Hv. by eapply (proj1 (Forall_forall _ _) Hvs).
  - rewrite parse_JObject in Hp.
    destruct (parseMembers parse ms ∅ h) as [props h1] eqn:Ems.
    destruct (alloc (OObject props) h1) as [l h2] eqn:Ea.
    injection Hp as <- <-.
    destruct (parseMembers_fresh _ _ IH h ∅ h props h1) as [H01 Hprops]; [done| |done|].
    { intros k v Hk. by rewrite lookup_empty in Hk. }
    destruct (alloc_spec _ _ _ _ Ea) as (Hl & -> & H12).
    split; [by transitivity h1|]. apply freshIn_alloc; [done|done|].
    intros v [k Hk]. by eapply Hprops.
Qed.


Lemma sameShape_later h h' v g g' w :
  h ⊆ h' → g ⊆ g' → valid h v → valid g w →
  sameShape h v g w → sameShape h' v g' w.
Proof.
  intros Hh Hg Hv Hw Hs n.
  rewrite (view_agree h h') by by apply valid_agreeOn.
  rewrite (view_agree g g') by by apply valid_agreeOn.
  apply Hs.
Qed.

Lemma parseElems_shape {A} (p : A → heap → value * heap) (js : list A) :
  Forall (allocatesFresh p) js → Forall (sameShapes p) js →
  ∀ h vs h' g ws g',
    parseElems p js h = (vs, h') → parseElems p js g = (ws, g') →
    Forall2 (λ v w, sameShape h' v g' w) vs ws.
Proof.
  intros Hf Hs. revert Hf.
  induction Hs as [|j js Hj _ IH]; intros Hf h vs h' g ws g' Hp Hq; simpl in *.
  - injection Hp as <- <-. injection Hq as <- <-. constructor.
  - apply Forall_cons in Hf as [Hfj Hfjs].
    destruct (p j h) as [v h1] eqn:Ej. destruct (p j g) as [w g1] eqn:Fj.
    destruct (parseElems p js h1) as [vs' h2] eqn:Ejs.
    destruct (parseElems p js g1) as [ws' g2] eqn:Fjs.
    injection Hp as <- <-. injection Hq as <- <-.
    destruct (Hfj _ _ _ Ej) as [_ Hv]. destruct (Hfj _ _ _ Fj) as [_ Hw].
    destruct (parseElems_fresh _ _ Hfjs _ _ _ Ejs) as [H12 _].
    destruct (parseElems_fresh _ _ Hfjs _ _ _ Fjs) as [G12 _].
    constructor; [|by eapply IH].
    apply (sameShape_later h1 h2 v g1 g2 w); [done|done| | |by eapply Hj];
      by eapply freshIn_valid.
Qed.


Lemma sameProps_insert h a g b k v w :
  sameProps h a g b → sameShape h v g w →
  sameProps h (<[k := v]> a) g (<[k := w]> b).
Proof. intros Hp Hs n. by rewrite !fmap_insert, Hp, Hs. Qed.

Lemma sameProps_later h h' a g g' b :
  h ⊆ h' → g ⊆ g' →
  (∀ k v, a !! k = Some v → valid h v) → (∀ k w, b !! k = Some w → valid g w) →
  sameProps h a g b → sameProps h' a g' b.
Proof.
  intros Hh Hg Ha Hb Hp n.
  transitivity (view n h <$> a).
  { apply map_fmap_ext. intros k v Hk. apply view_agree, valid_agreeOn; [done|by eapply Ha]. }
  rewrite Hp. apply map_fmap_ext. intros k w Hk. symmetry.
  apply view_agree, valid_agreeOn; [done|by eapply Hb].
Qed.

Lemma parseMembers_shape {A} (p : A → heap → value * heap) (ms : list (string * A)) :
  Forall (λ m, allocatesFresh p m.2) ms → Forall (λ m, sameShapes p m.2) ms →
  ∀ h0 a h props h' g0 b g props' g',
    h0 ⊆ h → g0 ⊆ g →
    (∀ k v, a !! k = Some v → freshIn h0 h v) →
    (∀ k w, b !! k = Some w → freshIn g0 g w) →
    sameProps h a g b →
    parseMembers p ms a h = (props, h') → parseMembers p ms b g = (props', g') →
    sameProps h' props g' props'.
Proof.
  intros Hf Hs. revert Hf.
  induction Hs as [|[k j] ms Hj _ IH];
    intros Hf h0 a h props h' g0 b g props' g' H0 G0 Ha Hb Hab Hp Hq; simpl in *.
  - injection Hp as <- <-. injection Hq as <- <-. done.
  - apply Forall_cons in Hf as [Hfj Hfms]. simpl in *.
    destruct (p j h) as [v h1] eqn:Ej. destruct (p j g) as [w g1] eqn:Fj.
    destruct (Hfj _ _ _ Ej) as [H01 Hv]. destruct (Hfj _ _ _ Fj) as [G01 Hw].
    eapply (IH Hfms h0 (<[k := v]> a) h1 props h' g0 (<[k := w]> b) g1 props' g');
      try done; [by transitivity h|by transitivity g| | |].
    + intros k' v' Hk'. destruct (decide (k = k')) as [->|Hne].
      * rewrite lookup_insert_eq in Hk'. injection Hk' as <-.
        by apply (freshIn_weaken h0 h h1 h1).
      * rewrite lookup_insert_ne in Hk' by done.
        apply (freshIn_weaken h0 h0 h h1); [done|done|]. by eapply Ha.
    + intros k' v' Hk'. destruct (decide (k = k')) as [->|Hne].
      * rewrite lookup_insert_eq in Hk'. injection Hk' as <-.
        by apply (freshIn_weaken g0 g g1 g1).
      * rewrite lookup_insert_ne in Hk' by done.
        apply (freshIn_weaken g0 g0 g g1); [done|done|]. by eapply Hb.
    + apply sameProps_insert; [|by eapply Hj].
      apply (sameProps_later h h1 a g g1 b); try done.
      * intros k' v' Hk'. eapply freshIn_valid. by eapply Ha.
      * intros k' v' Hk'. eapply freshIn_valid. by eapply Hb.
Qed.

Lemma fmap_Forall2_eq {A B C} (f : A → C) (f' : B → C) (xs : list A) (ys : list B) :
  Forall2 (λ a b, f a = f' b) xs ys → f <$> xs = f' <$> ys.
Proof. induction 1 as [|a b xs ys E _ IH]; [done|]. by rewrite !fmap_cons, E, IH. Qed.

Lemma sameShape_primitive h g v : isPrimitive v = true → sameShape h v g v.
Proof. intros Hp n. by destruct v, n. Qed.

Lemma view_insert_fresh h l ob v n :
  l ∉ dom h → valid h v → view n (<[l := ob]> h) v = view n h v.
Proof.
  intros Hl Hv. apply view_agree, valid_agreeOn; [|done].
  apply insert_subseteq. by apply not_elem_of_dom.
Qed.

Lemma parse_shape (j : json) : sameShapes parse j.
Proof.
  induction j as [| | | |js IH|ms IH] using json_nested_ind;
    intros h v h' g w g' Hp Hq;
    try (injection Hp as <- <-; injection Hq as <- <-; by apply sameShape_primitive).
  - rewrite parse_JArray in Hp, Hq.
    destruct (parseElems parse js h) as [vs h1] eqn:Ejs.
    destruct (parseElems parse js g) as [ws g1] eqn:Fjs.
    destruct (alloc (OArray vs) h1) as [l h2] eqn:Ea.
    destruct (alloc (OArray ws) g1) as [l' g2] eqn:Fa.
    injection Hp as <- <-. injection Hq as <- <-.
    assert (Hf : Forall (allocatesFresh parse) js).
    { apply Forall_forall. intros j _. apply parse_fresh. }
    destruct (parseElems_fresh _ _ Hf _ _ _ Ejs) as [_ Hvs].
    destruct (parseElems_fresh _ _ Hf _ _ _ Fjs) as [_ Hws].
    pose proof (parseElems_shape _ _ Hf IH _ _ _ _ _ _ Ejs Fjs) as Hsh.
    destruct (alloc_spec _ _ _ _ Ea) as (Hl & -> & _).
    destruct (alloc_spec _ _ _ _ Fa) as (Hl' & -> & _).
    intros [|n]; [done|]. simpl. rewrite !lookup_insert_eq. f_equal.
    apply fmap_Forall2_eq.
    assert (Hboth : Forall2 (λ v w, valid h1 v ∧ valid g1 w ∧ sameShape h1 v g1 w) vs ws).
    { clear -Hvs Hws Hsh. induction Hsh as [|v w vs ws E _ IH]; [constructor|].
      apply Forall_cons in Hvs as [Hv Hvs]. apply Forall_cons in Hws as [Hw Hws].
      constructor; [|by apply IH]. split; [by eapply freshIn_valid|].
      split; [by eapply freshIn_valid|done]. }
    eapply Forall2_impl; [exact Hboth|]. intros v w (Hv & Hw & E). simpl.
    rewrite !view_insert_fresh by done. apply E.
  - rewrite parse_JObject in Hp, Hq.
    destruct (parseMembers parse ms ∅ h) as [props h1] eqn:Ems.
    destruct (parseMembers parse ms ∅ g) as [props' g1] eqn:Fms.
    destruct (alloc (OObject props) h1) as [l h2] eqn:Ea.
    destruct (alloc (OObject props') g1) as [l' g2] eqn:Fa.
    injection Hp as <- <-. injection Hq as <- <-.
    assert (Hf : Forall (λ m, allocatesFresh parse m.2) ms).
    { apply Forall_forall. intros m _. apply parse_fresh. }
    assert (He : ∀ h0, ∀ k v, (∅ : gmap string value) !! k = Some v → freshIn h0 h0 v).
    { intros h0 k v Hk. by rewrite lookup_empty in Hk. }
    destruct (parseMembers_fresh _ _ Hf h ∅ h props h1) as [_ Hprops];
      [done|apply He|done|].
    destruct (parseMembers_fresh _ _ Hf g ∅ g props' g1) as [_ Hprops'];
      [done|apply He|done|].
    assert (Hsh : sameProps h1 props g1 props').
    { eapply (parseMembers_shape _ _ Hf IH h ∅ h props h1 g ∅ g props' g1);
        try done; try apply He; try (intros n; by rewrite !fmap_empty). }
    destruct (alloc_spec _ _ _ _ Ea) as (Hl & -> & _).
    destruct (alloc_spec _ _ _ _ Fa) as (Hl' & -> & _).
    intros [|n]; [done|]. simpl. rewrite !lookup_insert_eq. f_equal.
    transitivity (view n h1 <$> props).
    { apply map_fmap_ext. intros k v Hk. apply view_insert_fresh; [done|].
      eapply freshIn_valid. by eapply Hprops. }
    rewrite Hsh. apply map_fmap_ext. intros k v Hk. symmetry.
    apply view_insert_fresh; [done|]. eapply freshIn_valid. by eapply Hprops'.
Qed.

Lemma mapResult_ext {A B} (f f' : A → result B) (xs : list A) :
  (∀ a, a ∈ xs → f a = f' a) → mapResult f xs = mapResult f' xs.
Proof.
  induction xs as [|a xs IH]; intros Ha; simpl; [done|].
  rewrite (Ha a) by constructor. destruct (f' a); [|done]. simpl.
  rewrite IH; [done|]. intros b Hb. apply Ha. by constructor.
Qed.

Lemma stringify_agree (fuel : nat) :
  ∀ stack h g v, agreeOn h g v → stringify fuel stack g v = stringify fuel stack h v.
Proof.
  induction fuel as [|fuel IH]; intros stack h g v Ha;
    destruct v as [| | |num|s|l]; try reflexivity; simpl;
    rewrite (Ha l) by constructor;
    destruct (h !! l) as [[props|elems|iso|]|] eqn:Hl; try reflexivity.
  - case_bool_decide; [done|]. f_equal. apply mapResult_ext. intros kv Hkv.
    rewrite (IH _ h g); [done|]. eapply agreeOn_child; [done..|].
    exists kv.1. apply elem_of_map_to_list. by destruct kv.
  - case_bool_decide; [done|]. f_equal. apply mapResult_ext. intros c Hc.
    apply IH. by eapply agreeOn_child.
Qed.

Lemma mapResult_transfer {A B} (f f' : A → result B) (xs : list A) :
  (∀ a r, a ∈ xs → f a = r → r ≠ Thrown exhausted → f' a = r) →
  ∀ r, mapResult f xs = r → r ≠ Thrown exhausted → mapResult f' xs = r.
Proof.
  induction xs as [|a xs IH]; intros Ha r Hr Hne; simpl in *; [done|].
  destruct (f a) as [b|e] eqn:Ea; simpl in Hr.
  - rewrite (Ha a (Ok b)); [|by constructor|done|done]. simpl.
    destruct (mapResult f xs) as [bs|e] eqn:Exs; simpl in Hr; subst r.
    + rewrite (IH (λ z r Hz, Ha z r (list_elem_of_further _ _ _ Hz)) (Ok bs)); done.
    + rewrite (IH (λ z r Hz, Ha z r (list_elem_of_further _ _ _ Hz)) (Thrown e)); done.
  - subst r. rewrite (Ha a (Thrown e)); [reflexivity|constructor|done|].
    intros [= ->]. by apply Hne.
Qed.

Lemma stringify_ref (fuel : nat) stack h l :
  stringify fuel stack h (VRef l)
  = match h !! l with
    | None | Some OFunction => Ok None
    | Some (ODate iso) =>
        Ok (Some (match iso with Some s => JString s | None => JNull end))
    | Some (OArray elems) =>
        if bool_decide (l ∈ stack) then Thrown circular
        else
          match fuel with
          | O => Thrown exhausted
          | S fuel' =>
              bind (mapResult (stringify fuel' (l :: stack) h) elems) (λ js,
              Ok (Some (JArray (map (default JNull) js))))
          end
    | Some (OObject props) =>
        if bool_decide (l ∈ stack) then Thrown circular
        else
          match fuel with
          | O => Thrown exhausted
          | S fuel' =>
              bind (mapResult
                      (λ kv, bind (stringify fuel' (l :: stack) h kv.2) (λ r, Ok (kv.1, r)))
                      (map_to_list props)) (λ ms,
              Ok (Some (JObject (omap (λ kr, pair kr.1 <$> kr.2) ms))))
          end
    end.
Proof. by destruct fuel. Qed.

Lemma bind_transfer {A B C} (f f' : A → result B) (xs : list A)
    (k : list B → C) (r : result C) :
  (∀ a r', a ∈ xs → f a = r' → r' ≠ Thrown exhausted → f' a = r') →
  bind (mapResult f xs) (λ ys, Ok (k ys)) = r → r ≠ Thrown exhausted →
  bind (mapResult f' xs) (λ ys, Ok (k ys)) = r.
Proof.
  intros Hf Hr Hne. destruct (mapResult f xs) as [ys|e] eqn:E; simpl in Hr; subst r.
  - by rewrite (mapResult_transfer f f' xs Hf (Ok ys)).
  - rewrite (mapResult_transfer f f' xs Hf (Thrown e)); [done|done|].
    intros [= ->]. by apply Hne.
Qed.

Lemma stringify_more_fuel (fuel : nat) :
  ∀ stack h v r,
    stringify fuel stack h v = r → r ≠ Thrown exhausted →
    stringify (S fuel) stack h v = r.
Proof.
  induction fuel as [|fuel IH]; intros stack h v r Hr Hne;
    (destruct v as [| | |num|s|l]; [exact Hr..|]);
    rewrite stringify_ref in Hr |- *;
    destruct (h !! l) as [[props|elems|iso|]|] eqn:Hl; try exact Hr;
    case_bool_decide; try exact Hr; try (by subst r).
  - eapply bind_transfer; [|exact Hr|exact Hne].
    intros kv r' _ Hkv Hn. subst r'.
    destruct (stringify fuel (l :: stack) h kv.2) as [rr|e] eqn:Ekv.
    + rewrite (IH _ _ _ _ Ekv); done.
    + rewrite (IH _ _ _ _ Ekv); [done|]. intros [= ->]. by apply Hn.
  - eapply bind_transfer; [|exact Hr|exact Hne].
    intros c r' _ Hc Hn. by apply IH.
Qed.

Lemma stringify_fuel (fuel fuel' : nat) stack h v r :
  (fuel ≤ fuel')%nat →
  stringify fuel stack h v = Ok r → stringify fuel' stack h v = Ok r.
Proof.
  induction 1 as [|fuel' _ IH]; intros Hr; [done|].
  by apply stringify_more_fuel; [apply IH|].
Qed.

Lemma mapResult_not_thrown {A B} (f : A → result B) (xs : list A) (e : Error) :
  (∀ a, a ∈ xs → f a ≠ Thrown e) → mapResult f xs ≠ Thrown e.
Proof.
  induction xs as [|a xs IH]; intros Ha; simpl; [done|].
  destruct (f a) as [b|e'] eqn:Ea; simpl.
  - destruct (mapResult f xs) as [bs|e'] eqn:Exs; simpl; [done|].
    intros [= ->]. apply IH; [|done]. intros c Hc. apply Ha. by constructor.
  - intros [= ->]. by apply (Ha a); [constructor|].
Qed.

(** The bound on nesting is not met when it covers the objects that are not
    yet on the stack. *)
Lemma stringify_not_exhausted (fuel : nat) :
  ∀ stack h v,
    NoDup stack → (∀ l, l ∈ stack → l ∈ dom h) →
    (size h ≤ length stack + fuel)%nat →
    stringify fuel stack h v ≠ Thrown exhausted.
Proof.
  induction fuel as [|fuel IH]; intros stack h v Hnd Hin Hsz;
    (destruct v as [| | |num|s|l]; [done|done|done|by destruct num|done|]);
    rewrite stringify_ref;
    destruct (h !! l) as [[props|elems|iso|]|] eqn:Hl; try done;
    case_bool_decide; try done.
  - exfalso. assert (Hle : (length (l :: stack) ≤ size h)%nat).
    { rewrite <- (size_list_to_set (C := gset loc)) by by constructor.
      rewrite <- (size_dom h). apply subseteq_size. intros y Hy.
      apply elem_of_list_to_set in Hy. apply elem_of_cons in Hy as [->|Hy]; [|by apply Hin].
      apply elem_of_dom. by eexists. }
    simpl in Hle. lia.
  - exfalso. assert (Hle : (length (l :: stack) ≤ size h)%nat).
    { rewrite <- (size_list_to_set (C := gset loc)) by by constructor.
      rewrite <- (size_dom h). apply subseteq_size. intros y Hy.
      apply elem_of_list_to_set in Hy. apply elem_of_cons in Hy as [->|Hy]; [|by apply Hin].
      apply elem_of_dom. by eexists. }
    simpl in Hle. lia.
  - assert (Hrec : ∀ c, stringify fuel (l :: stack) h c ≠ Thrown exhausted).
    { intros c. apply IH; [by constructor| |simpl; lia].
      intros y [->|Hy]%elem_of_cons; [|by apply Hin]. apply elem_of_dom. by eexists. }
    destruct (mapResult _ (map_to_list props)) as [ms|e] eqn:Em; [done|].
    simpl. intros [= ->]. revert Em. apply mapResult_not_thrown. intros kv _.
    destruct (stringify fuel (l :: stack) h kv.2) as [r|e] eqn:Ekv; [done|].
    simpl. intros [= ->]. by apply (Hrec kv.2).
  - assert (Hrec : ∀ c, stringify fuel (l :: stack) h c ≠ Thrown exhausted).
    { intros c. apply IH; [by constructor| |simpl; lia].
      intros y [->|Hy]%elem_of_cons; [|by apply Hin]. apply elem_of_dom. by eexists. }
    destruct (mapResult _ elems) as [js|e] eqn:Em; [done|].
    simpl. intros [= ->]. revert Em. apply mapResult_not_thrown. intros c _. apply Hrec.
Qed.

(** [JSON.stringify] as [buildOutput] calls it never runs out of nesting
    bound: it returns a text or [undefined], or throws for a circular
    structure. *)
Lemma stringify_within_bound h v : stringify (size h) [] h v ≠ Thrown exhausted.
Proof.
  apply stringify_not_exhausted; [constructor| |simpl; lia].
  by intros l ?%elem_of_nil.
Qed.

Lemma freshIn_primitive h h' v : isPrimitive v = true → freshIn h h' v.
Proof. intros Hp x Hx. by destruct (reachable_primitive _ _ _ Hp Hx). Qed.

Lemma freshIn_child h h' l ob c :
  freshIn h h' (VRef l) → h' !! l = Some ob → child ob c → freshIn h h' c.
Proof. intros Hf Hl Hc x Hx. apply Hf. by eapply reach_child. Qed.

Lemma freshIn_leaf h h' l ob :
  h' !! l = Some ob → (∀ c, ¬ child ob c) → l ∉ dom h → freshIn h h' (VRef l).
Proof.
  intros Hl Hc Hn x Hx. inversion Hx as [|? ob' c ? Hl' Hch _]; subst.
  - split; [|done]. apply elem_of_dom. by eexists.
  - rewrite Hl in Hl'. injection Hl' as <-. by destruct (Hc c).
Qed.

Lemma indexed_lookup {A} (vs : list A) :
  ∀ i k c, indexed i vs !! k = Some c → c ∈ vs.
Proof.
  induction vs as [|v vs IH]; intros i k c Hk; simpl in Hk.
  - by rewrite lookup_empty in Hk.
  - apply lookup_insert_Some in Hk as [[_ <-]|[_ Hk]]; [by constructor|].
    constructor. by eapply IH.
Qed.

Lemma chars_primitive (s : string) c : c ∈ chars s → isPrimitive c = true.
Proof.
  induction s as [|a s IH]; simpl; [by intros ?%elem_of_nil|].
  intros [->|Hc]%elem_of_cons; [done|by apply IH].
Qed.

(** A property copied by [{...v}] is a primitive or is held by the object [v]. *)
Lemma spreadProps_lookup h v k c :
  spreadProps h v !! k = Some c →
  isPrimitive c = true ∨ ∃ l ob, v = VRef l ∧ h !! l = Some ob ∧ child ob c.
Proof.
  destruct v as [| | | |s|l]; simpl; try (by rewrite lookup_empty).
  - intros Hk. left. eapply chars_primitive, indexed_lookup, Hk.
  - destruct (h !! l) as [[props|elems| |]|] eqn:Hl; try (by rewrite lookup_empty).
    + intros Hk. right. exists l, (OObject props). split; [done|]. split; [done|]. by exists k.
    + intros Hk. right. exists l, (OArray elems). split; [done|]. split; [done|].
      simpl. by eapply indexed_lookup.
Qed.

Lemma scaffold_lookup (i e : loc) (path : string) (yp : value) k c :
  isPrimitive yp = true →
  scaffold i e path yp !! k = Some c →
  c = VRef i ∨ c = VRef e ∨ isPrimitive c = true.
Proof.
  intros Hyp. unfold scaffold.
  repeat (rewrite lookup_insert_Some; intros [[_ <-]|[_ Hk]]; [by eauto|revert Hk]).
  rewrite lookup_singleton_Some. intros [_ <-]. by eauto.
Qed.

(** The heaps that [buildOutput] goes through. *)
Lemma buildOutput_spec (path : string) (yp : value) (initOutput : option value) h o h' :
  Heap.buildOutput path yp initOutput h = Ok (o, h') →
  ∃ lI lE lS source h4 j copy h5 lO,
    let h1 := <[lI := OArray []]> h in
    let h2 := <[lE := OArray []]> h1 in
    let h3 := <[lS := OObject (scaffold lI lE path yp)]> h2 in
    (lI ∉ dom h) ∧ (lE ∉ dom h1) ∧ (lS ∉ dom h2)
    ∧ ((∃ v, initOutput = Some v ∧ falsy v = false ∧ source = v ∧ h4 = h3)
       ∨ ((initOutput = None ∨ ∃ v, initOutput = Some v ∧ falsy v = true)
          ∧ ∃ lT, (lT ∉ dom h3) ∧ source = VRef lT ∧ h4 = <[lT := OObject ∅]> h3))
    ∧ stringify (size h4) [] h4 source = Ok (Some j)
    ∧ parse j h4 = (copy, h5)
    ∧ (lO ∉ dom h5)
    ∧ o = VRef lO
    ∧ h' = <[lO := OObject (spreadProps h5 copy ∪ scaffold lI lE path yp)]> h5.
Proof.
  unfold Heap.buildOutput.
  destruct (alloc (OArray []) h) as [lI h1] eqn:E1.
  destruct (alloc (OArray []) h1) as [lE h2] eqn:E2.
  destruct (alloc (OObject (scaffold lI lE path yp)) h2) as [lS h3] eqn:E3.
  destruct (alloc_spec _ _ _ _ E1) as (F1 & -> & S1).
  destruct (alloc_spec _ _ _ _ E2) as (F2 & -> & S2).
  destruct (alloc_spec _ _ _ _ E3) as (F3 & -> & S3).
  set (h3 := <[lS := _]> _) in *.
  destruct (match initOutput with
            | Some v => if falsy v then _ else _
            | None => _
            end) as [source h4] eqn:Es.
  destruct (stringify (size h4) [] h4 source) as [[j|]|] eqn:Ej; try done.
  destruct (parse j h4) as [copy h5] eqn:Ep.
  destruct (alloc _ h5) as [lO h6] eqn:E6.
  intros [= <- <-].
  destruct (alloc_spec _ _ _ _ E6) as (F6 & -> & S6).
  destruct (parse_fresh j _ _ _ Ep) as [S45 _].
  assert (S34 : h3 ⊆ h4).
  { destruct initOutput as [v|]; [destruct (falsy v)|].
    - destruct (alloc (OObject ∅) h3) as [lT h4'] eqn:E4.
      destruct (alloc_spec _ _ _ _ E4) as (_ & _ & S4). by injection Es as <- <-.
    - by injection Es as <- <-.
    - destruct (alloc (OObject ∅) h3) as [lT h4'] eqn:E4.
      destruct (alloc_spec _ _ _ _ E4) as (_ & _ & S4). by injection Es as <- <-. }
  assert (HS : h5 !! lS = Some (OObject (scaffold lI lE path yp))).
  { eapply lookup_weaken; [|by transitivity h4]. apply lookup_insert_eq. }
  exists lI, lE, lS, source, h4, j, copy, h5, lO. simpl.
  split; [done|]. split; [done|]. split; [done|]. split.
  { destruct initOutput as [v|]; [destruct (falsy v) eqn:Fv|].
    - right. split; [right; by exists v|].
      destruct (alloc (OObject ∅) h3) as [lT h4'] eqn:E4.
      destruct (alloc_spec _ _ _ _ E4) as (F4 & -> & _).
      injection Es as <- <-. by exists lT.
    - left. injection Es as <- <-. by exists v.
    - right. split; [by left|].
      destruct (alloc (OObject ∅) h3) as [lT h4'] eqn:E4.
      destruct (alloc_spec _ _ _ _ E4) as (F4 & -> & _).
      injection Es as <- <-. by exists lT. }
  split; [done|]. split; [done|]. split; [done|]. split; [done|].
  simpl. by rewrite HS.
Qed.

Lemma insert_fresh_subseteq h l ob : l ∉ dom h → h ⊆ <[l := ob]> h.
Proof. intros Hl. apply insert_subseteq. by apply not_elem_of_dom. Qed.

(** The output the loop starts from is made of new objects only, and the
    heap below it is as it was. *)
Lemma buildOutput_fresh (path : string) (yp : value) (initOutput : option value) h o h' :
  Heap.buildOutput path yp initOutput h = Ok (o, h') →
  isPrimitive yp = true →
  h ⊆ h' ∧ freshIn h h' o.
Proof.
  intros Hb Hyp.
  destruct (buildOutput_spec _ _ _ _ _ _ Hb)
    as (lI & lE & lS & source & h4 & j & copy & h5 & lO & Hspec).
  simpl in Hspec. destruct Hspec as (F1 & F2 & F3 & Hsrc & Hj & Hp & F6 & -> & ->).
  set (h1 := <[lI := OArray []]> h) in *.
  set (h2 := <[lE := OArray []]> h1) in *.
  set (h3 := <[lS := OObject (scaffold lI lE path yp)]> h2) in *.
  assert (S01 : h ⊆ h1) by by apply insert_fresh_subseteq.
  assert (S12 : h1 ⊆ h2) by by apply insert_fresh_subseteq.
  assert (S23 : h2 ⊆ h3) by by apply insert_fresh_subseteq.
  assert (S34 : h3 ⊆ h4).
  { destruct Hsrc as [(v & _ & _ & _ & ->)|(_ & lT & F4 & _ & ->)]; [done|].
    by apply insert_fresh_subseteq. }
  destruct (parse_fresh j _ _ _ Hp) as [S45 Hcopy].
  assert (S05 : h ⊆ h5).
  { transitivity h1; [done|]. transitivity h2; [done|]. transitivity h3; [done|].
    by transitivity h4. }
  assert (S04 : h ⊆ h4).
  { transitivity h1; [done|]. transitivity h2; [done|]. by transitivity h3. }
  split; [transitivity h5; [done|by apply insert_fresh_subseteq]|].
  apply freshIn_alloc; [done|done|].
  intros c [k Hk]. apply lookup_union_Some_raw in Hk as [Hk|[_ Hk]].
  - apply spreadProps_lookup in Hk as [Hc|(l & ob & -> & Hl & Hc)].
    + by apply freshIn_primitive.
    + apply (freshIn_weaken h h4 h5 h5); [done|done|]. by eapply freshIn_child.
  - apply scaffold_lookup in Hk as [->|[->|Hc]]; [| | |done].
    + apply (freshIn_leaf _ _ _ (OArray [])); [|by intros c ?%elem_of_nil|done].
      eapply lookup_weaken; [apply lookup_insert_eq|].
      transitivity h2; [done|]. transitivity h3; [done|]. by transitivity h4.
    + apply (freshIn_leaf _ _ _ (OArray [])); [|by intros c ?%elem_of_nil|].
      * eapply lookup_weaken; [apply lookup_insert_eq|].
        transitivity h3; [done|]. by transitivity h4.
      * intros Hd. apply F2. by eapply (subseteq_dom h h1).
    + by apply freshIn_primitive.
Qed.

Lemma fmap_indexed {A B} (f : A → B) (vs : list A) :
  ∀ i, f <$> indexed i vs = indexed i (f <$> vs).
Proof.
  induction vs as [|a vs IH]; intros i; simpl; [apply fmap_empty|].
  by rewrite fmap_insert, IH.
Qed.

(** The properties that a spread copies from structurally equal values are
    structurally equal. *)
Lemma spreadProps_shape h v g w :
  sameShape h v g w → sameProps h (spreadProps h v) g (spreadProps g w).
Proof.
  intros Hs n. specialize (Hs (S n)).
  destruct v as [| | | |s|l], w as [| | | |s'|l']; simpl in *; try done;
    try (destruct (g !! l') as [[| | |]|]; done);
    try (destruct (h !! l) as [[| | |]|]; done).
  - injection Hs as <-. apply map_fmap_ext. intros k c Hk.
    apply sameShape_primitive. eapply chars_primitive, indexed_lookup, Hk.
  - destruct (h !! l) as [[p|xs| |]|], (g !! l') as [[p'|xs'| |]|]; try done.
    + by injection Hs.
    + injection Hs as Hs. by rewrite !fmap_indexed, Hs.
Qed.

Lemma view_leaf_array h l n : h !! l = Some (OArray []) → view (S n) h (VRef l) = TArray [].
Proof. intros Hl. simpl. by rewrite Hl. Qed.

Lemma scaffold_shape h g lI lE mI mE (path : string) (yp : value) :
  isPrimitive yp = true →
  h !! lI = Some (OArray []) → h !! lE = Some (OArray []) →
  g !! mI = Some (OArray []) → g !! mE = Some (OArray []) →
  sameProps h (scaffold lI lE path yp) g (scaffold mI mE path yp).
Proof.
  intros Hyp HI HE GI GE n. unfold scaffold.
  rewrite !fmap_insert, !map_fmap_singleton.
  assert (EI : view n h (VRef lI) = view n g (VRef mI)).
  { destruct n; [done|]. by rewrite !view_leaf_array. }
  assert (EE : view n h (VRef lE) = view n g (VRef mE)).
  { destruct n; [done|]. by rewrite !view_leaf_array. }
  assert (EY : view n h yp = view n g yp) by by apply sameShape_primitive.
  rewrite EI, EE, EY. by destruct n.
Qed.

Lemma stringify_empty_object (fuel : nat) h l r :
  h !! l = Some (OObject ∅) →
  stringify fuel [] h (VRef l) = Ok r → r = Some (JObject []).
Proof.
  intros Hl. rewrite stringify_ref, Hl.
  rewrite bool_decide_false by by intros ?%elem_of_nil.
  destruct fuel; [done|]. rewrite map_to_list_empty. simpl. by intros [= <-].
Qed.

Lemma stringify_same_text (f1 f2 : nat) stack h v r1 r2 :
  stringify f1 stack h v = Ok r1 → stringify f2 stack h v = Ok r2 → r1 = r2.
Proof.
  intros H1 H2.
  apply (stringify_fuel f1 (f1 `max` f2)) in H1; [|lia].
  apply (stringify_fuel f2 (f1 `max` f2)) in H2; [|lia].
  congruence.
Qed.

(** The two arrays of the scaffold are still empty when the output object
    is made. *)
Lemma starting_arrays h lI lE lS (path : string) (yp : value) h4 j copy h5 :
  let h1 := <[lI := OArray []]> h in
  let h2 := <[lE := OArray []]> h1 in
  let h3 := <[lS := OObject (scaffold lI lE path yp)]> h2 in
  lI ∉ dom h → lE ∉ dom h1 → lS ∉ dom h2 → h3 ⊆ h4 →
  parse j h4 = (copy, h5) →
  h ⊆ h4 ∧ h4 ⊆ h5 ∧ h5 !! lI = Some (OArray []) ∧ h5 !! lE = Some (OArray []).
Proof.
  intros h1 h2 h3 F1 F2 F3 S34 Hp.
  assert (S01 : h ⊆ h1) by by apply insert_fresh_subseteq.
  assert (S12 : h1 ⊆ h2) by by apply insert_fresh_subseteq.
  assert (S23 : h2 ⊆ h3) by by apply insert_fresh_subseteq.
  destruct (parse_fresh j _ _ _ Hp) as [S45 _].
  split; [|split; [done|split]].
  - transitivity h1; [done|]. transitivity h2; [done|]. by transitivity h3.
  - eapply lookup_weaken; [apply lookup_insert_eq|].
    transitivity h2; [done|]. transitivity h3; [done|]. by transitivity h4.
  - eapply lookup_weaken; [apply lookup_insert_eq|].
    transitivity h3; [done|]. by transitivity h4.
Qed.

(** The properties of the output object, as [buildOutput] lays them out,
    are new objects and primitives. *)
Lemma starting_props_fresh h lI lE lS (path : string) (yp : value) h4 j copy h5 k c :
  let h1 := <[lI := OArray []]> h in
  let h2 := <[lE := OArray []]> h1 in
  let h3 := <[lS := OObject (scaffold lI lE path yp)]> h2 in
  isPrimitive yp = true →
  lI ∉ dom h → lE ∉ dom h1 → lS ∉ dom h2 → h3 ⊆ h4 →
  parse j h4 = (copy, h5) →
  (spreadProps h5 copy ∪ scaffold lI lE path yp) !! k = Some c →
  freshIn h h5 c.
Proof.
  intros h1 h2 h3 Hyp F1 F2 F3 S34 Hp Hk.
  destruct (starting_arrays h lI lE lS path yp h4 j copy h5) as (S04 & S45 & HI & HE);
    try done.
  destruct (parse_fresh j _ _ _ Hp) as [_ Hcopy].
  apply lookup_union_Some_raw in Hk as [Hk|[_ Hk]].
  - apply spreadProps_lookup in Hk as [Hc|(l & ob & -> & Hl & Hc)].
    + by apply freshIn_primitive.
    + apply (freshIn_weaken h h4 h5 h5); [done|done|]. by eapply freshIn_child.
  - apply scaffold_lookup in Hk as [->|[->|Hc]]; [| | |done].
    + by apply (freshIn_leaf _ _ _ (OArray [])); [|intros c ?%elem_of_nil|].
    + apply (freshIn_leaf _ _ _ (OArray [])); [done|by intros c ?%elem_of_nil|].
      intros Hd. apply F2. by eapply (subseteq_dom h (<[lI := OArray []]> h));
        [apply insert_fresh_subseteq|].
    + by apply freshIn_primitive.
Qed.

(** Built twice from the same arguments, over heaps that hold the fragment
    alike, the starting outputs are structurally equal. *)
Lemma buildOutput_shape (path : string) (yp : value) (initOutput : option value)
    h o h' g o2 g' :
  isPrimitive yp = true →
  (∀ v, initOutput = Some v → valid h v ∧ agreeOn h g v) →
  Heap.buildOutput path yp initOutput h = Ok (o, h') →
  Heap.buildOutput path yp initOutput g = Ok (o2, g') →
  sameShape h' o g' o2.
Proof.
  intros Hyp Hfrag Hb Hb2.
  destruct (buildOutput_spec _ _ _ _ _ _ Hb)
    as (lI & lE & lS & source & h4 & j & copy & h5 & lO & Hspec).
  destruct (buildOutput_spec _ _ _ _ _ _ Hb2)
    as (mI & mE & mS & source' & g4 & j' & copy' & g5 & mO & Hspec').
  simpl in Hspec, Hspec'.
  destruct Hspec as (F1 & F2 & F3 & Hsrc & Hj & Hp & F6 & -> & ->).
  destruct Hspec' as (G1 & G2 & G3 & Hsrc' & Hj' & Hp' & G6 & -> & ->).
  set (h3 := <[lS := _]> _) in *. set (g3 := <[mS := _]> _) in *.
  assert (S03 : h ⊆ h3).
  { transitivity (<[lI := OArray []]> h); [by apply insert_fresh_subseteq|].
    transitivity (<[lE := OArray []]> (<[lI := OArray []]> h));
      by apply insert_fresh_subseteq. }
  assert (T03 : g ⊆ g3).
  { transitivity (<[mI := OArray []]> g); [by apply insert_fresh_subseteq|].
    transitivity (<[mE := OArray []]> (<[mI := OArray []]> g));
      by apply insert_fresh_subseteq. }
  assert (S34 : h3 ⊆ h4).
  { destruct Hsrc as [(v & _ & _ & _ & ->)|(_ & lT & F4 & _ & ->)]; [done|].
    by apply insert_fresh_subseteq. }
  assert (T34 : g3 ⊆ g4).
  { destruct Hsrc' as [(v & _ & _ & _ & ->)|(_ & lT & F4 & _ & ->)]; [done|].
    by apply insert_fresh_subseteq. }
  assert (Ej : j' = j).
  { destruct Hsrc as [(v & Ev & Fv & -> & ->)|(Hnone & lT & F4 & -> & ->)].
    - destruct Hsrc' as [(v' & Ev' & _ & -> & ->)|(Hnone' & _)].
      + rewrite Ev in Ev'. injection Ev' as <-.
        destruct (Hfrag v Ev) as [Hv Hag].
        assert (A1 : agreeOn h h3 v) by by apply valid_agreeOn.
        assert (A2 : agreeOn h g3 v).
        { apply (agreeOn_trans h g g3); [done|].
          apply valid_agreeOn; [done|]. by apply (valid_agree h g). }
        rewrite (stringify_agree _ _ h h3) in Hj by done.
        rewrite (stringify_agree _ _ h g3) in Hj' by done.
        pose proof (stringify_same_text _ _ _ _ _ _ _ Hj Hj'). congruence.
      + destruct Hnone' as [E|(v' & Ev' & Fv')]; congruence.
    - destruct Hsrc' as [(v' & Ev' & Fv' & _)|(_ & mT & G4 & -> & ->)].
      + destruct Hnone as [E|(v & Ev & Fv)]; congruence.
      + apply stringify_empty_object in Hj; [|apply lookup_insert_eq].
        apply stringify_empty_object in Hj'; [|apply lookup_insert_eq]. congruence. }
  subst j'.
  pose proof (parse_shape j _ _ _ _ _ _ Hp Hp') as Hcopy.
  intros [|n]; [done|]. simpl. rewrite !lookup_insert_eq. f_equal.
  transitivity (view n h5 <$> (spreadProps h5 copy ∪ scaffold lI lE path yp)).
  { apply map_fmap_ext. intros k c Hk. apply view_insert_fresh; [done|].
    eapply freshIn_valid.
    by eapply (starting_props_fresh h lI lE lS path yp h4 j copy h5 k c). }
  transitivity (view n g5 <$> (spreadProps g5 copy' ∪ scaffold mI mE path yp)).
  2: { apply map_fmap_ext. intros k c Hk. symmetry. apply view_insert_fresh; [done|].
       eapply freshIn_valid.
       by eapply (starting_props_fresh g mI mE mS path yp g4 j copy' g5 k c). }
  rewrite !map_fmap_union. f_equal; [by apply spreadProps_shape|].
  destruct (starting_arrays h lI lE lS path yp h4 j copy h5) as (_ & _ & HI & HE);
    try done.
  destruct (starting_arrays g mI mE mS path yp g4 j copy' g5) as (_ & _ & GI & GE);
    try done.
  by apply scaffold_shape.
Qed.

End HeapFacts.

(** ** Two parse calls *)

Section TwoCalls.
Import Machine Heap.
Context {StateType : Type} `{!EqDecision StateType}.

Variable toText : heap → value → string.
Variable base : options.
Variable m : CreateStateMachineInput heap StateType value value.


Hypothesis action_confined : confinedAction (action (init m)).
Hypothesis next_framed : framedNext (next (init m)).

(** A call returns an output made of objects allocated during the call, and
    leaves the objects that existed before it as they were. *)
Lemma parseCall_fresh (inputs : list string) (h0 : heap) o h :
  isPrimitive (getProp (optionsOf base m) "yearPrefix") = true →
  parseCall toText base m inputs h0 = Ok (o, h) →
  h0 ⊆ h ∧ freshIn h0 h o.
Proof.
  intros Hyp. unfold parseCall, createParserStateMachine, runStateMachine, firstOutput.
  cbn [Machine.buildOutput heapOutput].
  destruct (Heap.buildOutput _ _ _ h0) as [[oS hS]|] eqn:Eb; [|done].
  destruct (buildOutput_fresh _ _ _ _ _ _ Eb Hyp) as [S0 F0].
  apply (runLoop_ok_invariant m _ (λ o h, h0 ⊆ h ∧ freshIn h0 h o)); [| |done].
  - intros s l o1 w o' w' [Hs Hf] Ha.
    destruct (action_confined _ _ _ _ _ _ _ (freshIn_valid _ _ _ Hf) Ha)
      as (Hd & Hv & Hr & Hk).
    split.
    + apply map_subseteq_spec. intros x ob Hx.
      assert (Hxw : w !! x = Some ob) by by eapply lookup_weaken.
      rewrite Hk; [done|by apply elem_of_dom|].
      intros Hrx. destruct (Hf x Hrx) as [_ Hn]. apply Hn. apply elem_of_dom. by eexists.
    + intros x Hx. split; [by apply Hv|].
      destruct (Hr x Hx) as [Hrx|Hn]; [by apply Hf|].
      intros Hd0. apply Hn. by eapply (subseteq_dom h0 w).
  - intros s l w s' w' o1 [Hs Hf] Hn. pose proof (next_framed _ _ _ _ _ Hn) as Hw.
    split; [by transitivity w|]. by apply (freshIn_weaken h0 h0 w w').
Qed.

(** C8 (as amended). For an action that stays within its output and a
    transition function that changes no object, two calls with the same
    format definition, options and lines return outputs such that: they are
    structurally equal, when the action is a function of the shape of its
    output and the transition function does not depend on the heap; no
    object is nested in both; no object nested in either existed before the
    calls, so none is shared with the [initOutput] fragment; and whatever is
    then written into the objects of the first output leaves the second as it
    is. *)
Theorem parse_calls_isolated (inputs : list string) (h0 : heap) o1 h1 o2 h2 :
  isPrimitive (getProp (optionsOf base m) "yearPrefix") = true →
  (∀ v, initOutput (init m) = Some v → valid h0 v) →
  parseCall toText base m inputs h0 = Ok (o1, h1) →
  parseCall toText base m inputs h1 = Ok (o2, h2) →
  (shapeAction (action (init m)) → shapeNext (next (init m)) → sameShape h2 o1 h2 o2)
  ∧ (∀ x, reachable h2 o1 x → ¬ reachable h2 o2 x)
  ∧ (∀ x, reachable h2 o1 x ∨ reachable h2 o2 x → x ∉ dom h0)
  ∧ (∀ h', (∀ x, ¬ reachable h2 o1 x → h' !! x = h2 !! x) → sameShape h' o2 h2 o2).
Proof.
  intros Hyp Hfrag H1 H2.
  destruct (parseCall_fresh _ _ _ _ Hyp H1) as [S01 F1].
  destruct (parseCall_fresh _ _ _ _ Hyp H2) as [S12 F2].
  assert (A1 : agreeOn h1 h2 o1).
  { apply valid_agreeOn; [done|]. by eapply freshIn_valid. }
  assert (Hdisj : ∀ x, reachable h2 o1 x → ¬ reachable h2 o2 x).
  { intros x Hx1 Hx2. apply (reachable_agree h1 h2) in Hx1; [|done].
    destruct (F1 x Hx1) as [Hd _]. by destruct (F2 x Hx2) as [_ Hn]. }
  split; [|split; [done|split]].
  - intros action_shape next_shape.
    apply (sameShape_agree h1 h2); [done|].
    revert H1 H2.
    unfold parseCall, createParserStateMachine, runStateMachine, firstOutput.
    cbn [Machine.buildOutput heapOutput].
    destruct (Heap.buildOutput _ _ _ h0) as [[oS hS]|] eqn:Eb; [|done].
    destruct (Heap.buildOutput _ _ _ h1) as [[oT hT]|] eqn:Eb'; [|done].
    destruct (buildOutput_fresh _ _ _ _ _ _ Eb Hyp) as [_ FS].
    destruct (buildOutput_fresh _ _ _ _ _ _ Eb' Hyp) as [_ FT].
    assert (Hstart : sameShape hS oS hT oT).
    { eapply (buildOutput_shape _ _ _ h0 oS hS h1 oT hT); [done| |done|done].
      intros v Hv. split; [by apply Hfrag|]. apply valid_agreeOn; [done|by apply Hfrag]. }
    intros H1 H2.
    refine (proj1 (runLoop_ok_simulation m _
              (λ a u b v, sameShape u a v b ∧ valid u a ∧ valid v b)
              _ _ inputs _ oS hS oT hT o1 h1 o2 h2 _ H1 H2)).
    + intros s l a u b v (Hs & Hva & Hvb).
      pose proof (action_shape s l (optionsOf base m) u a v b Hva Hvb Hs) as Hsh.
      destruct (action (init m) s l a _ u) as [[a' u']|] eqn:Ea;
        destruct (action (init m) s l b _ v) as [[b' v']|] eqn:Eb2; try done.
      split; [done|]. split.
      * by destruct (action_confined _ _ _ _ _ _ _ Hva Ea) as (_ & ? & _).
      * by destruct (action_confined _ _ _ _ _ _ _ Hvb Eb2) as (_ & ? & _).
    + intros s l a u b v (Hs & Hva & Hvb).
      pose proof (next_shape s l u v) as Hsh.
      destruct (next (init m) s l u) as [[s1 u']|] eqn:En;
        destruct (next (init m) s l v) as [[s2 v']|] eqn:En2; try done.
      split; [done|].
      pose proof (next_framed _ _ _ _ _ En) as Su.
      pose proof (next_framed _ _ _ _ _ En2) as Sv.
      split; [by apply (sameShape_later u u' a v v' b)|].
      split; (eapply valid_agree; [apply valid_agreeOn|]; done).
    + split; [done|]. split; by eapply freshIn_valid.
  - intros x [Hx|Hx].
    + apply (reachable_agree h1 h2) in Hx; [|done]. by destruct (F1 x Hx).
    + destruct (F2 x Hx) as [_ Hn]. intros Hd. apply Hn. by eapply (subseteq_dom h0 h1).
  - intros h' Hsame. intros n. apply view_agree.
    intros y Hy. apply Hsame. intros Hy1. by eapply Hdisj.
Qed.

End TwoCalls.

Lemma valid_primitive (h : Heap.heap) (v : value) : Heap.isPrimitive v = true → Heap.valid h v.
Proof. intros Hp x Hx. by destruct (reachable_primitive _ _ _ Hp Hx). Qed.

Lemma valid_ref (h : Heap.heap) (l : loc) (ob : Heap.object) :
  h !! l = Some ob → (∀ c, Heap.child ob c → Heap.valid h c) → Heap.valid h (VRef l).
Proof.
  intros Hl Hc x Hx. inversion Hx as [|? ob' c ? Hl' Hch Hr]; subst.
  - apply elem_of_dom. by eexists.
  - rewrite Hl in Hl'. injection Hl' as <-. by apply (Hc c).
Qed.

Lemma sampleHeap_fragment_valid : Heap.valid Samples.sampleHeap (VRef 3%positive).
Proof.
  eapply valid_ref; [reflexivity|].
  intros c [k Hk].
  apply lookup_insert_Some in Hk as [[_ <-]|[_ Hk]]; [by apply valid_primitive|].
  apply lookup_singleton_Some in Hk as [_ <-].
  eapply valid_ref; [reflexivity|].
  intros c Hc. apply valid_primitive. simpl in Hc.
  apply elem_of_cons in Hc as [->|Hc]; [done|].
  apply elem_of_cons in Hc as [->|Hc]; [done|]. by apply elem_of_nil in Hc.
Qed.

Lemma heapMachine_framed act :
  Heap.framedNext (Machine.next (Machine.init (Samples.heapMachine act))).
Proof. by intros s l h s' h' [= _ <-]. Qed.

Lemma heapMachine_shapeNext act :
  Heap.shapeNext (Machine.next (Machine.init (Samples.heapMachine act))).
Proof. by intros s l h1 h2. Qed.

Section Replacing.
Import Machine Heap.

Lemma replacing_confined : confinedAction (action (init Samples.replacing)).
Proof.
  intros s l o opts h o' h' Hv.
  unfold Samples.replacing, Samples.heapMachine. cbn [action init].
  destruct (alloc _ h) as [ln hn] eqn:Ea. intros [= <- <-].
  destruct (alloc_spec _ _ _ _ Ea) as (Hl & -> & Hsub).
  assert (Hchild : ∀ c, child (OObject (<["accountSuffix" := VString l]> (spreadProps h o))) c →
                        isPrimitive c = true ∨ (∃ lo ob, o = VRef lo ∧ h !! lo = Some ob ∧ child ob c)).
  { intros c [k Hk]. apply lookup_insert_Some in Hk as [[_ <-]|[_ Hk]]; [by left|].
    by apply spreadProps_lookup in Hk. }
  assert (Hvc : ∀ c, child (OObject (<["accountSuffix" := VString l]> (spreadProps h o))) c →
                     valid h c ∧ ∀ x, reachable h c x → reachable h o x).
  { intros c Hc. destruct (Hchild c Hc) as [Hp|(lo & ob & -> & Hlo & Hch)].
    - split; [by apply valid_primitive|]. intros x Hx.
      by destruct (reachable_primitive _ _ _ Hp Hx).
    - split.
      + intros x Hx. apply Hv. by eapply reach_child.
      + intros x Hx. by eapply reach_child. }
  split; [by apply subseteq_dom|]. split; [|split].
  - eapply valid_ref; [apply lookup_insert_eq|]. intros c Hc.
    destruct (Hvc c Hc) as [Hc1 _].
    eapply valid_agree; [by apply valid_agreeOn|done].
  - intros x Hx. inversion Hx as [|? ob' c ? Hl' Hch Hr]; subst; [by right|].
    rewrite lookup_insert_eq in Hl'. injection Hl' as <-.
    destruct (Hvc c Hch) as [Hc1 Hc2]. left. apply Hc2.
    eapply reachable_agree; [|exact Hr]. by apply valid_agreeOn.
  - intros x Hx _. apply lookup_insert_ne. intros ->. by apply Hl.
Qed.

Lemma reachable_set_primitive h l props (k : string) p v x :
  h !! l = Some (OObject props) → isPrimitive p = true →
  reachable (<[l := OObject (<[k := p]> props)]> h) v x → reachable h v x.
Proof.
  intros Hl Hp Hr. induction Hr as [l0|l0 ob c x Hl0 Hc Hr IH]; [constructor|].
  destruct (decide (l0 = l)) as [->|Hne].
  - rewrite lookup_insert_eq in Hl0. injection Hl0 as <-.
    destruct Hc as [k' Hk']. apply lookup_insert_Some in Hk' as [[_ <-]|[_ Hk']].
    + by destruct (reachable_primitive _ _ _ Hp IH).
    + eapply reach_child; [exact Hl| |exact IH]. by exists k'.
  - rewrite lookup_insert_ne in Hl0 by done. by eapply reach_child.
Qed.

Lemma mutating_confined : confinedAction (action (init Samples.mutating)).
Proof.
  intros s l o opts h o' h' Hv.
  unfold Samples.mutating, Samples.heapMachine. cbn [action init].
  destruct o as [| | | | |lo]; try done.
  destruct (h !! lo) as [[props| | |]|] eqn:Hlo; try done.
  intros [= <- <-].
  assert (Hback : ∀ x, reachable (<[lo := OObject (<["accountSuffix" := VString l]> props)]> h)
                         (VRef lo) x → reachable h (VRef lo) x).
  { intros x. by apply reachable_set_primitive. }
  split; [|split; [|split]].
  - intros x Hx. apply elem_of_dom. apply elem_of_dom in Hx as [ob Hob].
    destruct (decide (lo = x)) as [->|Hne].
    + rewrite lookup_insert_eq. by eexists.
    + rewrite lookup_insert_ne by done. by eexists.
  - intros x Hx. apply Hback, Hv in Hx. apply elem_of_dom in Hx as [ob Hob].
    apply elem_of_dom. destruct (decide (lo = x)) as [->|Hne].
    + rewrite lookup_insert_eq. by eexists.
    + rewrite lookup_insert_ne by done. by eexists.
  - intros x Hx. left. by apply Hback.
  - intros x _ Hx. apply lookup_insert_ne. intros ->. apply Hx. constructor.
Qed.

Lemma replacing_shape : shapeAction (action (init Samples.replacing)).
Proof.
  intros s l opts h1 o1 h2 o2 Hv1 Hv2 Hs.
  unfold Samples.replacing, Samples.heapMachine. cbn [action init].
  destruct (alloc _ h1) as [l1 g1] eqn:E1. destruct (alloc _ h2) as [l2 g2] eqn:E2.
  destruct (alloc_spec _ _ _ _ E1) as (F1 & -> & S1).
  destruct (alloc_spec _ _ _ _ E2) as (F2 & -> & S2).
  intros [|n]; [done|]. simpl. rewrite !lookup_insert_eq. f_equal.
  rewrite !fmap_insert. f_equal; [by destruct n|].
  assert (Hch : ∀ h o k c, valid h o → spreadProps h o !! k = Some c → valid h c).
  { intros h o k c Hv Hk. apply spreadProps_lookup in Hk as [Hp|(lo & ob & -> & Hlo & Hc)].
    - by apply valid_primitive.
    - intros x Hx. apply Hv. by eapply reach_child. }
  transitivity (view n h1 <$> spreadProps h1 o1).
  { apply map_fmap_ext. intros k c Hk. apply view_insert_fresh; [done|]. by eapply Hch. }
  rewrite (spreadProps_shape _ _ _ _ Hs n).
  apply map_fmap_ext. intros k c Hk. symmetry.
  apply view_insert_fresh; [done|]. by eapply Hch.
Qed.

End Replacing.

(** C8, witness: two calls of a format whose action replaces the output by
    a copy with the account suffix filled in, and two calls of a format whose
    action fills it in place; the fragment holds an array. *)
Lemma parse_calls_isolated_witness :
  (∃ o1 h1 o2 h2,
    Heap.parseCall Samples.plainText Samples.baseOptions Samples.replacing ["1234"; "end"]
      Samples.sampleHeap = Ok (o1, h1)
    ∧ Heap.parseCall Samples.plainText Samples.baseOptions Samples.replacing ["1234"; "end"] h1
      = Ok (o2, h2)
    ∧ Heap.sameShape h2 o1 h2 o2
    ∧ (∀ x, Heap.reachable h2 o1 x → ¬ Heap.reachable h2 o2 x)
    ∧ (∀ x, Heap.reachable h2 o1 x ∨ Heap.reachable h2 o2 x → x ∉ dom Samples.sampleHeap))
  ∧ (∃ o1 h1 o2 h2,
    Heap.parseCall Samples.plainText Samples.baseOptions Samples.mutating ["1234"; "end"]
      Samples.sampleHeap = Ok (o1, h1)
    ∧ Heap.parseCall Samples.plainText Samples.baseOptions Samples.mutating ["1234"; "end"] h1
      = Ok (o2, h2)
    ∧ (∀ x, Heap.reachable h2 o1 x → ¬ Heap.reachable h2 o2 x)
    ∧ (∀ x, Heap.reachable h2 o1 x ∨ Heap.reachable h2 o2 x → x ∉ dom Samples.sampleHeap)).
Proof.
  split.
  - destruct (Heap.parseCall Samples.plainText Samples.baseOptions Samples.replacing
                ["1234"; "end"] Samples.sampleHeap) as [[o1 h1]|] eqn:E1;
      [|by vm_compute in E1].
    destruct (Heap.parseCall Samples.plainText Samples.baseOptions Samples.replacing
                ["1234"; "end"] h1) as [[o2 h2]|] eqn:E2.
    + exists o1, h1, o2, h2. split; [done|]. split; [done|].
      destruct (parse_calls_isolated Samples.plainText Samples.baseOptions Samples.replacing
                  replacing_confined (heapMachine_framed _)
                  ["1234"; "end"] Samples.sampleHeap o1 h1 o2 h2)
        as (H1 & H2 & H3 & _); [reflexivity| |done|done|].
      * intros v [= <-]. apply sampleHeap_fragment_valid.
      * split; [|by auto]. apply H1; [apply replacing_shape|apply heapMachine_shapeNext].
    + exfalso. vm_compute in E1. injection E1 as <- <-. by vm_compute in E2.
  - destruct (Heap.parseCall Samples.plainText Samples.baseOptions Samples.mutating
                ["1234"; "end"] Samples.sampleHeap) as [[o1 h1]|] eqn:E1;
      [|by vm_compute in E1].
    destruct (Heap.parseCall Samples.plainText Samples.baseOptions Samples.mutating
                ["1234"; "end"] h1) as [[o2 h2]|] eqn:E2.
    + exists o1, h1, o2, h2. split; [done|]. split; [done|].
      destruct (parse_calls_isolated Samples.plainText Samples.baseOptions Samples.mutating
                  mutating_confined (heapMachine_framed _)
                  ["1234"; "end"] Samples.sampleHeap o1 h1 o2 h2)
        as (_ & H2 & H3 & _); [reflexivity| |done|done|by auto].
      intros v [= <-]. apply sampleHeap_fragment_valid.
    + exfalso. vm_compute in E1. injection E1 as <- <-. by vm_compute in E2.
Defined.

(** C8 as stated fails: with an action that returns an object of its own,
    the two calls return one and the same object, which existed before
    them. *)
Lemma shared_output_is_aliased :
  ∃ h1 h2,
    Heap.parseCall Samples.plainText Samples.baseOptions Samples.sharing ["end"]
      Samples.sampleHeap = Ok (VRef 1%positive, h1)
    ∧ Heap.parseCall Samples.plainText Samples.baseOptions Samples.sharing ["end"] h1
      = Ok (VRef 1%positive, h2)
    ∧ Heap.reachable h2 (VRef 1%positive) 1%positive
    ∧ 1%positive ∈ dom Samples.sampleHeap.
Proof.
  eexists _, _. split; [vm_compute; reflexivity|]. split; [vm_compute; reflexivity|].
  split; [constructor|]. apply elem_of_dom. by eexists.
Qed.

(* ===================================================================== *)
(** * Further properties                                                   *)
(* ===================================================================== *)

(** ** More on the engine *)

Section EngineOutcomes.
Context {W StateType OutputType InitOutputType : Type}.
Context `{!EqDecision StateType}.
Context `{!Machine.ParsedOutputLike W OutputType InitOutputType}.
Import Machine.

Variable m : CreateStateMachineInput W StateType OutputType InitOutputType.
Variable po : options.

(** A returned output is the output at the end state, after some prefix. *)
Lemma runLoop_ok (inputs : list string) :
  ∀ s o w o' w',
    snd (runLoop m po s o w inputs) = Ok (o', w') →
    ∃ n, consume m po s o w (take n inputs) = Some (endState (init m), o', w')
         ∧ falsy (accountSuffixOf o' w') = false.
Proof.
  induction inputs as [|l inputs IH]; intros s o w o' w'; simpl.
  - case_decide as Hs; [|done]. simpl. unfold finish.
    destruct (falsy _) eqn:F; [done|]. intros [= <- <-]. exists 0. by subst.
  - case_decide as Hs.
    + simpl. unfold finish.
      destruct (falsy _) eqn:F; [done|]. intros [= <- <-]. exists 0. by subst.
    + destruct (action _ _ _ _ _ _) as [[o1 w1]|] eqn:Ea; [|done].
      destruct (next _ _ _ _) as [[s1 w2]|] eqn:En; [|done].
      specialize (IH s1 o1 w2 o' w'). destruct (runLoop _ _ _ _ _ _). simpl in *.
      intros Hr. destruct (IH Hr) as (n & Hc & F). exists (S n).
      split; [|done]. simpl. rewrite decide_False by done. by rewrite Ea, En.
Qed.

(** The ways in which the loop throws. *)
Lemma runLoop_thrown (inputs : list string) :
  ∀ s o w e,
    snd (runLoop m po s o w inputs) = Thrown e →
    (∃ s' o' w', consume m po s o w inputs = Some (s', o', w')
                 ∧ s' ≠ endState (init m) ∧ e = endOfInputError o' w')
    ∨ (∃ n o' w', consume m po s o w (take n inputs) = Some (endState (init m), o', w')
                  ∧ falsy (accountSuffixOf o' w') = true ∧ e = incompleteError o' w')
    ∨ (∃ n l s' o' w1 e',
          inputs !! n = Some l
          ∧ consume m po s o w (take n inputs) = Some (s', o', w1)
          ∧ s' ≠ endState (init m)
          ∧ (action (init m) s' l o' po w1 = Thrown e'
             ∨ ∃ o2 w2, action (init m) s' l o' po w1 = Ok (o2, w2)
                        ∧ next (init m) s' l w2 = Thrown e')
          ∧ e = inFile (filePath m) e').
Proof.
  induction inputs as [|l inputs IH]; intros s o w e; simpl.
  - case_decide as Hs.
    + simpl. unfold finish. destruct (falsy _) eqn:F; [|done]. intros [= <-].
      right. left. exists 0, o, w. by subst.
    + simpl. intros [= <-]. left. by exists s, o, w.
  - case_decide as Hs.
    + simpl. unfold finish. destruct (falsy _) eqn:F; [|done]. intros [= <-].
      right. left. exists 0, o, w. by subst.
    + destruct (action _ _ _ _ _ _) as [[o1 w1]|e1] eqn:Ea.
      * destruct (next _ _ _ _) as [[s1 w2]|e1] eqn:En.
        -- specialize (IH s1 o1 w2 e). destruct (runLoop _ _ _ _ _ _). simpl in *.
           intros Hr.
           destruct (IH Hr) as [(s' & o' & w' & Hc & Hs' & ->)
                               |[(n & o' & w' & Hc & F & ->)
                                |(n & l' & s' & o' & w3 & e' & Hl & Hc & Hs' & Hth & ->)]].
           ++ left. by exists s', o', w'.
           ++ right. left. exists (S n), o', w'. split; [|done].
              simpl. rewrite decide_False by done. by rewrite Ea, En.
           ++ right. right. exists (S n), l', s', o', w3, e'.
              split; [done|]. split; [|done].
              simpl. rewrite decide_False by done. by rewrite Ea, En.
        -- simpl. intros [= <-]. right. right. exists 0, l, s, o, w, e1.
           split; [done|]. split; [done|]. split; [done|]. split; [|done].
           right. by exists o1, w1.
      * simpl. intros [= <-]. right. right. exists 0, l, s, o, w, e1.
        split; [done|]. split; [done|]. split; [done|]. split; [|done]. by left.
Qed.

(** More lines change a run only when it ran out of lines. *)
Lemma runLoop_more_lines (inputs extra : list string) :
  ∀ s o w,
    (∀ s' o' w', consume m po s o w inputs = Some (s', o', w') → s' = endState (init m)) →
    runLoop m po s o w (inputs ++ extra) = runLoop m po s o w inputs.
Proof.
  induction inputs as [|l inputs IH]; intros s o w Hend.
  - rewrite (Hend s o w eq_refl). by rewrite !runLoop_at_end.
  - simpl. case_decide as Hs; [done|].
    destruct (action _ _ _ _ _ _) as [[o1 w1]|e1] eqn:Ea; [|done].
    destruct (next _ _ _ _) as [[s1 w2]|e1] eqn:En; [|done].
    rewrite IH; [done|]. intros s' o' w' Hc. apply (Hend s' o' w').
    simpl. rewrite decide_False by done. by rewrite Ea, En.
Qed.

End EngineOutcomes.

Section EngineExtras.
Context {W StateType OutputType InitOutputType : Type}.
Context `{!EqDecision StateType}.
Context `{!Machine.ParsedOutputLike W OutputType InitOutputType}.
Import Machine.

Variable base : options.
Variable m : CreateStateMachineInput W StateType OutputType InitOutputType.

(** X1. A parse returns an output exactly when the end state is reached after
    some prefix of the lines with a truthy [accountSuffix]; the output
    returned is the output at that point. *)
Theorem parse_returns_at_end_state (inputs : list string) (w : W) o w' :
  createParserStateMachine base m inputs w = Ok (o, w')
  ↔ ∃ n, runTo base m w (take n inputs) = Some (endState (init m), o, w')
         ∧ falsy (accountSuffixOf o w') = false.
Proof.
  split.
  - unfold createParserStateMachine, runStateMachine, runTo.
    destruct (firstOutput base m w) as [[o0 w0]|]; [|done].
    apply runLoop_ok.
  - intros (n & Hrun & F). unfold createParserStateMachine.
    rewrite <- (take_drop n inputs), (run_after _ _ _ _ _ _ _ _ Hrun), runLoop_at_end.
    simpl. unfold finish. by rewrite F.
Qed.

(** X2. Every error of a parse is one of: the error of building the starting
    output; the end-of-input error, after all lines were consumed outside the
    end state; the incomplete-output error, at the end state; and, when the
    action or the transition function threw on a line, either the object it
    threw, with the file suffix appended to its message, or, for a thrown
    value that does not take the assignment of line 125, the [TypeError] of
    that line. *)
Theorem parse_errors_are_classified (inputs : list string) (w : W) (e : Error) :
  createParserStateMachine base m inputs w = Thrown e →
  firstOutput base m w = Thrown e
  ∨ (∃ s o w', runTo base m w inputs = Some (s, o, w')
               ∧ s ≠ endState (init m)
               ∧ e = mkError ("Reached end of input before hitting end state on "
                              +:+ filePathText o w'))
  ∨ (∃ n o w', runTo base m w (take n inputs) = Some (endState (init m), o, w')
               ∧ falsy (accountSuffixOf o w') = true
               ∧ e = mkError ("Parse completed without filling in account suffix on "
                              +:+ filePathText o w'))
  ∨ (∃ n l s o w1 t,
        inputs !! n = Some l
        ∧ runTo base m w (take n inputs) = Some (s, o, w1)
        ∧ s ≠ endState (init m)
        ∧ (action (init m) s l o (optionsOf base m) w1 = Thrown t
           ∨ ∃ o2 w2, action (init m) s l o (optionsOf base m) w1 = Ok (o2, w2)
                      ∧ next (init m) s l w2 = Thrown t)
        ∧ ((∃ e', t = ErrorObject e'
                  ∧ e = mkError (message e' +:+ " in file: " +:+ filePath m))
           ∨ ∃ what, t = Unwritable what e)).
Proof.
  unfold createParserStateMachine, runStateMachine, runTo.
  destruct (firstOutput base m w) as [[o0 w0]|e0]; [|by left].
  intros Hr. right.
  destruct (runLoop_thrown _ _ _ _ _ _ _ Hr)
    as [H1|[H2|(n & l & s & o & w1 & t & Hl & Hc & Hs & Ht & ->)]];
    [by left|by right; left|].
  right. right. exists n, l, s, o, w1, t. repeat (split; [done|]).
  destruct t as [e'|what raised]; [left; by exists e'|right; by exists what].
Qed.

(** X3. Lines appended to the input change nothing, calls included, unless the
    run had consumed every line without reaching the end state. *)
Theorem more_lines_matter_only_after_end_of_input (inputs extra : list string) (w : W) :
  (∀ s o w', runTo base m w inputs = Some (s, o, w') → s = endState (init m)) →
  runStateMachine base m (inputs ++ extra) w = runStateMachine base m inputs w.
Proof.
  unfold runStateMachine, runTo.
  destruct (firstOutput base m w) as [[o0 w0]|e0]; [|done].
  apply runLoop_more_lines.
Qed.

End EngineExtras.

(** X4. On an empty line sequence a format definition without [initOutput] never
    returns an output and none of its functions is called: the parse throws
    the end-of-input error, or the incomplete-output error when the initial
    state is the end state; either names the file. *)
Theorem empty_input_never_parses {StateType T} `{!EqDecision StateType} (base : options)
    (m : Machine.CreateStateMachineInput unit StateType (Plain.ParsedOutput T) Empty_set) :
  Machine.runStateMachine base m [] tt
  = ([], Thrown (mkError
       ((if decide (Machine.initialState (Machine.init m) = Machine.endState (Machine.init m))
         then "Parse completed without filling in account suffix on "
         else "Reached end of input before hitting end state on ")
        +:+ Machine.filePath m))).
Proof.
  unfold Machine.runStateMachine, Machine.firstOutput. simpl.
  by case_decide.
Qed.

(** ** The starting output *)

Section StartingOutput.
Import Machine Heap HeapNotions.

Implicit Types (h g : heap) (v : value) (x l : loc).

Lemma stringify_new_empty h lT :
  lT ∉ dom h →
  stringify (size (<[lT := OObject ∅]> h)) [] (<[lT := OObject ∅]> h) (VRef lT)
  = Ok (Some (JObject [])).
Proof.
  intros Hl. rewrite map_size_insert_None by by apply not_elem_of_dom.
  rewrite stringify_ref, lookup_insert_eq.
  rewrite bool_decide_false by by intros ?%elem_of_nil.
  by rewrite map_to_list_empty.
Qed.

(** With no [initOutput], or a falsy one, the starting output is built
    without fail and is a new object with the properties of the scaffold. *)
Lemma buildOutput_scaffold (path : string) (yp : value)
    (initOutput : option value) h :
  initOutput = None ∨ (∃ v, initOutput = Some v ∧ falsy v = true) →
  ∃ lO lI lE h',
    Heap.buildOutput path yp initOutput h = Ok (VRef lO, h')
    ∧ h' !! lO = Some (OObject (scaffold lI lE path yp))
    ∧ h' !! lI = Some (OArray []) ∧ h' !! lE = Some (OArray [])
    ∧ lI ≠ lE ∧ (lI ∉ dom h) ∧ (lE ∉ dom h) ∧ (lO ∉ dom h)
    ∧ h ⊆ h'.
Proof.
  intros Hinit. unfold Heap.buildOutput.
  destruct (alloc (OArray []) h) as [lI h1] eqn:E1.
  destruct (alloc (OArray []) h1) as [lE h2] eqn:E2.
  destruct (alloc (OObject (scaffold lI lE path yp)) h2) as [lS h3] eqn:E3.
  destruct (alloc (OObject ∅) h3) as [lT h4] eqn:E4.
  assert (Es : match initOutput with
               | Some v =>
                   if falsy v then (λ '(l, h'), (VRef l, h')) (lT, h4) else (v, h3)
               | None => (λ '(l, h'), (VRef l, h')) (lT, h4)
               end = (VRef lT, h4)).
  { by destruct Hinit as [->|(v & -> & ->)]. }
  rewrite Es. clear Es.
  destruct (alloc_spec _ _ _ _ E1) as (F1 & -> & S1).
  destruct (alloc_spec _ _ _ _ E2) as (F2 & -> & S2).
  destruct (alloc_spec _ _ _ _ E3) as (F3 & -> & S3).
  destruct (alloc_spec _ _ _ _ E4) as (F4 & -> & S4).
  clear E1 E2 E3 E4.
  rewrite stringify_new_empty by done.
  rewrite parse_JObject. cbn [parseMembers].
  destruct (alloc (OObject ∅) _) as [lC h5] eqn:E5.
  destruct (alloc_spec _ _ _ _ E5) as (F5 & -> & S5). clear E5.
  destruct (alloc _ _) as [lO h6] eqn:E6.
  destruct (alloc_spec _ _ _ _ E6) as (F6 & -> & S6).
  set (h1 := <[lI := OArray []]> h) in *.
  set (h2 := <[lE := _]> h1) in *.
  set (h3 := <[lS := _]> h2) in *.
  set (h4 := <[lT := _]> h3) in *.
  set (h5 := <[lC := _]> h4) in *.
  assert (S05 : h ⊆ h5) by (do 4 (etrans; [eassumption|]); done).
  assert (HS : h5 !! lS = Some (OObject (scaffold lI lE path yp))).
  { eapply lookup_weaken; [apply lookup_insert_eq|]. by etrans. }
  assert (HI : h5 !! lI = Some (OArray [])).
  { eapply lookup_weaken; [apply lookup_insert_eq|]. do 3 (etrans; [eassumption|]). done. }
  assert (HE : h5 !! lE = Some (OArray [])).
  { eapply lookup_weaken; [apply lookup_insert_eq|]. do 2 (etrans; [eassumption|]). done. }
  assert (HC : h5 !! lC = Some (OObject ∅)) by apply lookup_insert_eq.
  exists lO, lI, lE, (<[lO := OObject (spreadProps h5 (VRef lC) ∪ spreadProps h5 (VRef lS))]> h5).
  split; [done|]. split.
  { rewrite lookup_insert_eq. simpl. rewrite HC, HS. by rewrite (left_id_L ∅ (∪)). }
  split; [by eapply lookup_weaken|]. split; [by eapply lookup_weaken|].
  split.
  { intros ->. apply F2. apply elem_of_dom. eexists. apply lookup_insert_eq. }
  split; [done|]. split.
  { intros Hin. apply F2. by apply (subseteq_dom _ _ S1). }
  split.
  { intros Hin. apply F6. by apply (subseteq_dom _ _ S05). }
  by etrans.
Qed.

(** X5. With no [initOutput], or a falsy one ([null], [0], ['']), the starting
    output is built without fail and reads as the scaffold: the file path,
    the resolved [yearPrefix], an empty [accountSuffix], no dates, and two
    distinct new empty arrays for [incomes] and [expenses]. No object that
    existed is changed. *)
Theorem starting_output_is_the_scaffold (path : string) (yp : value)
    (initOutput : option value) h :
  initOutput = None ∨ (∃ v, initOutput = Some v ∧ falsy v = true) →
  ∃ o h' lI lE,
    Heap.buildOutput path yp initOutput h = Ok (o, h')
    ∧ getField h' o "filePath" = VString path
    ∧ getField h' o "yearPrefix" = yp
    ∧ getField h' o "accountSuffix" = VString ""
    ∧ getField h' o "startDate" = VUndefined
    ∧ getField h' o "endDate" = VUndefined
    ∧ getField h' o "incomes" = VRef lI
    ∧ getField h' o "expenses" = VRef lE
    ∧ h' !! lI = Some (OArray []) ∧ h' !! lE = Some (OArray [])
    ∧ lI ≠ lE ∧ (lI ∉ dom h) ∧ (lE ∉ dom h)
    ∧ h ⊆ h'.
Proof.
  intros Hinit.
  destruct (buildOutput_scaffold path yp initOutput h Hinit)
    as (lO & lI & lE & h' & E & HO & HI & HE & Hne & FI & FE & _ & Hsub).
  exists (VRef lO), h', lI, lE. split; [done|].
  unfold getField. rewrite HO. by repeat split.
Qed.









End StartingOutput.

Section Fragment.
Import Machine Heap.

Implicit Types (h g : heap) (v : value) (x l : loc).






End Fragment.

Section FragmentFields.
Import Machine Heap HeapNotions.

Implicit Types (h g : heap) (v : value) (x l : loc).





End FragmentFields.

(** ** The parser closure *)

Section ParserClosure.
Context {W StateType OutputType InitOutputType Keyword : Type}.
Context `{!EqDecision StateType}.
Context `{!Machine.ParsedOutputLike W OutputType InitOutputType}.
Import Machine Orchestrator.

Variable readPdf : PdfProcessing W.
Variable base : options.

(** X8. A format definition that gives [pdfProcessing: undefined] overrides the
    default reader with [undefined]: it registers, and every call of its
    parser throws before anything is read. *)
Theorem undefined_pdfProcessing_disables_the_parser
    (rawInputs : CreateStatementParserInput W StateType OutputType InitOutputType Keyword) :
  pdfProcessing rawInputs = Some None →
  ∃ p, createStatementParser readPdf base rawInputs = Ok p
       ∧ ∀ args w, parser p args w = Thrown (mkError "Missing pdf processing method").
Proof.
  intros Hp. eexists. split; [done|]. intros args w. simpl.
  unfold parse, mergedPdfProcessing. by rewrite Hp.
Qed.

(** X9. What the parser returns is the output of the state machine run on the
    lines of all pages, for the file path and the options of the call. The
    validator is called on that output and what it returns is dropped: it can
    reject the output, not replace it. *)
Theorem parser_returns_the_machine_output
    (rawInputs : CreateStatementParserInput W StateType OutputType InitOutputType Keyword)
    (args : ParseFunctionInputs) (w w' : W) (o : OutputType) :
  parse readPdf base rawInputs args w = Ok (o, w') →
  ∃ process pages w1 w2,
    (pdfProcessing rawInputs = Some (Some process)
     ∨ pdfProcessing rawInputs = None ∧ process = readPdf)
    ∧ process (parseFilePath args) w = Ok (pages, w1)
    ∧ createParserStateMachine base
        {| init := initInput rawInputs;
           filePath := parseFilePath args;
           inputParserOptions := parseInputParserOptions args |}
        (flatten2dArray pages) w1 = Ok (o, w2)
    ∧ match outputValidation rawInputs with
      | None => w' = w2
      | Some validate => ∃ u, validate o w2 = Ok (u, w')
      end.
Proof.
  unfold parse, mergedPdfProcessing.
  destruct (pdfProcessing rawInputs) as [[process|]|] eqn:Ep; [| done |].
  - destruct (process _ _) as [[pages w1]|] eqn:E1; [|done].
    destruct (createParserStateMachine _ _ _ _) as [[o2 w2]|] eqn:E2; [|done].
    destruct (outputValidation rawInputs) as [validate|] eqn:Ev.
    + destruct (validate o2 w2) as [[u w3]|] eqn:E3; [|done].
      intros [= <- <-]. exists process, pages, w1, w2.
      split; [by left|]. split; [done|]. split; [done|]. by exists u.
    + intros [= <- <-]. exists process, pages, w1, w2.
      split; [by left|]. split; [done|]. by split.
  - unfold createStatementParserInputDefault.
    destruct (readPdf _ _) as [[pages w1]|] eqn:E1; [|done].
    destruct (createParserStateMachine _ _ _ _) as [[o2 w2]|] eqn:E2; [|done].
    destruct (outputValidation rawInputs) as [validate|] eqn:Ev.
    + destruct (validate o2 w2) as [[u w3]|] eqn:E3; [|done].
      intros [= <- <-]. exists readPdf, pages, w1, w2.
      split; [by right|]. split; [done|]. split; [done|]. by exists u.
    + intros [= <- <-]. exists readPdf, pages, w1, w2.
      split; [by right|]. split; [done|]. by split.
Qed.

End ParserClosure.

(** X10. The exported PayPal parser reads the file with the default reader and
    runs the PayPal state machine on the lines of all its pages. *)
Theorem paypal_parser_runs_the_paypal_machine `{Paypal.Augments}
    (readPdf : Orchestrator.PdfProcessing unit) (base : options) (enumValues : list string)
    (args : Orchestrator.ParseFunctionInputs) :
  Orchestrator.parse readPdf base (Paypal.paypalInput enumValues) args tt
  = match readPdf (Orchestrator.parseFilePath args) tt with
    | Thrown e => Thrown e
    | Ok (pages, _) =>
        Machine.createParserStateMachine base
          (Paypal.paypalMachine (Orchestrator.parseFilePath args)
             (Orchestrator.parseInputParserOptions args))
          (Orchestrator.flatten2dArray pages) tt
    end.
Proof.
  unfold Orchestrator.parse. simpl. unfold Orchestrator.createStatementParserInputDefault.
  destruct (readPdf _ _) as [[pages []]|]; [|done].
  change (Orchestrator.stateMachineInputs (Paypal.paypalInput enumValues) args)
    with (Paypal.paypalMachine (Orchestrator.parseFilePath args)
            (Orchestrator.parseInputParserOptions args)).
  by destruct (Machine.createParserStateMachine _ _ _ _) as [[o []]|].
Qed.

(** ** Runs of the PayPal format *)

Section EngineConsume.
Context {W StateType OutputType InitOutputType : Type}.
Context `{!EqDecision StateType}.
Context `{!Machine.ParsedOutputLike W OutputType InitOutputType}.
Import Machine.

Variable m : CreateStateMachineInput W StateType OutputType InitOutputType.
Variable po : options.

(** What every step keeps on the lines at hand holds after they are
    consumed. *)
Lemma consume_invariant (Inv : StateType → OutputType → W → Prop) (P : string → Prop) :
  (∀ s l o w o1 w1 s1 w2,
      P l → s ≠ endState (init m) → Inv s o w →
      action (init m) s l o po w = Ok (o1, w1) →
      next (init m) s l w1 = Ok (s1, w2) → Inv s1 o1 w2) →
  ∀ lines s o w s' o' w',
    Forall P lines → Inv s o w →
    consume m po s o w lines = Some (s', o', w') → Inv s' o' w'.
Proof.
  intros Hstep. induction lines as [|l lines IH]; intros s o w s' o' w' HP Hi; simpl.
  - by intros [= <- <- <-].
  - apply Forall_cons in HP as [Hl HP]. case_decide as Hs; [done|].
    destruct (action _ _ _ _ _ _) as [[o1 w1]|] eqn:Ea; [|done].
    destruct (next _ _ _ _) as [[s1 w2]|] eqn:En; [|done].
    apply IH; [done|]. by eapply Hstep.
Qed.

End EngineConsume.

Section PaypalRuns.
Import Machine Paypal RegExp Numeric PaypalNotions RegExpNotions.
Context `{Augments}.
Variable base : options.
Variable path : string.
Variable caller : option options.

Local Abbreviation pm := (paypalMachine path caller).

Lemma paypal_consume_invariant (Inv : State → PaypalOutput → Prop) (P : string → Prop)
    (po : options) :
  (∀ s l o o', P l → s ≠ End_ → Inv s o →
     performStateAction s l o = Ok o' → Inv (nextState s l) o') →
  ∀ lines s o s' o' w',
    Forall P lines → Inv s o →
    consume pm po s o tt lines = Some (s', o', w') → Inv s' o'.
Proof.
  intros Hstep lines s o s' o' w' HP Hi Hc.
  refine (consume_invariant pm po (λ s o _, Inv s o) P _ lines s o tt s' o' w' HP Hi Hc).
  clear -Hstep. intros s l o w o1 w1 s1 w2 Hl Hs Hi.
  cbn [action next init paypalMachine paypalInput Orchestrator.initInput].
  unfold Plain.pureCall. destruct (performStateAction s l o) as [o2|] eqn:Ea; [|done].
  simpl. intros [= <- <-] [= <- <-]. by eapply Hstep.
Qed.

Lemma paypal_runTo (lines : list string) s o w :
  runTo base pm tt lines = Some (s, o, w) →
  consume pm (optionsOf base pm) Header
    (Plain.startingOutput path (getProp (optionsOf base pm) "yearPrefix")) tt lines
  = Some (s, o, w).
Proof. done. Qed.

Lemma paypal_runTo_invariant (Inv : State → PaypalOutput → Prop) (P : string → Prop) :
  (∀ s l o o', P l → s ≠ End_ → Inv s o →
     performStateAction s l o = Ok o' → Inv (nextState s l) o') →
  Inv Header (Plain.startingOutput path (getProp (optionsOf base pm) "yearPrefix")) →
  ∀ lines s o w, Forall P lines → runTo base pm tt lines = Some (s, o, w) → Inv s o.
Proof.
  intros Hstep H0 lines s o w HP Hr.
  by eapply (paypal_consume_invariant Inv P), paypal_runTo.
Qed.

Lemma paypal_ok_invariant (Inv : State → PaypalOutput → Prop) (P : string → Prop) :
  (∀ s l o o', P l → s ≠ End_ → Inv s o →
     performStateAction s l o = Ok o' → Inv (nextState s l) o') →
  Inv Header (Plain.startingOutput path (getProp (optionsOf base pm) "yearPrefix")) →
  ∀ inputs o w, Forall P inputs →
    createParserStateMachine base pm inputs tt = Ok (o, w) → Inv End_ o.
Proof.
  intros Hstep H0 inputs o w HP Hr.
  unfold createParserStateMachine, runStateMachine, firstOutput in Hr.
  cbn [buildOutput Plain.plainOutput] in Hr.
  apply runLoop_ok in Hr as (n & Hc & _).
  eapply (paypal_consume_invariant Inv P); [done| |done|exact Hc].
  apply Forall_take, HP.
Qed.

(** *** The transition function *)

Lemma nextState_notice (s : State) (l : string) :
  isNotice l = true → nextState s l = End_.
Proof. unfold isNotice, nextState. by intros ->. Qed.

Lemma nextState_End (s : State) (l : string) :
  nextState s l = End_ → s = End_ ∨ isNotice l = true.
Proof.
  unfold isNotice, nextState.
  destruct (includes MustNotify _); [by right|].
  destruct s; try done.
  - destruct (includes Statement _); [done|]. by destruct (isNone _).
  - destruct (match_ _ transactionStartRegExp) as [[|a [|b [|c [|d [|e [|]]]]]]|];
      try by destruct (isNone _).
    by destruct (ltZero _).
  - by case_decide.
  - by case_decide.
  - by case_decide.
  - by left.
Qed.

End PaypalRuns.

(** ** Patterns under [toLowerCase] *)

Section Lowercase.
Import Text RegExp RegExpNotions.

Ltac each_char c := destruct c as [[] [] [] [] [] [] [] []]; vm_compute; reflexivity.

Lemma upper_lowerChar (c : ascii) : upperChar (lowerChar c) = upperChar c.
Proof. each_char c. Qed.

Lemma isDigit_lowerChar (c : ascii) : isDigit (lowerChar c) = isDigit c.
Proof. each_char c. Qed.

Lemma isWord_lowerChar (c : ascii) : isWord (lowerChar c) = isWord c.
Proof. each_char c. Qed.

Lemma isSpace_lowerChar (c : ascii) : isSpace (lowerChar c) = isSpace c.
Proof. each_char c. Qed.

Lemma isLineTerminator_lowerChar (c : ascii) :
  isLineTerminator (lowerChar c) = isLineTerminator c.
Proof. each_char c. Qed.

Lemma matchesClass_lowerChar (k : charClass) (c : ascii) :
  matchesClass true k (lowerChar c) = matchesClass true k c.
Proof.
  induction k as [a| | | | |a IHa b IHb]; simpl.
  - unfold canon. by rewrite upper_lowerChar.
  - apply isDigit_lowerChar.
  - apply isWord_lowerChar.
  - apply isSpace_lowerChar.
  - by rewrite isLineTerminator_lowerChar.
  - by rewrite IHa, IHb.
Qed.

Lemma toLowerCase_app (a b : string) :
  toLowerCase (a +:+ b) = toLowerCase a +:+ toLowerCase b.
Proof.
  induction a as [|c a IH]; [done|].
  change (String (lowerChar c) (toLowerCase (a +:+ b))
          = String (lowerChar c) (toLowerCase a +:+ toLowerCase b)).
  by rewrite IH.
Qed.

Lemma toLowerCase_rev (g : string) : toLowerCase (String.rev g) = String.rev (toLowerCase g).
Proof.
  assert (H : ∀ acc, toLowerCase (String.rev_app g acc)
                     = String.rev_app (toLowerCase g) (toLowerCase acc)).
  { induction g as [|c g IH]; intros acc; [done|]. apply (IH (String c acc)). }
  apply (H "").
Qed.

Lemma toLowerCase_empty (s : string) : toLowerCase s = "" ↔ s = "".
Proof. by destruct s. Qed.

Lemma orElse_map {A B} (f : A → B) (x y : option A) :
  orElse (option_map f x) (option_map f y) = option_map f (orElse x y).
Proof. by destruct x. Qed.

Lemma take1_lower (c : ascii) (st : matchState) :
  take1 (lowerChar c) (lowerState st) = lowerState (take1 c st).
Proof. unfold take1, lowerState. simpl. by destruct (opened st). Qed.

Lemma repeatClass_lower (k : charClass) (min : nat) (max : option nat) (greedy : bool)
    (rest rest' : string → matchState → option (list string)) :
  (∀ s st, rest' (toLowerCase s) (lowerState st)
           = option_map (map toLowerCase) (rest s st)) →
  ∀ s n st,
    repeatClass true k min max greedy rest' n (toLowerCase s) (lowerState st)
    = option_map (map toLowerCase) (repeatClass true k min max greedy rest n s st).
Proof.
  intros Hrest. induction s as [|c s IH]; intros n st.
  - pose proof (Hrest "" st) as H0. cbn [toLowerCase] in H0.
    cbn [toLowerCase repeatClass]. rewrite H0.
    destruct greedy; destruct (min <=? n)%nat; simpl; try done;
      by destruct (rest "" st).
  - cbn [toLowerCase repeatClass]. rewrite matchesClass_lowerChar, take1_lower, IH.
    specialize (Hrest (String c s) st). cbn [toLowerCase] in Hrest. rewrite Hrest.
    destruct greedy.
    + destruct (belowMax n max && matchesClass true k c);
        destruct (min <=? n)%nat; by rewrite <- ?orElse_map.
    + destruct (belowMax n max && matchesClass true k c);
        destruct (min <=? n)%nat; by rewrite <- ?orElse_map.
Qed.

Lemma matchHere_lower (p : list atom) :
  ∀ s st,
    matchHere true p (toLowerCase s) (lowerState st)
    = option_map (map toLowerCase) (matchHere true p s st).
Proof.
  induction p as [|a p IH]; intros s st.
  - simpl. by rewrite map_rev.
  - destruct a as [k min max greedy| | | |]; cbn [matchHere].
    + by apply repeatClass_lower.
    + apply (IH s {| pos := pos st; closed := closed st; opened := Some "" |}).
    + rewrite <- IH. f_equal. unfold lowerState. simpl.
      destruct (opened st) as [g|]; simpl; [|done]. by rewrite toLowerCase_rev.
    + simpl. case_decide; [apply IH|done].
    + destruct s; simpl; [apply (IH "")|done].
Qed.

Lemma search_lower (re : regex) :
  ignoreCase re = true →
  ∀ s n, search re n (toLowerCase s) = option_map (map toLowerCase) (search re n s).
Proof.
  intros Hci. induction s as [|c s IH]; intros n.
  - pose proof (matchHere_lower (atoms re) "" {| pos := n; closed := []; opened := None |})
      as H0.
    cbn [toLowerCase search]. rewrite Hci.
    change (matchHere true (atoms re) "" {| pos := n; closed := []; opened := None |}
            = option_map (map toLowerCase)
                (matchHere true (atoms re) "" {| pos := n; closed := []; opened := None |}))
      in H0.
    destruct (matchHere true (atoms re) "" _); simpl in *; congruence.
  - pose proof (matchHere_lower (atoms re) (String c s)
                  {| pos := n; closed := []; opened := None |}) as H0.
    cbn [toLowerCase search]. rewrite Hci, IH.
    rewrite <- orElse_map. f_equal. exact H0.
Qed.

(** Under the [i] flag a pattern matches the lower-cased text where it
    matches the text, and captures the lower-cased groups. *)
Lemma match_lower (re : regex) (s : string) :
  ignoreCase re = true →
  match_ (toLowerCase s) re = option_map (map toLowerCase) (match_ s re).
Proof. intros Hci. by apply search_lower. Qed.

(** *** The last group of a pattern *)

Lemma repeatClass_rest {R} ci k min max greedy (rest : string → matchState → option R) :
  ∀ s n st r,
    repeatClass ci k min max greedy rest n s st = Some r →
    ∃ s' st', rest s' st' = Some r.
Proof.
  induction s as [|c s IH]; intros n st r; simpl.
  - destruct greedy; destruct (min <=? n)%nat; simpl; try done; eauto.
    destruct (rest "" st) eqn:E; [|done]. intros [= <-]. eauto.
  - destruct (belowMax n max && matchesClass ci k c).
    + destruct greedy.
      * destruct (repeatClass _ _ _ _ _ _ _ _ _) eqn:E; simpl.
        -- intros [= <-]. eauto.
        -- destruct (min <=? n)%nat; [eauto|done].
      * destruct (min <=? n)%nat.
        -- destruct (rest (String c s) st) eqn:E; simpl; [intros [= <-]; eauto|eauto].
        -- simpl. eauto.
    + destruct greedy; destruct (min <=? n)%nat; simpl; try done; eauto.
      destruct (rest (String c s) st) eqn:E; [|done]. intros [= <-]. eauto.
Qed.

Lemma matchHere_tail ci (p q : list atom) :
  ∀ s st r, matchHere ci (p ++ q) s st = Some r → ∃ s' st', matchHere ci q s' st' = Some r.
Proof.
  induction p as [|a p IH]; intros s st r; [eauto|].
  destruct a as [k min max greedy| | | |]; cbn [app matchHere].
  - intros (s' & st' & Hr)%repeatClass_rest. eauto.
  - apply IH.
  - apply IH.
  - case_decide; [apply IH|done].
  - destruct s; [apply IH|done].
Qed.

Lemma allChars_app f (a b : string) : allChars f (a +:+ b) = allChars f a && allChars f b.
Proof.
  induction a as [|c a IH]; [done|].
  change (f c && allChars f (a +:+ b) = f c && allChars f a && allChars f b).
  rewrite IH. by destruct (f c).
Qed.

Lemma allChars_rev f (g : string) : allChars f (String.rev g) = allChars f g.
Proof.
  assert (H : ∀ acc, allChars f (String.rev_app g acc) = allChars f g && allChars f acc).
  { induction g as [|c g IH]; intros acc; [done|].
    simpl. rewrite IH. simpl. by destruct (f c), (allChars f g). }
  unfold String.rev. rewrite H. simpl. by destruct (allChars f g).
Qed.

(** Inside a group, a repeated class adds characters of the class only. *)
Lemma repeatClass_group ci k min max greedy (q : list atom) :
  ∀ s n st g r,
    opened st = Some g → allChars (matchesClass ci k) g = true →
    repeatClass ci k min max greedy (matchHere ci (Close :: q)) n s st = Some r →
    ∃ s' st' g', matchHere ci (Close :: q) s' st' = Some r
                 ∧ opened st' = Some g' ∧ allChars (matchesClass ci k) g' = true
                 ∧ closed st' = closed st.
Proof.
  induction s as [|c s IH]; intros n st g r Hg Hall.
  - cbn [repeatClass].
    destruct greedy; destruct (min <=? n)%nat; simpl; try done;
      intros Hr; exists "", st, g; by destruct (matchHere ci q "" _).
  - cbn [repeatClass].
    assert (Hstop : ∀ r, matchHere ci (Close :: q) (String c s) st = Some r →
              ∃ s' st' g', matchHere ci (Close :: q) s' st' = Some r
                 ∧ opened st' = Some g' ∧ allChars (matchesClass ci k) g' = true
                 ∧ closed st' = closed st).
    { intros r' Hr. by exists (String c s), st, g. }
    destruct (belowMax n max && matchesClass ci k c) eqn:Hm.
    + apply andb_true_iff in Hm as [_ Hm].
      assert (Hmore : ∀ r, repeatClass ci k min max greedy (matchHere ci (Close :: q))
                             (S n) s (take1 c st) = Some r →
                ∃ s' st' g', matchHere ci (Close :: q) s' st' = Some r
                   ∧ opened st' = Some g' ∧ allChars (matchesClass ci k) g' = true
                   ∧ closed st' = closed st).
      { intros r' Hr. eapply (IH (S n) (take1 c st) (String c g)) in Hr.
        - exact Hr.
        - unfold take1. simpl. by rewrite Hg.
        - simpl. by rewrite Hm, Hall. }
      destruct greedy.
      * destruct (repeatClass _ _ _ _ _ _ _ _ _) as [r'|] eqn:E; simpl.
        -- intros [= <-]. by apply Hmore.
        -- destruct (min <=? n)%nat; [apply Hstop|done].
      * destruct (min <=? n)%nat.
        -- destruct (matchHere ci (Close :: q) (String c s) st) as [r'|] eqn:E; simpl.
           ++ intros [= <-]. by apply Hstop.
           ++ apply Hmore.
        -- simpl. apply Hmore.
    + destruct greedy; destruct (min <=? n)%nat; cbn [orElse]; try done.
      * apply Hstop.
      * destruct (matchHere ci (Close :: q) (String c s) st) as [r'|] eqn:E;
          cbn [orElse]; [|done].
        intros [= <-]. by apply Hstop.
Qed.

(** A pattern that ends with a group of one repeated class captures, as its
    last group, characters of that class only. *)
Lemma last_group_chars ci (p : list atom) k min max greedy s st r :
  matchHere ci (p ++ [Open; Chars k min max greedy; Close; Eol]) s st = Some r →
  ∃ before t, r = before ++ [t] ∧ allChars (matchesClass ci k) t = true.
Proof.
  intros (s' & st' & Hr)%matchHere_tail. cbn [matchHere] in Hr.
  eapply (repeatClass_group ci k min max greedy [Eol] s' 0 _ "") in Hr; [|done|done].
  destruct Hr as (s2 & st2 & g & Hr & Hg & Hall & Hc).
  cbn [matchHere] in Hr. rewrite Hg in Hr.
  destruct s2; [|done]. injection Hr as <-. simpl.
  exists (rev (closed st2)), (String.rev g). split; [done|]. by rewrite allChars_rev.
Qed.

Lemma search_matchHere (re : regex) :
  ∀ s n r, search re n s = Some r →
    ∃ s' st, matchHere (ignoreCase re) (atoms re) s' st = Some r.
Proof.
  induction s as [|c s IH]; intros n r; simpl.
  - destruct (matchHere _ _ _ _) eqn:E; [|done]. intros [= <-]. eauto.
  - destruct (matchHere _ _ _ _) eqn:E; simpl; [intros [= <-]; eauto|eauto].
Qed.

Lemma numberChars_lower (t : string) :
  allChars (matchesClass true Paypal.numberChars) t = true → toLowerCase t = t.
Proof.
  induction t as [|c t IH]; [done|]. simpl.
  intros [Hc Ht]%andb_true_iff. rewrite (IH Ht). f_equal.
  revert Hc. clear. destruct c as [[] [] [] [] [] [] [] []]; vm_compute; congruence.
Qed.

End Lowercase.

(** *** The groups of a match *)

Section Groups.
Import Text RegExp RegExpNotions.

Lemma repeatClass_state {R} ci k min max greedy (rest : string → matchState → option R) :
  ∀ s n st r,
    repeatClass ci k min max greedy rest n s st = Some r →
    ∃ s' st', rest s' st' = Some r
              ∧ closed st' = closed st
              ∧ inGroup st' = inGroup st.
Proof.
  induction s as [|c s IH]; intros n st r.
  - cbn [repeatClass].
    destruct greedy; destruct (min <=? n)%nat; cbn [orElse]; try done;
      intros Hr; exists "", st; split; try done; by destruct (rest "" st).
  - cbn [repeatClass].
    assert (Hstop : ∀ r, rest (String c s) st = Some r →
              ∃ s' st', rest s' st' = Some r ∧ closed st' = closed st
                        ∧ inGroup st' = inGroup st).
    { intros r' Hr. by exists (String c s), st. }
    destruct (belowMax n max && matchesClass ci k c).
    + assert (Hmore : ∀ r, repeatClass ci k min max greedy rest (S n) s (take1 c st) = Some r →
                ∃ s' st', rest s' st' = Some r ∧ closed st' = closed st
                          ∧ inGroup st' = inGroup st).
      { intros r' (s' & st' & Hr & Hc & Ho)%IH. exists s', st'.
        split; [done|]. split; [done|]. rewrite Ho. unfold inGroup, take1. simpl.
        by destruct (opened st). }
      destruct greedy.
      * destruct (repeatClass _ _ _ _ _ _ _ _ _) as [r'|] eqn:E; cbn [orElse].
        -- intros [= <-]. by apply Hmore.
        -- destruct (min <=? n)%nat; [apply Hstop|done].
      * destruct (min <=? n)%nat.
        -- destruct (rest (String c s) st) as [r'|] eqn:E; cbn [orElse].
           ++ intros [= <-]. by apply Hstop.
           ++ apply Hmore.
        -- cbn [orElse]. apply Hmore.
    + destruct greedy; destruct (min <=? n)%nat; cbn [orElse]; try done.
      * apply Hstop.
      * destruct (rest (String c s) st) as [r'|] eqn:E; cbn [orElse]; [|done].
        intros [= <-]. by apply Hstop.
Qed.

(** A match captures one text for each group of the pattern. *)
Lemma matchHere_length ci (p : list atom) :
  ∀ s st r,
    matchHere ci p s st = Some r →
    length r = (length (closed st) + groups p (inGroup st))%nat.
Proof.
  induction p as [|a p IH]; intros s st r.
  - simpl. intros [= <-]. rewrite length_rev. lia.
  - destruct a as [k min max greedy| | | |]; cbn [matchHere groups].
    + intros (s' & st' & Hr & Hc & Ho)%repeatClass_state.
      rewrite (IH _ _ _ Hr), Hc, Ho. done.
    + intros Hr. by rewrite (IH _ _ _ Hr).
    + intros Hr. rewrite (IH _ _ _ Hr). unfold inGroup. simpl.
      destruct (opened st); simpl; lia.
    + case_decide; [|done]. apply IH.
    + destruct s; [|done]. apply IH.
Qed.

Lemma match_length (re : regex) (s : string) (r : list string) :
  match_ s re = Some r → length r = groups (atoms re) false.
Proof.
  assert (Hs : ∀ s n r, search re n s = Some r → length r = groups (atoms re) false).
  { clear. induction s as [|c s IH]; intros n r; simpl.
    - destruct (matchHere _ _ _ _) eqn:E; [|done]. intros [= <-].
      by rewrite (matchHere_length _ _ _ _ _ E).
    - destruct (matchHere _ _ _ _) eqn:E; simpl.
      + intros [= <-]. by rewrite (matchHere_length _ _ _ _ _ E).
      + apply IH. }
  apply Hs.
Qed.

End Groups.

(** ** The PayPal action, state by state *)

Section PaypalSteps.
Import Machine Paypal RegExp Numeric PaypalNotions RegExpNotions.
Context `{Augments}.

Lemma extendLast_ok (line : string) (array r : list PaypalTransaction) :
  extendLast line array = Ok r →
  ∃ before last, array = before ++ [last] ∧ r = before ++ [extend line last].
Proof.
  unfold extendLast. destruct (reverse array) as [|last before] eqn:E; [done|].
  intros [= <-]. exists (reverse before), last. split; [|done].
  by rewrite <- (reverse_involutive array), E, reverse_cons.
Qed.

Lemma extendLast_thrown (line : string) (array : list PaypalTransaction) (e : Error) :
  extendLast line array = Thrown e →
  array = []
  ∧ e = mkError "Cannot read properties of undefined (reading 'description')".
Proof.
  unfold extendLast. destruct (reverse array) as [|last before] eqn:E; [|done].
  intros [= <-]. split; [|done].
  by rewrite <- (reverse_involutive array), E.
Qed.

(** The action, state by state. *)
Lemma action_HeaderData (l : string) (o : PaypalOutput) :
  performStateAction HeaderData l o
  = if isNone (Plain.startDate o) then
      match match_ l headerDataLineRegExp with
      | Some [startDate; endDate; accountId] =>
          bind (dateFromNamedCommaFormat startDate) (λ d1,
          bind (dateFromNamedCommaFormat endDate) (λ d2,
          Ok (withHeader o d1 d2 accountId)))
      | _ => Ok o
      end
    else Ok o.
Proof. unfold performStateAction. simpl. by destruct (isNone _). Qed.

Lemma action_Activity (l : string) (o : PaypalOutput) :
  performStateAction Activity l o
  = match match_ l transactionStartRegExp with
    | Some [date_; description_; amountString; fees_; total] =>
        bind (dateFromSlashFormat date_) (λ d,
        let newTransaction :=
          {| date := d;
             description := collapseSpaces description_;
             amount := abs (Number (sanitizeNumberString total));
             fees := abs (Number (sanitizeNumberString fees_));
             baseAmount := abs (Number (sanitizeNumberString amountString));
             originalText := [l] |} in
        if ltZero (Number (sanitizeNumberString amountString))
        then Ok (withExpenses o (Plain.expenses o ++ [newTransaction]))
        else Ok (withIncomes o (Plain.incomes o ++ [newTransaction])))
    | _ => Ok o
    end.
Proof. reflexivity. Qed.

Lemma action_ExpenseInside (l : string) (o : PaypalOutput) :
  performStateAction ExpenseInside l o
  = if decide (l = "") then Ok o
    else bind (extendLast l (Plain.expenses o)) (λ r, Ok (withExpenses o r)).
Proof. unfold performStateAction. simpl. by case_decide; case_bool_decide. Qed.

Lemma action_IncomeInside (l : string) (o : PaypalOutput) :
  performStateAction IncomeInside l o
  = if decide (l = "") then Ok o
    else bind (extendLast l (Plain.incomes o)) (λ r, Ok (withIncomes o r)).
Proof. unfold performStateAction. simpl. by case_decide; case_bool_decide. Qed.

Lemma action_elsewhere (s : State) (l : string) (o : PaypalOutput) :
  s = Header ∨ s = ActivityHeader ∨ s = End_ → performStateAction s l o = Ok o.
Proof. by intros [->|[->| ->]]. Qed.

Lemma performStateAction_changed (s : State) (l : string) (o o' : PaypalOutput) :
  performStateAction s l o = Ok o' → changed s l o o'.
Proof.
  destruct s.
  - intros [= <-]. constructor.
  - rewrite action_HeaderData. destruct (isNone _) eqn:Hs; [|intros [= <-]; constructor].
    destruct (match_ l headerDataLineRegExp) as [[|a [|b [|c [|]]]]|] eqn:Em;
      try (intros [= <-]; constructor).
    destruct (dateFromNamedCommaFormat a) as [d1|] eqn:E1; [|done].
    destruct (dateFromNamedCommaFormat b) as [d2|] eqn:E2; [|done].
    intros [= <-]. econstructor; [done| |done|done|done]. by destruct (Plain.startDate o).
  - rewrite action_Activity.
    destruct (match_ l transactionStartRegExp) as [[|a [|b [|c [|d [|e [|]]]]]]|] eqn:Em;
      try (intros [= <-]; constructor).
    destruct (dateFromSlashFormat a) as [dt|]; [|done]. cbn [bind].
    assert (Ht : isTransactionLine l = true) by (unfold isTransactionLine; by rewrite Em).
    destruct (ltZero _); intros [= <-].
    + apply changed_expense; [done|done|done|]. repeat split; apply abs_not_negative.
    + apply changed_income; [done|done|done|]. repeat split; apply abs_not_negative.
  - rewrite action_ExpenseInside. case_decide as Hl; [intros [= <-]; constructor|].
    destruct (extendLast l (Plain.expenses o)) as [r|] eqn:Ex; [|done].
    intros [= <-]. apply extendLast_ok in Ex as (before & last & E & ->).
    by apply changed_last_expense.
  - rewrite action_IncomeInside. case_decide as Hl; [intros [= <-]; constructor|].
    destruct (extendLast l (Plain.incomes o)) as [r|] eqn:Ex; [|done].
    intros [= <-]. apply extendLast_ok in Ex as (before & last & E & ->).
    by apply changed_last_income.
  - intros [= <-]. constructor.
  - intros [= <-]. constructor.
Qed.

End PaypalSteps.

(** ** PayPal statements *)

Lemma includes_after (p a b : string) : includes p (a +:+ b +:+ p) = true.
Proof.
  induction a as [|c a IH].
  - change (includes p (b +:+ p) = true). apply includes_suffix.
  - change (includes p (String c (a +:+ b +:+ p)) = true).
    simpl. rewrite IH. apply orb_true_r.
Qed.

Section EngineCut.
Context {W StateType OutputType InitOutputType : Type}.
Context `{!EqDecision StateType}.
Context `{!Machine.ParsedOutputLike W OutputType InitOutputType}.
Import Machine.

Variable m : CreateStateMachineInput W StateType OutputType InitOutputType.
Variable po : options.

(** A line that sends every state to the end state is the last line read. *)
Lemma runLoop_cut (l : string) (pre rest : list string) :
  (∀ s w s1 w1, next (init m) s l w = Ok (s1, w1) → s1 = endState (init m)) →
  ∀ s o w, runLoop m po s o w (pre ++ l :: rest) = runLoop m po s o w (pre ++ [l]).
Proof.
  intros Hend. induction pre as [|x pre IH]; intros s o w; simpl.
  - case_decide as Hs; [done|].
    destruct (action _ _ _ _ _ _) as [[o1 w1]|]; [|done].
    destruct (next _ _ _ _) as [[s1 w2]|] eqn:En; [|done].
    rewrite (Hend _ _ _ _ En), runLoop_at_end. by rewrite decide_True.
  - case_decide as Hs; [done|].
    destruct (action _ _ _ _ _ _) as [[o1 w1]|]; [|done].
    destruct (next _ _ _ _) as [[s1 w2]|]; [|done].
    by rewrite IH.
Qed.

(** A measure of the output that a step raises by at most the weight of its
    line is raised by at most the weight of the lines consumed. *)
Lemma consume_bound (f : OutputType → nat) (g : string → nat) :
  (∀ s l o w o1 w1, action (init m) s l o po w = Ok (o1, w1) → (f o1 ≤ f o + g l)%nat) →
  ∀ lines s o w s' o' w',
    consume m po s o w lines = Some (s', o', w') →
    (f o' ≤ f o + sum_list (g <$> lines))%nat.
Proof.
  intros Hstep. induction lines as [|l lines IH]; intros s o w s' o' w'; simpl.
  - intros [= <- <- <-]. lia.
  - case_decide as Hs; [done|].
    destruct (action _ _ _ _ _ _) as [[o1 w1]|] eqn:Ea; [|done].
    destruct (next _ _ _ _) as [[s1 w2]|] eqn:En; [|done].
    intros Hc. apply IH in Hc. apply Hstep in Ea.
    change (g <$> lines) with (list_fmap string nat g lines) in Hc. lia.
Qed.

End EngineCut.

Lemma sum_list_take (xs : list nat) (n : nat) : (sum_list (take n xs) ≤ sum_list xs)%nat.
Proof.
  revert n. induction xs as [|x xs IH]; intros [|n]; simpl; try lia.
  specialize (IH n). lia.
Qed.

Section PaypalProperties.
Import Machine Paypal RegExp Numeric PaypalNotions RegExpNotions.
Context `{Augments}.
Variable base : options.
Variable path : string.
Variable caller : option options.

Local Abbreviation pm := (paypalMachine path caller).
Local Abbreviation start :=
  (Plain.startingOutput (T := PaypalTransaction) path
     (getProp (optionsOf base pm) "yearPrefix")).

Lemma paypal_run (inputs : list string) :
  runStateMachine base pm inputs tt
  = runLoop pm (optionsOf base pm) Header start tt inputs.
Proof. reflexivity. Qed.

Lemma paypal_ok (inputs : list string) (o : PaypalOutput) w :
  createParserStateMachine base pm inputs tt = Ok (o, w) →
  ∃ n, runTo base pm tt (take n inputs) = Some (End_, o, w)
       ∧ Plain.accountSuffix o ≠ "".
Proof.
  unfold createParserStateMachine. rewrite paypal_run.
  intros (n & Hc & F)%runLoop_ok. exists n. split; [exact Hc|].
  intros E. simpl in F. by rewrite E in F.
Qed.

(** X11. The notice ends the statement: the lines after a line that holds it are
    never read. *)
Theorem paypal_reads_nothing_after_notice (pre rest : list string) (l : string) :
  isNotice l = true →
  runStateMachine base pm (pre ++ l :: rest) tt = runStateMachine base pm (pre ++ [l]) tt.
Proof.
  intros Hn. rewrite !paypal_run. apply runLoop_cut.
  intros s w s1 w1. cbn [next init paypalMachine paypalInput Orchestrator.initInput].
  unfold Plain.pureCall. simpl. intros [= <- <-]. by apply nextState_notice.
Qed.

(** X12. A PayPal parse returns an output only for a statement that holds the
    notice on one of its lines. *)
Theorem paypal_needs_the_notice (inputs : list string) (o : PaypalOutput) w :
  createParserStateMachine base pm inputs tt = Ok (o, w) →
  ∃ l, l ∈ inputs ∧ isNotice l = true.
Proof.
  intros (n & Hrun & _)%paypal_ok.
  destruct (decide (Forall (λ l, isNotice l = false) (take n inputs))) as [Hall|Hex].
  - exfalso.
    apply (paypal_runTo_invariant base path caller (λ s _, s ≠ End_)
             (λ l, isNotice l = false)) with (3 := Hall) in Hrun; [done| |done].
    intros s l o1 o2 Hl Hs _ _ [E|E]%nextState_End; [done|congruence].
  - apply (not_Forall_Exists _) in Hex.
    apply Exists_exists in Hex as (l & Hl & Hn). exists l. split.
    + apply list_elem_of_lookup in Hl as [i Hi].
      apply lookup_take_Some in Hi as [Hi _]. by eapply list_elem_of_lookup_2.
    + simpl in Hn. by destruct (isNotice l).
Qed.

(** X13. The PayPal format leaves [filePath] and [yearPrefix] as the engine set
    them: a returned output carries the path given to the parse call and the
    resolved [yearPrefix], and every error names that path. *)
Theorem paypal_names_the_file (inputs : list string) :
  match createParserStateMachine base pm inputs tt with
  | Ok (o, _) =>
      Plain.filePath o = path
      ∧ Plain.yearPrefix o = getProp (optionsOf base pm) "yearPrefix"
  | Thrown e => includes path (message e) = true
  end.
Proof.
  assert (Hinv : ∀ lines s o w, runTo base pm tt lines = Some (s, o, w) →
            Plain.filePath o = path
            ∧ Plain.yearPrefix o = getProp (optionsOf base pm) "yearPrefix").
  { intros lines s o w Hr.
    apply (paypal_runTo_invariant base path caller
             (λ _ o, Plain.filePath o = path
                     ∧ Plain.yearPrefix o = getProp (optionsOf base pm) "yearPrefix")
             (λ _, True)) with (4 := Hr); [|done|by apply Forall_true].
    intros s0 l o0 o' _ _ Hi Hc%performStateAction_changed. by destruct Hc. }
  destruct (createParserStateMachine base pm inputs tt) as [[o w]|e] eqn:E.
  - apply paypal_ok in E as (n & Hr & _). by eapply Hinv.
  - unfold createParserStateMachine in E. rewrite paypal_run in E.
    apply runLoop_thrown in E
      as [(s & o & w & Hc & _ & ->)
         |[(n & o & w & Hc & _ & ->)|(n & l & s & o & w & e' & _ & _ & _ & Ht & ->)]].
    + destruct (Hinv _ _ _ _ Hc) as [Hp _]. unfold endOfInputError. cbn [message].
      change (filePathText o w) with (Plain.filePath o). rewrite Hp. apply includes_suffix.
    + destruct (Hinv _ _ _ _ Hc) as [Hp _]. unfold incompleteError. cbn [message].
      change (filePathText o w) with (Plain.filePath o). rewrite Hp. apply includes_suffix.
    + assert (He : ∃ e0, e' = ErrorObject e0).
      { destruct Ht as [Ht|(o2 & w2 & _ & Ht)];
          by apply pureCall_thrown in Ht as (e0 & -> & _); exists e0. }
      destruct He as [e0 ->]. unfold inFile. cbn [message]. apply includes_after.
Qed.

End PaypalProperties.

(** ** PayPal outputs *)

Section PaypalOutputs.
Import Machine Paypal RegExp Numeric PaypalNotions RegExpNotions.
Context `{Augments}.
Variable base : options.
Variable path : string.
Variable caller : option options.

Local Abbreviation pm := (paypalMachine path caller).

Lemma paypal_rest_invariant (Inv : PaypalOutput → Prop) (pre rest : list string) s o w o' w' :
  (∀ s l o o', Inv o → performStateAction s l o = Ok o' → Inv o') →
  runTo base pm tt pre = Some (s, o, w) →
  createParserStateMachine base pm (pre ++ rest) tt = Ok (o', w') →
  Inv o → Inv o'.
Proof.
  intros Hstep Hrun. unfold createParserStateMachine.
  rewrite (run_after _ _ _ _ _ _ _ _ Hrun). cbn [snd]. intros Hr Hi.
  refine (runLoop_ok_invariant pm (optionsOf base pm) (λ o _, Inv o) _ _
            rest s o w o' w' Hi Hr).
  - intros s0 l o0 w0 o1 w1 Hi0.
    cbn [action init paypalMachine paypalInput Orchestrator.initInput].
    unfold Plain.pureCall. destruct (performStateAction s0 l o0) as [o2|] eqn:Ea; [|done].
    intros [= <- <-]. by eapply Hstep.
  - done.
Qed.

(** X15. The first header-data line that matches decides the period and the
    account suffix: once [startDate] is set, no later line changes
    [startDate], [endDate] or [accountSuffix]. *)
Theorem paypal_first_header_wins (pre rest : list string) s o w o' w' d :
  runTo base pm tt pre = Some (s, o, w) →
  Plain.startDate o = Some d →
  createParserStateMachine base pm (pre ++ rest) tt = Ok (o', w') →
  Plain.startDate o' = Some d
  ∧ Plain.endDate o' = Plain.endDate o
  ∧ Plain.accountSuffix o' = Plain.accountSuffix o.
Proof.
  intros Hrun Hd Hr.
  apply (paypal_rest_invariant
           (λ o', Plain.startDate o' = Some d ∧ Plain.endDate o' = Plain.endDate o
                  ∧ Plain.accountSuffix o' = Plain.accountSuffix o)
           pre rest s o w o' w'); [|done|done|done].
  intros s0 l o0 o1 (H1 & H2 & H3) Hc%performStateAction_changed.
  destruct Hc; try done. congruence.
Qed.

(** X17. The text kept with each transaction of a returned output is made of
    lines of the statement: the transaction line first, then the non-empty
    lines that continued its description. *)
Theorem paypal_original_text_is_from_the_statement (inputs : list string)
    (o : PaypalOutput) w :
  createParserStateMachine base pm inputs tt = Ok (o, w) →
  Forall (textFrom inputs) (Plain.incomes o) ∧ Forall (textFrom inputs) (Plain.expenses o).
Proof.
  intros (n & Hrun & _)%paypal_ok.
  apply (paypal_runTo_invariant base path caller
           (λ _ o, Forall (textFrom inputs) (Plain.incomes o)
                   ∧ Forall (textFrom inputs) (Plain.expenses o))
           (λ l, l ∈ inputs)) with (4 := Hrun).
  - assert (Hx : ∀ l before last,
              l ∈ inputs → l ≠ "" → Forall (textFrom inputs) (before ++ [last]) →
              Forall (textFrom inputs) (before ++ [extend l last])).
    { intros l before last Hl Hne [Hb Ht]%Forall_app. apply Forall_app. split; [done|].
      apply Forall_singleton in Ht as (first & more & E & Hf & Hin & Hm).
      apply Forall_singleton. exists first, (more ++ [l]). simpl. rewrite E.
      split; [done|]. split; [done|]. split; [done|].
      apply Forall_app. split; [done|]. by apply Forall_singleton. }
    assert (Hnew : ∀ l t, l ∈ inputs → isTransactionLine l = true →
              originalText t = [l] → textFrom inputs t).
    { intros l t Hl Ht E. exists l, []. by rewrite E. }
    intros s l o0 o1 Hl _ [Hi He] Hc%performStateAction_changed.
    destruct Hc as [| | t ? ? E ? | t ? ? E ? | before last ? ? E | before last ? ? E];
      simpl; try done.
    + split; [done|]. apply Forall_app. split; [done|]. apply Forall_singleton. by eapply Hnew.
    + split; [|done]. apply Forall_app. split; [done|]. apply Forall_singleton. by eapply Hnew.
    + split; [done|]. apply Hx; [done|done|]. by rewrite <- E.
    + split; [|done]. apply Hx; [done|done|]. by rewrite <- E.
  - simpl. split; constructor.
  - apply Forall_forall. intros l Hl.
    apply list_elem_of_lookup in Hl as [i Hi].
    apply lookup_take_Some in Hi as [Hi _]. by eapply list_elem_of_lookup_2.
Qed.

(** *** Transactions are only added and continued *)

Lemma extends_refl (t : PaypalTransaction) : extends t t.
Proof.
  repeat split; try done.
  - exists []. by rewrite app_nil_r.
  - exists "". induction (description t) as [|c d IH]; [done|].
    change (String c d = String c (d +:+ "")). by rewrite <- IH.
Qed.

Lemma append_assoc (a b c : string) : (a +:+ b) +:+ c = a +:+ b +:+ c.
Proof.
  induction a as [|x a IH]; [done|].
  change (String x ((a +:+ b) +:+ c) = String x (a +:+ b +:+ c)). by rewrite IH.
Qed.

Lemma extends_trans (t1 t2 t3 : PaypalTransaction) :
  extends t1 t2 → extends t2 t3 → extends t1 t3.
Proof.
  intros (A1 & A2 & A3 & A4 & [m1 A5] & [d1 A6]) (B1 & B2 & B3 & B4 & [m2 B5] & [d2 B6]).
  repeat split; try congruence.
  - exists (m1 ++ m2). by rewrite B5, A5, app_assoc.
  - exists (d1 +:+ d2). by rewrite B6, A6, append_assoc.
Qed.

Lemma extends_extend (l : string) (t : PaypalTransaction) : extends t (extend l t).
Proof. repeat split; try done; simpl; by eexists. Qed.

Lemma Forall2_extends_refl (l : list PaypalTransaction) : Forall2 extends l l.
Proof. induction l; constructor; [apply extends_refl|done]. Qed.

Lemma grown_refl (l : list PaypalTransaction) : grown l l.
Proof. exists l, []. split; [by rewrite app_nil_r|apply Forall2_extends_refl]. Qed.

Lemma grown_trans (l1 l2 l3 : list PaypalTransaction) :
  grown l1 l2 → grown l2 l3 → grown l1 l3.
Proof.
  intros (k1 & a1 & -> & F1) (k2 & a2 & -> & F2).
  apply Forall2_app_inv_l in F2 as (k2a & k2b & F2a & F2b & ->).
  exists k2a, (k2b ++ a2). split; [by rewrite app_assoc|].
  revert k2a F2a. induction F1 as [|x y l k Hxy F1 IH]; intros k2a F2a.
  - inversion F2a. constructor.
  - inversion F2a as [|? z ? k' Hyz F2a']; subst. constructor.
    + by eapply extends_trans.
    + by apply IH.
Qed.

Lemma grown_push (l : list PaypalTransaction) (t : PaypalTransaction) : grown l (l ++ [t]).
Proof. exists l, [t]. split; [done|apply Forall2_extends_refl]. Qed.

Lemma grown_last (line : string) (before : list PaypalTransaction) (last : PaypalTransaction) :
  grown (before ++ [last]) (before ++ [extend line last]).
Proof.
  exists (before ++ [extend line last]), []. split; [by rewrite app_nil_r|].
  apply Forall2_app; [apply Forall2_extends_refl|].
  constructor; [apply extends_extend|constructor].
Qed.

(** X18. The action only adds transactions at the end of a list and description
    lines to a transaction: between any point of a run and its result no
    transaction is removed or reordered, and none changes its date or its
    amounts. *)
Theorem paypal_transactions_only_grow (pre rest : list string) s o w o' w' :
  runTo base pm tt pre = Some (s, o, w) →
  createParserStateMachine base pm (pre ++ rest) tt = Ok (o', w') →
  grown (Plain.incomes o) (Plain.incomes o') ∧ grown (Plain.expenses o) (Plain.expenses o').
Proof.
  intros Hrun Hr.
  apply (paypal_rest_invariant
           (λ o', grown (Plain.incomes o) (Plain.incomes o')
                  ∧ grown (Plain.expenses o) (Plain.expenses o'))
           pre rest s o w o' w'); [|done|done|split; apply grown_refl].
  intros s0 l o0 o1 [Hi He] Hc%performStateAction_changed.
  destruct Hc as [| | | | before last ? ? E | before last ? ? E]; simpl; try done.
  - split; [done|]. eapply grown_trans; [exact He|apply grown_push].
  - split; [|done]. eapply grown_trans; [exact Hi|apply grown_push].
  - split; [done|]. eapply grown_trans; [exact He|]. rewrite E. apply grown_last.
  - split; [|done]. eapply grown_trans; [exact Hi|]. rewrite E. apply grown_last.
Qed.

(** X19. A returned output has at most one transaction for each line of the
    statement that has the form of a transaction. *)
Theorem paypal_transactions_are_counted (inputs : list string) (o : PaypalOutput) w :
  createParserStateMachine base pm inputs tt = Ok (o, w) →
  (count o ≤ length (List.filter isTransactionLine inputs))%nat.
Proof.
  intros (n & Hrun & _)%paypal_ok.
  apply paypal_runTo in Hrun.
  apply (consume_bound pm _ count (λ l, if isTransactionLine l then 1 else 0)%nat) in Hrun.
  - assert (E : ∀ ls, sum_list ((λ l, if isTransactionLine l then 1 else 0)%nat <$> ls)
                      = length (List.filter isTransactionLine ls)).
    { induction ls as [|x ls IH]; [done|]. rewrite fmap_cons. simpl.
      destruct (isTransactionLine x); simpl; by rewrite IH. }
    pose proof (sum_list_take
                  ((λ l, if isTransactionLine l then 1 else 0)%nat <$> inputs) n) as Ht.
    rewrite <- fmap_take, !E in Ht. rewrite E in Hrun.
    unfold count in *. simpl in Hrun. lia.
  - clear. intros s l o w o1 w1.
    cbn [action init paypalMachine paypalInput Orchestrator.initInput].
    unfold Plain.pureCall. destruct (performStateAction s l o) as [o2|] eqn:Ea; [|done].
    intros [= <- <-]. apply performStateAction_changed in Ea.
    destruct Ea as [| | ? ? Ht | ? ? Ht | before last ? ? E | before last ? ? E];
      unfold count; simpl; rewrite ?Ht, ?E, ?length_app; simpl; try lia.
    all: destruct (isTransactionLine l); lia.
Qed.

(** X20. Every amount that the action stores is at or above zero, or [NaN], at
    every point of a run. *)
Theorem paypal_amounts_stay_absolute (lines : list string) s (o : PaypalOutput) w :
  runTo base pm tt lines = Some (s, o, w) →
  Forall notNegative (Plain.incomes o) ∧ Forall notNegative (Plain.expenses o).
Proof.
  intros Hrun.
  apply (paypal_runTo_invariant base path caller
           (λ _ o, Forall notNegative (Plain.incomes o)
                   ∧ Forall notNegative (Plain.expenses o))
           (λ _, True)) with (4 := Hrun); [| |by apply Forall_true].
  - intros s0 l o0 o1 _ _ [Hi He] Hc%performStateAction_changed.
    destruct Hc as [| | | | before last ? ? E | before last ? ? E]; simpl; try done.
    + split; [done|]. apply Forall_app. split; [done|]. by apply Forall_singleton.
    + split; [|done]. apply Forall_app. split; [done|]. by apply Forall_singleton.
    + split; [done|]. rewrite E in He. apply Forall_app in He as [Hb Hl].
      apply Forall_app. split; [done|]. apply Forall_singleton.
      exact (proj1 (Forall_singleton _ _) Hl).
    + split; [|done]. rewrite E in Hi. apply Forall_app in Hi as [Hb Hl].
      apply Forall_app. split; [done|]. apply Forall_singleton.
      exact (proj1 (Forall_singleton _ _) Hl).
  - split; constructor.
Qed.

End PaypalOutputs.

(** ** Transaction lines *)

Section TransactionLines.
Import Machine Paypal RegExp Numeric PaypalNotions RegExpNotions.

(** A match of the transaction pattern has its five groups; the last one,
    the total column, is made of digits, commas, dots and minus signs. *)
Lemma transaction_match (l : string) (caps : list string) :
  match_ l transactionStartRegExp = Some caps →
  ∃ d desc a f t, caps = [d; desc; a; f; t] ∧ Text.toLowerCase t = t.
Proof.
  intros Hm. pose proof (match_length _ _ _ Hm) as Hlen.
  change (groups (atoms transactionStartRegExp) false) with 5 in Hlen.
  destruct caps as [|d [|desc [|a [|f [|t [|]]]]]]; try done.
  exists d, desc, a, f, t. split; [done|].
  apply search_matchHere in Hm as (s' & st & Hm).
  change (atoms transactionStartRegExp)
    with (take 24 (atoms transactionStartRegExp)
          ++ [Open; Chars numberChars 1 None true; Close; Eol]) in Hm.
  apply last_group_chars in Hm as (before & t' & E & Hall).
  assert (t' = t) as ->.
  { apply (f_equal last) in E. rewrite last_snoc in E. by injection E. }
  by apply numberChars_lower.
Qed.

Lemma isTransactionLine_match (l : string) :
  isTransactionLine l = true →
  ∃ d desc a f t, match_ l transactionStartRegExp = Some [d; desc; a; f; t]
                  ∧ Text.toLowerCase t = t.
Proof.
  unfold isTransactionLine.
  destruct (match_ l transactionStartRegExp) as [caps|] eqn:Em; [|done].
  intros _. destruct (transaction_match _ _ Em) as (d & desc & a & f & t & -> & Ht).
  by exists d, desc, a, f, t.
Qed.

Lemma isNone_map {A B} (f : A → B) (x : option A) : isNone (option_map f x) = isNone x.
Proof. by destruct x. Qed.

Context `{Augments}.

(** The transition out of [Activity], on the line as it is: lower-casing
    the line changes neither which pattern matches nor the total column. *)
Lemma nextState_Activity (l : string) :
  nextState Activity l
  = if isNotice l then End_
    else
      match match_ l transactionStartRegExp with
      | Some [_; _; _; _; total] =>
          if ltZero (Number (sanitizeNumberString total)) then ExpenseInside
          else IncomeInside
      | _ => if isNone (match_ l pageEndRegExp) then Activity else Header
      end.
Proof.
  unfold nextState, isNotice. destruct (includes MustNotify _); [done|].
  rewrite !match_lower by done. rewrite isNone_map.
  destruct (match_ l transactionStartRegExp) as [caps|] eqn:Em; [|done].
  destruct (transaction_match _ _ Em) as (d & desc & a & f & t & -> & Ht).
  simpl. by rewrite Ht.
Qed.

Lemma nextState_inside (s : State) (l : string) :
  isNotice l = false → s ≠ Activity →
  (nextState s l = ExpenseInside → s = ExpenseInside ∧ l ≠ "")
  ∧ (nextState s l = IncomeInside → s = IncomeInside ∧ l ≠ "").
Proof.
  unfold isNotice, nextState. intros -> Hs.
  destruct s; try done.
  - destruct (includes Statement _); [done|]. by destruct (isNone _).
  - case_decide as E; [done|]. split; [|done]. intros _. split; [done|].
    intros ->. by destruct E.
  - case_decide as E; [done|]. split; [done|]. intros _. split; [done|].
    intros ->. by destruct E.
  - by case_decide.
Qed.

End TransactionLines.

Section PaypalFits.
Import Machine Paypal RegExp Numeric PaypalNotions RegExpNotions.
Context `{Augments}.
Variable base : options.
Variable path : string.
Variable caller : option options.

Local Abbreviation pm := (paypalMachine path caller).

Lemma fits_step (s : State) (l : string) (o o' : PaypalOutput) :
  signsAgree l → fits s o → performStateAction s l o = Ok o' → fits (nextState s l) o'.
Proof.
  intros Hsign [He Hi] Ha.
  destruct (isNotice l) eqn:Hn.
  { rewrite (nextState_notice _ _ Hn). by split. }
  destruct (decide (s = Activity)) as [->|Hs].
  - rewrite nextState_Activity, Hn. rewrite action_Activity in Ha.
    destruct (match_ l transactionStartRegExp) as [caps|] eqn:Em;
      [|destruct (isNone _); by split].
    destruct (transaction_match _ _ Em) as (d & desc & a & f & t & -> & _).
    rewrite <- (Hsign _ _ _ _ _ Em).
    destruct (dateFromSlashFormat d) as [dt|]; [|done]. cbn [bind] in Ha.
    destruct (ltZero (Number (sanitizeNumberString a))); injection Ha as <-;
      split; try done; intros _; simpl; by intros [_ ?]%app_eq_nil.
  - destruct (nextState_inside s l Hn Hs) as [HE HI]. split.
    + intros [-> Hl]%HE. rewrite action_ExpenseInside, decide_False in Ha by done.
      destruct (extendLast l _) as [r|] eqn:Ex; [|done]. injection Ha as <-.
      apply extendLast_ok in Ex as (before & last & _ & ->). simpl.
      by intros [_ ?]%app_eq_nil.
    + intros [-> Hl]%HI. rewrite action_IncomeInside, decide_False in Ha by done.
      destruct (extendLast l _) as [r|] eqn:Ex; [|done]. injection Ha as <-.
      apply extendLast_ok in Ex as (before & last & _ & ->). simpl.
      by intros [_ ?]%app_eq_nil.
Qed.

(** X21. On a statement whose transaction lines have the amount and the total on
    the same side of zero, the state and the output fit at every point of a
    run: inside an expense the output has an expense, inside an income an
    income. The action then throws nowhere but in the date helpers: outside
    [HeaderData] and [Activity] it returns. *)
Theorem paypal_state_fits_output (lines : list string) s (o : PaypalOutput) w :
  Forall signsAgree lines →
  runTo base pm tt lines = Some (s, o, w) →
  fits s o
  ∧ ∀ l, s ≠ HeaderData → s ≠ Activity → ∃ o', performStateAction s l o = Ok o'.
Proof.
  intros Hsign Hrun.
  assert (Hfit : fits s o).
  { apply (paypal_runTo_invariant base path caller fits signsAgree) with (4 := Hrun);
      [|by split|done].
    intros s0 l o0 o1 Hl _ Hf Ha. by eapply fits_step. }
  split; [done|]. destruct Hfit as [He Hi]. intros l H1 H2.
  destruct s; try done; try by eexists.
  - rewrite action_ExpenseInside. case_decide; [by eexists|].
    destruct (extendLast l _) as [r|e] eqn:Ex; [by eexists|].
    apply extendLast_thrown in Ex as [E _]. by destruct He.
  - rewrite action_IncomeInside. case_decide; [by eexists|].
    destruct (extendLast l _) as [r|e] eqn:Ex; [by eexists|].
    apply extendLast_thrown in Ex as [E _]. by destruct Hi.
Qed.

(** X22. The action and the transition function see the same transaction lines:
    on a line without the notice, the state leaves [Activity] for the inside
    of a transaction exactly when the line has the form of a transaction,
    whatever the letter case of the line. *)
Theorem transition_follows_the_transaction_line (l : string) :
  isNotice l = false →
  isTransactionLine l = true
  ↔ nextState Activity l = ExpenseInside ∨ nextState Activity l = IncomeInside.
Proof.
  intros Hn. rewrite nextState_Activity, Hn. unfold isTransactionLine.
  destruct (match_ l transactionStartRegExp) as [caps|] eqn:Em.
  - destruct (transaction_match _ _ Em) as (d & desc & a & f & t & -> & _).
    split; [|done]. intros _. destruct (ltZero _); [by left|by right].
  - split; [done|]. destruct (isNone _); by intros [|].
Qed.

(** X23. An amount column that is not a number reads as [NaN], which is not
    below zero: the transaction is filed under [incomes], with [NaN] as its
    base amount. *)
Theorem non_numeric_amount_counts_as_income (l : string) (o : PaypalOutput)
    d desc a f t dt :
  match_ l transactionStartRegExp = Some [d; desc; a; f; t] →
  Number (sanitizeNumberString a) = NaN →
  dateFromSlashFormat d = Ok dt →
  performStateAction Activity l o
  = Ok (withIncomes o
          (Plain.incomes o
           ++ [{| date := dt;
                  description := collapseSpaces desc;
                  amount := abs (Number (sanitizeNumberString t));
                  fees := abs (Number (sanitizeNumberString f));
                  baseAmount := NaN;
                  originalText := [l] |}])).
Proof.
  intros Hm Hnan Hd. rewrite action_Activity, Hm, Hd. cbn [bind]. by rewrite Hnan.
Qed.

End PaypalFits.

(** ** Where the header of an output comes from *)

Section EngineCompose.
Context {W StateType OutputType InitOutputType : Type}.
Context `{!EqDecision StateType}.
Context `{!Machine.ParsedOutputLike W OutputType InitOutputType}.
Import Machine.

Variable m : CreateStateMachineInput W StateType OutputType InitOutputType.
Variable po : options.

(** Consuming [pre ++ rest] is consuming [pre], then [rest]. *)
Lemma consume_app (pre rest : list string) :
  ∀ s o w,
    consume m po s o w (pre ++ rest)
    = match consume m po s o w pre with
      | Some (s', o', w') => consume m po s' o' w' rest
      | None => None
      end.
Proof.
  induction pre as [|l pre IH]; intros s o w; simpl; [done|].
  case_decide; [done|].
  destruct (action _ _ _ _ _ _) as [[o1 w1]|]; [|done].
  destruct (next _ _ _ _) as [[s1 w2]|]; [|done].
  apply IH.
Qed.

End EngineCompose.

Section PaypalHeader.
Import Machine Paypal RegExp Numeric PaypalNotions.
Context `{Augments}.
Variable base : options.
Variable path : string.
Variable caller : option options.

Local Abbreviation pm := (paypalMachine path caller).

Lemma paypal_runTo_snoc (pre : list string) (l : string) s' o' w' :
  runTo base pm tt (pre ++ [l]) = Some (s', o', w') →
  ∃ s o, runTo base pm tt pre = Some (s, o, tt)
         ∧ s ≠ End_
         ∧ performStateAction s l o = Ok o'
         ∧ s' = nextState s l.
Proof.
  intros Hr. apply paypal_runTo in Hr. rewrite consume_app in Hr.
  destruct (consume pm _ Header _ tt pre) as [[[s o] []]|] eqn:Ec; [|done].
  exists s, o. split; [exact Ec|].
  simpl in Hr. case_decide as Hs; [done|]. split; [done|].
  unfold Plain.pureCall in Hr.
  destruct (performStateAction s l o) as [o1|] eqn:Ea; [|done].
  simpl in Hr. by injection Hr as <- <- _.
Qed.

Lemma nextState_HeaderData (s : State) (l : string) :
  nextState s l = HeaderData →
  s = Header ∧ includes Statement (Text.toLowerCase l) = true.
Proof.
  unfold nextState. destruct (includes MustNotify _); [done|].
  destruct s; try done.
  - destruct (includes Statement _); [done|]. by destruct (isNone _).
  - destruct (match_ _ transactionStartRegExp) as [[|a [|b [|c [|d [|e [|]]]]]]|];
      try by destruct (isNone _).
    by destruct (ltZero _).
  - by case_decide.
  - by case_decide.
  - by case_decide.
Qed.

Lemma headerFrom_more (pre : list string) (l : string) (o : PaypalOutput) :
  headerFrom pre o → headerFrom (pre ++ [l]) o.
Proof.
  unfold headerFrom. destruct (Plain.startDate o) as [d1|]; [|done].
  intros (before & l0 & l1 & after & a & b & d2 & -> & Hrest).
  exists before, l0, l1, (after ++ [l]), a, b, d2. split; [|done].
  by rewrite <- app_assoc.
Qed.

Lemma paypal_header_history (pre : list string) :
  ∀ s o w, runTo base pm tt pre = Some (s, o, w) →
    (s = HeaderData →
     ∃ before l0, pre = before ++ [l0] ∧ includes Statement (Text.toLowerCase l0) = true)
    ∧ headerFrom pre o.
Proof.
  induction pre as [|l pre IH] using rev_ind; intros s' o' w' Hr.
  - apply paypal_runTo in Hr. simpl in Hr. injection Hr as <- <- _. by split.
  - apply paypal_runTo_snoc in Hr as (s & o & Hr & Hs & Ha & ->).
    destruct (IH _ _ _ Hr) as [Hin Hfrom]. split.
    + intros [_ Hl]%nextState_HeaderData. by exists pre, l.
    + apply performStateAction_changed in Ha.
      destruct Ha as [|a b c d1 d2 -> Hnone Hm Ha Hb| | | |];
        try (by apply (headerFrom_more pre l) in Hfrom).
      destruct (Hin eq_refl) as (before & l0 & -> & Hl0).
      unfold headerFrom. simpl.
      exists before, l0, l, [], a, b, d2. split; [by rewrite <- app_assoc|done].
Qed.

(** X14. The period and the account suffix of a returned PayPal output come from
    one line, which directly follows a line that holds the statement-period
    trigger in any letter case: the groups of the header-data pattern on that
    line are the start date, the end date and the suffix. *)
Theorem paypal_header_follows_the_statement_period (inputs : list string)
    (o : PaypalOutput) w :
  createParserStateMachine base pm inputs tt = Ok (o, w) →
  ∃ before l0 l1 after a b d1 d2,
    inputs = before ++ l0 :: l1 :: after
    ∧ includes Statement (Text.toLowerCase l0) = true
    ∧ match_ l1 headerDataLineRegExp = Some [a; b; Plain.accountSuffix o]
    ∧ dateFromNamedCommaFormat a = Ok d1 ∧ Plain.startDate o = Some d1
    ∧ dateFromNamedCommaFormat b = Ok d2 ∧ Plain.endDate o = Some d2.
Proof.
  intros (n & Hrun & Hsuffix)%paypal_ok.
  destruct (paypal_header_history _ _ _ _ Hrun) as [_ Hfrom].
  unfold headerFrom in Hfrom. destruct (Plain.startDate o) as [d1|]; [|by destruct Hfrom].
  destruct Hfrom as (before & l0 & l1 & after & a & b & d2 & E & H0 & H1 & H2 & H3 & H4).
  exists before, l0, l1, (after ++ drop n inputs), a, b, d1, d2.
  split; [|done].
  rewrite <- (take_drop n inputs) at 1. rewrite E, <- app_assoc. done.
Qed.

End PaypalHeader.

(** ** The activity table *)

Section PaypalTable.
Import Machine Paypal RegExp Numeric PaypalNotions.
Context `{Augments}.
Variable base : options.
Variable path : string.
Variable caller : option options.

Local Abbreviation pm := (paypalMachine path caller).

Lemma nextState_ActivityHeader (s : State) (l : string) :
  nextState s l = ActivityHeader →
  s = ActivityHeader ∨ (s = Header ∧ isNone (match_ l activityHeader) = false).
Proof.
  unfold nextState. destruct (includes MustNotify _); [done|].
  rewrite match_lower by done. rewrite isNone_map.
  destruct s; try done.
  - destruct (includes Statement _); [done|].
    destruct (isNone (match_ l activityHeader)); [done|]. by right.
  - destruct (match_ _ transactionStartRegExp) as [[|a [|b [|c [|d [|e [|]]]]]]|];
      try by destruct (isNone _).
    by destruct (ltZero _).
  - by case_decide.
  - by case_decide.
  - by left.
Qed.

Lemma nextState_inTable (s : State) (l : string) :
  inTable (nextState s l) → inTable s ∨ (s = ActivityHeader ∧ l = "").
Proof.
  unfold nextState, inTable. destruct (includes MustNotify _); [by intros [|[|]]|].
  destruct s; try (by intros [|[|]]); try (by left; auto).
  - destruct (includes Statement _); [by intros [|[|]]|].
    destruct (isNone _); by intros [|[|]].
  - case_decide as E; [|by intros [|[|]]]. intros _. right. split; [done|].
    by apply toLowerCase_empty.
Qed.

Lemma tableOpened_more (pre : list string) (l : string) :
  tableOpened pre → tableOpened (pre ++ [l]).
Proof.
  intros (before & l0 & between & after & -> & Hm).
  exists before, l0, between, (after ++ [l]). split; [|done].
  rewrite <- !app_assoc. simpl. by rewrite <- app_assoc.
Qed.

Lemma paypal_table_history (pre : list string) :
  ∀ s o w, runTo base pm tt pre = Some (s, o, w) →
    (s = ActivityHeader →
     ∃ before l0 between,
       pre = before ++ l0 :: between ∧ isNone (match_ l0 activityHeader) = false)
    ∧ (inTable s ∨ (0 < count o)%nat → tableOpened pre).
Proof.
  induction pre as [|l pre IH] using rev_ind; intros s' o' w' Hr.
  - apply paypal_runTo in Hr. simpl in Hr. injection Hr as <- <- _.
    split; [done|]. intros [[|[|]]|Hc]; try done. unfold count in Hc. simpl in Hc. lia.
  - apply paypal_runTo_snoc in Hr as (s & o & Hr & Hs & Ha & ->).
    destruct (IH _ _ _ Hr) as [Hhead Htable].
    apply performStateAction_changed in Ha. split.
    + intros [->|[-> Hm]]%nextState_ActivityHeader.
      * destruct (Hhead eq_refl) as (before & l0 & between & -> & Hm).
        exists before, l0, (between ++ [l]). split; [|done]. by rewrite <- app_assoc.
      * by exists pre, l, [].
    + assert (Hstate : inTable s → tableOpened (pre ++ [l])).
      { intros Hs'. apply tableOpened_more, Htable. by left. }
      assert (Hcount : (0 < count o)%nat → tableOpened (pre ++ [l])).
      { intros Hc. apply tableOpened_more, Htable. by right. }
      intros [Hin|Hc].
      * apply nextState_inTable in Hin as [Hin|[-> ->]]; [by apply Hstate|].
        destruct (Hhead eq_refl) as (before & l0 & between & -> & Hm).
        exists before, l0, between, []. split; [|done]. by rewrite <- app_assoc.
      * destruct Ha as [| |t -> _ _ _|t -> _ _ _|before last -> _ E|before last -> _ E].
        -- by apply Hcount.
        -- by apply Hcount.
        -- apply Hstate. by left.
        -- apply Hstate. by left.
        -- apply Hstate. right. by left.
        -- apply Hstate. right. by right.
Qed.

(** X16. Transactions are read below the column header of the activity table
    only: an output that has a transaction comes from a statement with a line
    that matches the column-header pattern, in any letter case, and an empty
    line somewhere after it. *)
Theorem paypal_transactions_follow_the_column_header (inputs : list string)
    (o : PaypalOutput) w :
  createParserStateMachine base pm inputs tt = Ok (o, w) →
  (0 < count o)%nat →
  ∃ before l0 between after,
    inputs = before ++ l0 :: between ++ "" :: after
    ∧ isNone (match_ l0 activityHeader) = false.
Proof.
  intros (n & Hrun & _)%paypal_ok Hc.
  destruct (paypal_table_history _ _ _ _ Hrun) as [_ Htable].
  destruct (Htable (or_intror Hc)) as (before & l0 & between & after & E & Hm).
  exists before, l0, between, (after ++ drop n inputs). split; [|done].
  rewrite <- (take_drop n inputs) at 1. rewrite E, <- !app_assoc. simpl.
  by rewrite <- app_assoc.
Qed.

End PaypalTable.

(** ** Parser options and the PayPal format *)

Section PaypalOptions.
Import Machine Paypal RegExp Numeric PaypalNotions.
Context `{Augments}.
Variable base : options.
Variable path : string.

(** The action does not read [yearPrefix]. *)
Lemma performStateAction_yearPrefix (s : State) (l : string) (o : PaypalOutput) (yp : value) :
  performStateAction s l (withYearPrefix o yp)
  = match performStateAction s l o with
    | Ok o' => Ok (withYearPrefix o' yp)
    | Thrown e => Thrown e
    end.
Proof.
  destruct s; try done.
  - rewrite !action_HeaderData. simpl. destruct (isNone _); [|done].
    destruct (match_ l headerDataLineRegExp) as [[|a [|b [|c [|]]]]|]; try done.
    destruct (dateFromNamedCommaFormat a); [|done].
    by destruct (dateFromNamedCommaFormat b).
  - rewrite !action_Activity.
    destruct (match_ l transactionStartRegExp) as [[|a [|b [|c [|d [|e [|]]]]]]|]; try done.
    destruct (dateFromSlashFormat a); [|done]. simpl. by destruct (ltZero _).
  - rewrite !action_ExpenseInside. case_decide; [done|]. simpl.
    by destruct (extendLast l (Plain.expenses o)).
  - rewrite !action_IncomeInside. case_decide; [done|]. simpl.
    by destruct (extendLast l (Plain.incomes o)).
Qed.

Lemma paypal_runLoop_yearPrefix (c1 c2 : option options) (po1 po2 : options) (yp : value)
    (inputs : list string) :
  ∀ s o,
    snd (runLoop (paypalMachine path c2) po2 s (withYearPrefix o yp) tt inputs)
    = match snd (runLoop (paypalMachine path c1) po1 s o tt inputs) with
      | Ok (o', w) => Ok (withYearPrefix o' yp, w)
      | Thrown e => Thrown e
      end.
Proof.
  induction inputs as [|l inputs IH]; intros s o.
  - simpl. case_decide; [|done]. simpl. unfold finish. simpl.
    by destruct (decide (Plain.accountSuffix o = "")).
  - simpl. case_decide.
    + simpl. unfold finish. simpl. by destruct (decide (Plain.accountSuffix o = "")).
    + unfold Plain.pureCall. rewrite performStateAction_yearPrefix.
      destruct (performStateAction s l o) as [o1|]; [|done]. simpl.
      specialize (IH (nextState s l) o1).
      destruct (runLoop (paypalMachine path c2) _ _ _ _ _),
               (runLoop (paypalMachine path c1) _ _ _ _ _). exact IH.
Qed.

(** X24. The PayPal format reads no parser option: with other options given to
    the parse call, a parse throws the same error or returns the same output
    but for its [yearPrefix] field, which is the one resolved from the options
    given. No date of the output depends on [yearPrefix]. *)
Theorem paypal_reads_no_parser_option (c1 c2 : option options) (inputs : list string) :
  createParserStateMachine base (paypalMachine path c2) inputs tt
  = match createParserStateMachine base (paypalMachine path c1) inputs tt with
    | Ok (o, w) =>
        Ok (withYearPrefix o (getProp (optionsOf base (paypalMachine path c2)) "yearPrefix"),
            w)
    | Thrown e => Thrown e
    end.
Proof.
  unfold createParserStateMachine. rewrite !paypal_run.
  apply (paypal_runLoop_yearPrefix c1 c2 _ _ _ inputs Header
           (Plain.startingOutput path
              (getProp (optionsOf base (paypalMachine path c1)) "yearPrefix"))).
Qed.

End PaypalOptions.

(** ** The notice inside a transaction *)

Section PaypalNotice.
Import Machine Paypal RegExp Numeric PaypalNotions.
Context `{Augments}.
Variable base : options.
Variable path : string.
Variable caller : option options.

Local Abbreviation pm := (paypalMachine path caller).

Lemma extendLast_snoc (line : string) (before : list PaypalTransaction)
    (last : PaypalTransaction) :
  extendLast line (before ++ [last]) = Ok (before ++ [extend line last]).
Proof.
  unfold extendLast. rewrite reverse_app, reverse_singleton. simpl.
  by rewrite reverse_involutive.
Qed.

(** X29. The action runs on the line that holds the notice before the run ends:
    when the notice comes inside an expense, with no empty line before it,
    the notice line is added to the description and to the text of the last
    expense, and the parse returns that output. *)
Theorem paypal_notice_joins_the_last_expense (pre rest : list string) (l : string)
    (o : PaypalOutput) w (before : list PaypalTransaction) (last : PaypalTransaction) :
  runTo base pm tt pre = Some (ExpenseInside, o, w) →
  isNotice l = true →
  Plain.expenses o = before ++ [last] →
  Plain.accountSuffix o ≠ "" →
  createParserStateMachine base pm (pre ++ l :: rest) tt
  = Ok (withExpenses o (before ++ [extend l last]), tt).
Proof.
  intros Hrun Hn He Hs. unfold createParserStateMachine.
  rewrite (run_after _ _ _ _ _ _ _ _ Hrun). cbn [snd].
  assert (Hl : l ≠ "") by (intros ->; done).
  cbn [runLoop]. rewrite decide_False by done.
  cbn [action next init paypalMachine paypalInput Orchestrator.initInput].
  unfold Plain.pureCall.
  rewrite action_ExpenseInside. destruct (decide (l = "")) as [?|_]; [done|].
  rewrite He, extendLast_snoc. cbn [bind raise].
  rewrite (nextState_notice _ _ Hn). cbn [bind raise].
  rewrite runLoop_at_end. cbn [snd].
  unfold finish. simpl.
  destruct (decide (Plain.accountSuffix o = "")) as [?|_]; [done|]. by destruct w.
Qed.

End PaypalNotice.

(** ** Sanitized test files *)

Section SanitizedTests.
Import Sanitizer.
Context {W ParserType ParserOptions T : Type}.

Variable parsers : ParserType → Parser W ParserOptions T.
Variable sanitizePdf : string → ParserType → bool → W → result (list string * W).
Variable readTestFile :
  string → W → result (SanitizedTestFile ParserType ParserOptions T * W).

(** The call of [parseText] that the recording makes on the sanitized text. *)
Local Abbreviation recorded statementPdf sanitizedText :=
  (parseText (parsers (type statementPdf))
     {| textLines := sanitizedText;
        textFilePath := Some (filePath (parserInput statementPdf));
        textName := Some (name (parserInput statementPdf));
        textDebug := Some (debug (parserInput statementPdf));
        textOptions := parserOptions (parserInput statementPdf) |}).

(** X25. A sanitized test file records exactly one outcome of parsing the
    sanitized text: the output, or else a message that is not empty, the
    message of the error or a stock message when that is empty. It records the
    sanitized text, the parser type and the name, and never the parser
    options. *)
Theorem sanitized_file_records_one_outcome
    (statementPdf : StatementPdf ParserType ParserOptions) (w w' : W)
    (f : SanitizedTestFile ParserType ParserOptions T) :
  createSanitizedTestFileObject parsers sanitizePdf statementPdf w = Ok (f, w') →
  ∃ w1,
    sanitizePdf (filePath (parserInput statementPdf)) (type statementPdf)
      (debug (parserInput statementPdf)) w = Ok (text f, w1)
    ∧ parserType f = type statementPdf
    ∧ testName f = name (parserInput statementPdf)
    ∧ testOptions f = None
    ∧ errorMessage f ≠ Some ""
    ∧ match recorded statementPdf (text f) w1 with
      | (Ok o, w2) => output f = Some o ∧ errorMessage f = None ∧ w' = w2
      | (Thrown e, w2) =>
          output f = None
          ∧ errorMessage f
            = Some (if decide (message e = "")
                    then "Sanitized parser output is undefined but no error was encountered"
                    else message e)
          ∧ w' = w2
      end.
Proof.
  unfold createSanitizedTestFileObject.
  destruct (sanitizePdf _ _ _ _) as [[sanitizedText w1]|]; [|done].
  destruct (parseText _ _ _) as [[o|e] w2] eqn:Ep; intros [= <- <-]; exists w1; simpl;
    rewrite Ep; repeat split; try done.
  unfold messageOf. case_decide; intros [= E]; done.
Qed.

(** X26. An error of parsing the sanitized text is recorded, not thrown: the
    function throws exactly when [sanitizePdf] throws. *)
Theorem sanitized_parse_errors_are_not_thrown
    (statementPdf : StatementPdf ParserType ParserOptions) (w : W) (e : Error) :
  createSanitizedTestFileObject parsers sanitizePdf statementPdf w = Thrown e
  ↔ sanitizePdf (filePath (parserInput statementPdf)) (type statementPdf)
      (debug (parserInput statementPdf)) w = Thrown e.
Proof.
  unfold createSanitizedTestFileObject.
  destruct (sanitizePdf _ _ _ _) as [[sanitizedText w1]|]; [|split; by intros [= <-]].
  destruct (parseText _ _ _) as [[o|e'] w2]; split; intros [=].
Qed.

(** X27. The check of a sanitized output against the original passes exactly
    when the original PDF parses and has as many incomes and as many expenses
    as the sanitized output; nothing else of the two outputs is compared. *)
Theorem sanitized_counts_are_checked
    (statementPdf : StatementPdf ParserType ParserOptions)
    (parsedSanitized : Plain.ParsedOutput T) (w w' : W) :
  validateSanitizedParsing parsers statementPdf parsedSanitized w = Ok (tt, w')
  ↔ ∃ parsedOriginal,
      parsePdf (parsers (type statementPdf)) (parserInput statementPdf) w
        = Ok (parsedOriginal, w')
      ∧ length (Plain.incomes parsedSanitized) = length (Plain.incomes parsedOriginal)
      ∧ length (Plain.expenses parsedSanitized) = length (Plain.expenses parsedOriginal).
Proof.
  unfold validateSanitizedParsing.
  destruct (parsePdf _ _ _) as [[parsedOriginal w1]|]; [|split; [done|by intros (? & ? & _)]].
  destruct (Nat.eqb_spec (length (Plain.incomes parsedSanitized))
              (length (Plain.incomes parsedOriginal))) as [Ei|Ei]; simpl.
  - destruct (Nat.eqb_spec (length (Plain.expenses parsedSanitized))
                (length (Plain.expenses parsedOriginal))) as [Ee|Ee]; simpl.
    + split; [intros [= <-]; by exists parsedOriginal|by intros (? & [= <- <-] & _)].
    + split; [done|]. intros (? & [= <- <-] & _ & ?). done.
  - split; [done|]. intros (? & [= <- <-] & ? & _). done.
Qed.

(** X28. The test built from a file that holds a recorded object expects what
    was recorded, the output or else the error message, and replays the
    parse on the recorded text under the recorded name. The replay has no
    parser options, file path or debug flag, whatever the recording had. *)
Theorem test_input_replays_the_recording
    (statementPdf : StatementPdf ParserType ParserOptions) (w w' w0 w1 : W)
    (f : SanitizedTestFile ParserType ParserOptions T) (path : string) :
  createSanitizedTestFileObject parsers sanitizePdf statementPdf w = Ok (f, w') →
  readTestFile path w0 = Ok (f, w1) →
  ∃ t,
    createSanitizedTestInput parsers readTestFile path w0 = Ok (t, w1)
    ∧ expect t = output f
    ∧ expectError t = match output f with
                      | Some _ => None
                      | None => Some (errorMessage f)
                      end
    ∧ (output f = None → ∃ msg, errorMessage f = Some msg ∧ msg ≠ "")
    ∧ test t
      = parseText (parsers (type statementPdf))
          {| textLines := text f;
             textFilePath := None;
             textName := Some (name (parserInput statementPdf));
             textDebug := None;
             textOptions := None |}.
Proof.
  intros Hc Hr. unfold createSanitizedTestInput. rewrite Hr. eexists.
  split; [done|]. simpl. split; [done|]. split; [done|].
  unfold createSanitizedTestFileObject in Hc.
  destruct (sanitizePdf _ _ _ _) as [[sanitizedText w2]|]; [|done].
  destruct (parseText _ _ _) as [[o|e] w3] eqn:Ep; injection Hc as <- <-; simpl.
  - split; [done|]. done.
  - split; [|done]. intros _. eexists. split; [done|].
    unfold messageOf. by case_decide.
Qed.

End SanitizedTests.

(** ** Witnesses *)

(** X2, witness: an action that throws a string on the first line: the
    error is the [TypeError] of line 125. *)
Lemma parse_errors_are_classified_witness :
  let m := Samples.throwingText in
  let e := mkError "Cannot create property 'message' on string 'boom'" in
  Machine.firstOutput ∅ m tt = Thrown e
  ∨ (∃ s o w', Machine.runTo ∅ m tt ["x"; "y"] = Some (s, o, w')
               ∧ s ≠ Machine.endState (Machine.init m)
               ∧ e = mkError ("Reached end of input before hitting end state on "
                              +:+ Machine.filePathText o w'))
  ∨ (∃ n o w', Machine.runTo ∅ m tt (take n ["x"; "y"])
               = Some (Machine.endState (Machine.init m), o, w')
               ∧ falsy (Machine.accountSuffixOf o w') = true
               ∧ e = mkError ("Parse completed without filling in account suffix on "
                              +:+ Machine.filePathText o w'))
  ∨ (∃ n l s o w1 t,
        ["x"; "y"] !! n = Some l
        ∧ Machine.runTo ∅ m tt (take n ["x"; "y"]) = Some (s, o, w1)
        ∧ s ≠ Machine.endState (Machine.init m)
        ∧ (Machine.action (Machine.init m) s l o (Machine.optionsOf ∅ m) w1 = Thrown t
           ∨ ∃ o2 w2, Machine.action (Machine.init m) s l o (Machine.optionsOf ∅ m) w1
                      = Ok (o2, w2)
                      ∧ Machine.next (Machine.init m) s l w2 = Thrown t)
        ∧ ((∃ e', t = ErrorObject e'
                  ∧ e = mkError (message e' +:+ " in file: " +:+ Machine.filePath m))
           ∨ ∃ what, t = Unwritable what e)).
Proof.
  apply (parse_errors_are_classified ∅ Samples.throwingText ["x"; "y"] tt
           (mkError "Cannot create property 'message' on string 'boom'")).
  reflexivity.
Defined.

(** X3, witness: a run that reaches the end state on its second line is
    the same with a third line. *)
Lemma more_lines_matter_only_after_end_of_input_witness :
  Machine.runStateMachine ∅ Samples.suffixing (["1234"; "end"] ++ ["z"]) tt
  = Machine.runStateMachine ∅ Samples.suffixing ["1234"; "end"] tt.
Proof.
  apply (more_lines_matter_only_after_end_of_input ∅ Samples.suffixing).
  intros s o w' H. vm_compute in H. by injection H as <- _ _.
Defined.

Lemma scenario_parses :
  Machine.createParserStateMachine Samples.baseOptions
    (@Paypal.paypalMachine Samples.augments "statement.pdf" None) Samples.statementLines tt
  = Ok (Samples.scenarioOutput "statement.pdf" (VNumber (Fin 20 0)), tt).
Proof. vm_compute. reflexivity. Qed.

(** X11, witness: the notice in capital letters on the second line; the
    two lines after it are not read. *)
Lemma paypal_reads_nothing_after_notice_witness :
  Machine.runStateMachine Samples.baseOptions
    (@Paypal.paypalMachine Samples.augments "statement.pdf" None)
    (["header"] ++ Samples.noticeLine :: ["statement period"; "never read"]) tt
  = Machine.runStateMachine Samples.baseOptions
      (@Paypal.paypalMachine Samples.augments "statement.pdf" None)
      (["header"] ++ [Samples.noticeLine]) tt.
Proof.
  apply (@paypal_reads_nothing_after_notice Samples.augments). vm_compute. reflexivity.
Defined.

(** X12, witness: the scenario of the specification holds the notice. *)
Lemma paypal_needs_the_notice_witness :
  ∃ l, l ∈ Samples.statementLines ∧ PaypalNotions.isNotice l = true.
Proof.
  exact (@paypal_needs_the_notice Samples.augments Samples.baseOptions "statement.pdf" None
           Samples.statementLines _ tt scenario_parses).
Defined.

(** X15, witness: in the scenario the period and the suffix are those
    that the third line set. *)
Lemma paypal_first_header_wins_witness :
  Plain.startDate (Samples.scenarioOutput "statement.pdf" (VNumber (Fin 20 0)))
    = Some (Plain.mkDate 2021 1 1)
  ∧ Plain.endDate (Samples.scenarioOutput "statement.pdf" (VNumber (Fin 20 0)))
    = Some (Plain.mkDate 2021 1 31)
  ∧ Plain.accountSuffix (Samples.scenarioOutput "statement.pdf" (VNumber (Fin 20 0)))
    = "1234".
Proof.
  refine (@paypal_first_header_wins Samples.augments Samples.baseOptions "statement.pdf" None
            (take 3 Samples.statementLines) (drop 3 Samples.statementLines)
            Paypal.Header
            (Paypal.withHeader (Plain.startingOutput "statement.pdf" (VNumber (Fin 20 0)))
               (Plain.mkDate 2021 1 1) (Plain.mkDate 2021 1 31) "1234")
            tt _ tt (Plain.mkDate 2021 1 1) _ _ _).
  - vm_compute. reflexivity.
  - reflexivity.
  - exact scenario_parses.
Defined.

(** X17, witness: the output of the scenario. *)
Lemma paypal_original_text_is_from_the_statement_witness :
  Forall (PaypalNotions.textFrom Samples.statementLines)
    (Plain.incomes (Samples.scenarioOutput "statement.pdf" (VNumber (Fin 20 0))))
  ∧ Forall (PaypalNotions.textFrom Samples.statementLines)
      (Plain.expenses (Samples.scenarioOutput "statement.pdf" (VNumber (Fin 20 0)))).
Proof.
  exact (@paypal_original_text_is_from_the_statement Samples.augments Samples.baseOptions
           "statement.pdf" None Samples.statementLines _ tt scenario_parses).
Defined.

(** X18, witness: a statement taken from the point after its first
    transaction line, where the output holds one expense. The expense then
    gets a second description line and an income is added: the expense is
    kept, with its date and amounts, and the income comes after nothing. *)
Lemma paypal_transactions_only_grow_witness :
  PaypalNotions.grown [] [Samples.refund]
  ∧ PaypalNotions.grown [Samples.coffee] [Samples.coffeeDowntown].
Proof.
  refine (@paypal_transactions_only_grow Samples.augments Samples.baseOptions "statement.pdf"
            None (take 6 Samples.longerLines) (drop 6 Samples.longerLines)
            Paypal.ExpenseInside
            (Samples.scenarioOutput "statement.pdf" (VNumber (Fin 20 0)))
            tt
            (Paypal.withIncomes
               (Paypal.withExpenses
                  (Samples.scenarioOutput "statement.pdf" (VNumber (Fin 20 0)))
                  [Samples.coffeeDowntown])
               [Samples.refund])
            tt _ _).
  - vm_compute. reflexivity.
  - vm_compute. reflexivity.
Defined.

(** An amount column that is below zero in its text and too small for
    binary64 reads as zero: the action files the transaction under incomes,
    while its total, below zero, takes the state inside an expense. The
    columns of such a line are not on the same side of zero. *)
Example tiny_amount_counts_as_income :
  (∃ t, @Paypal.performStateAction Samples.augments Paypal.Activity Samples.tinyLine
          (Plain.startingOutput "statement.pdf" VUndefined)
        = Ok (Paypal.withIncomes (Plain.startingOutput "statement.pdf" VUndefined) [t])
        ∧ Paypal.baseAmount t = Fin 0 0 ∧ Paypal.amount t = Fin 1 0)
  ∧ @Paypal.nextState Samples.augments Paypal.Activity Samples.tinyLine = Paypal.ExpenseInside
  ∧ ¬ @PaypalNotions.signsAgree Samples.augments Samples.tinyLine.
Proof.
  split; [|split].
  - eexists. split; [vm_compute; reflexivity|split; reflexivity].
  - vm_compute. reflexivity.
  - intros Hs.
    assert (Hm : ∃ a t, RegExp.match_ Samples.tinyLine Paypal.transactionStartRegExp
                        = Some ["1/8/2021"; "Dust "; a; "0.00"; t]
                        ∧ ltZero (Numeric.Number (Samples.removeCommas a)) = false
                        ∧ ltZero (Numeric.Number (Samples.removeCommas t)) = true).
    { eexists _, _. split; [vm_compute; reflexivity|]. split; vm_compute; reflexivity. }
    destruct Hm as (a & t & Hm & Ha & Ht).
    specialize (Hs _ _ _ _ _ Hm). simpl in Hs. congruence.
Qed.

(** X19, witness: the scenario has one transaction line and one
    transaction. *)
Lemma paypal_transactions_are_counted_witness :
  (PaypalNotions.count (Samples.scenarioOutput "statement.pdf" (VNumber (Fin 20 0)))
   ≤ length (List.filter PaypalNotions.isTransactionLine Samples.statementLines))%nat.
Proof.
  exact (@paypal_transactions_are_counted Samples.augments Samples.baseOptions "statement.pdf"
           None Samples.statementLines _ tt scenario_parses).
Defined.

(** X20, witness: the scenario after its transaction line. *)
Lemma paypal_amounts_stay_absolute_witness :
  Forall Paypal.notNegative []
  ∧ Forall Paypal.notNegative
      [{| Paypal.date := Plain.mkDate 2021 1 5;
          Paypal.description := "Coffee Shop";
          Paypal.amount := Fin 45 1;
          Paypal.fees := Fin 0 0;
          Paypal.baseAmount := Fin 45 1;
          Paypal.originalText := [Samples.coffeeLine] |}].
Proof.
  refine (@paypal_amounts_stay_absolute Samples.augments Samples.baseOptions "statement.pdf"
            None (take 6 Samples.statementLines) Paypal.ExpenseInside
            (Paypal.withExpenses
               (Paypal.withHeader (Plain.startingOutput "statement.pdf" (VNumber (Fin 20 0)))
                  (Plain.mkDate 2021 1 1) (Plain.mkDate 2021 1 31) "1234") _) tt _).
  vm_compute. reflexivity.
Defined.

(** X21, witness: the scenario after its transaction line: the state is
    inside an expense and the output has one. *)
Lemma paypal_state_fits_output_witness :
  PaypalNotions.fits Paypal.ExpenseInside
    (Paypal.withExpenses
       (Paypal.withHeader (Plain.startingOutput "statement.pdf" (VNumber (Fin 20 0)))
          (Plain.mkDate 2021 1 1) (Plain.mkDate 2021 1 31) "1234")
       [{| Paypal.date := Plain.mkDate 2021 1 5;
           Paypal.description := "Coffee Shop";
           Paypal.amount := Fin 45 1;
           Paypal.fees := Fin 0 0;
           Paypal.baseAmount := Fin 45 1;
           Paypal.originalText := [Samples.coffeeLine] |}]).
Proof.
  refine (proj1 (@paypal_state_fits_output Samples.augments Samples.baseOptions
                   "statement.pdf" None (take 6 Samples.statementLines)
                   Paypal.ExpenseInside _ tt _ _)).
  - repeat constructor; intros d desc a f t Hm; vm_compute in Hm; try discriminate.
    injection Hm as <- <- <- <- <-. vm_compute. reflexivity.
  - vm_compute. reflexivity.
Defined.

(** X22, witness: a transaction line in small letters. *)
Lemma transition_follows_the_transaction_line_witness :
  PaypalNotions.isTransactionLine Samples.smallLine = true
  ↔ @Paypal.nextState Samples.augments Paypal.Activity Samples.smallLine
    = Paypal.ExpenseInside
    ∨ @Paypal.nextState Samples.augments Paypal.Activity Samples.smallLine
      = Paypal.IncomeInside.
Proof.
  apply (@transition_follows_the_transaction_line Samples.augments). vm_compute. reflexivity.
Defined.

(** X23, witness: a line whose amount column is a lone minus sign. *)
Lemma non_numeric_amount_counts_as_income_witness :
  @Paypal.performStateAction Samples.augments Paypal.Activity Samples.oddLine
    (Plain.startingOutput "statement.pdf" VUndefined)
  = Ok (Paypal.withIncomes (Plain.startingOutput "statement.pdf" VUndefined)
          [{| Paypal.date := Plain.mkDate 2021 1 9;
              Paypal.description := "Refund";
              Paypal.amount := Fin 5 0;
              Paypal.fees := Fin 0 0;
              Paypal.baseAmount := NaN;
              Paypal.originalText := [Samples.oddLine] |}]).
Proof.
  apply (@non_numeric_amount_counts_as_income Samples.augments Samples.oddLine
           (Plain.startingOutput "statement.pdf" VUndefined)
           "1/9/2021" "Refund " "-" "0.00" "5.00" (Plain.mkDate 2021 1 9));
    vm_compute; reflexivity.
Defined.

(** X8, witness: a registration with [pdfProcessing: undefined]. *)
Lemma undefined_pdfProcessing_disables_the_parser_witness :
  ∃ p, Orchestrator.createStatementParser Samples.noPdf Samples.baseOptions Samples.unreadable
       = Ok p
       ∧ ∀ args w, Orchestrator.parser p args w
                   = Thrown (mkError "Missing pdf processing method").
Proof.
  apply (undefined_pdfProcessing_disables_the_parser Samples.noPdf Samples.baseOptions
           Samples.unreadable).
  reflexivity.
Defined.

(** X9, witness: a registration with a page reader and a validator. *)
Lemma parser_returns_the_machine_output_witness :
  ∃ process pages w1 w2,
    (Orchestrator.pdfProcessing Samples.validated = Some (Some process)
     ∨ Orchestrator.pdfProcessing Samples.validated = None ∧ process = Samples.noPdf)
    ∧ process "statement.pdf" tt = Ok (pages, w1)
    ∧ Machine.createParserStateMachine Samples.baseOptions
        {| Machine.init := Orchestrator.initInput Samples.validated;
           Machine.filePath := "statement.pdf";
           Machine.inputParserOptions := None |}
        (Orchestrator.flatten2dArray pages) w1
      = Ok (Samples.setAccountSuffix "end"
              (Samples.setAccountSuffix "1234"
                 (Plain.startingOutput "statement.pdf" (VNumber (Fin 20 0)))), w2)
    ∧ match Orchestrator.outputValidation Samples.validated with
      | None => tt = w2
      | Some validate =>
          ∃ u, validate (Samples.setAccountSuffix "end"
                           (Samples.setAccountSuffix "1234"
                              (Plain.startingOutput "statement.pdf" (VNumber (Fin 20 0)))))
                 w2 = Ok (u, tt)
      end.
Proof.
  apply (parser_returns_the_machine_output Samples.noPdf Samples.baseOptions
           Samples.validated
           {| Orchestrator.parseFilePath := "statement.pdf";
              Orchestrator.parseInputParserOptions := None;
              Orchestrator.debug := false |} tt tt).
  vm_compute. reflexivity.
Defined.

(** X5, witness: [initOutput: null]. *)
Lemma starting_output_is_the_scaffold_witness :
  ∃ o h' lI lE,
    Heap.buildOutput "statement.pdf" (VNumber (Fin 20 0)) (Some VNull) Samples.sampleHeap
      = Ok (o, h')
    ∧ Heap.getField h' o "filePath" = VString "statement.pdf"
    ∧ Heap.getField h' o "yearPrefix" = VNumber (Fin 20 0)
    ∧ Heap.getField h' o "accountSuffix" = VString ""
    ∧ Heap.getField h' o "startDate" = VUndefined
    ∧ Heap.getField h' o "endDate" = VUndefined
    ∧ Heap.getField h' o "incomes" = VRef lI
    ∧ Heap.getField h' o "expenses" = VRef lE
    ∧ h' !! lI = Some (Heap.OArray []) ∧ h' !! lE = Some (Heap.OArray [])
    ∧ lI ≠ lE ∧ (lI ∉ dom Samples.sampleHeap) ∧ (lE ∉ dom Samples.sampleHeap)
    ∧ Samples.sampleHeap ⊆ h'.
Proof.
  apply (starting_output_is_the_scaffold "statement.pdf" (VNumber (Fin 20 0)) (Some VNull)
           Samples.sampleHeap).
  right. exists VNull. split; reflexivity.
Defined.



(** X25, witness: a sanitized text that the parser rejects with an
    error without message. *)
Lemma sanitized_file_records_one_outcome_witness :
  ∃ w1,
    Samples.sampleSanitizer "empty.pdf" tt false tt = Ok ([], w1)
    ∧ tt = tt
    ∧ "sample" = "sample"
    ∧ None = (None : option unit)
    ∧ Some "Sanitized parser output is undefined but no error was encountered" ≠ Some ""
    ∧ match Sanitizer.parseText (Samples.sampleParsers tt)
              {| Sanitizer.textLines := [];
                 Sanitizer.textFilePath := Some "empty.pdf";
                 Sanitizer.textName := Some "sample";
                 Sanitizer.textDebug := Some false;
                 Sanitizer.textOptions := Some tt |} w1 with
      | (Ok o, w2) =>
          None = Some o ∧ Some "Sanitized parser output is undefined but no error was encountered"
                          = None ∧ tt = w2
      | (Thrown e, w2) =>
          (None : option (Plain.ParsedOutput unit)) = None
          ∧ Some "Sanitized parser output is undefined but no error was encountered"
            = Some (if decide (message e = "")
                    then "Sanitized parser output is undefined but no error was encountered"
                    else message e)
          ∧ tt = w2
      end.
Proof.
  apply (sanitized_file_records_one_outcome Samples.sampleParsers Samples.sampleSanitizer
           (Samples.samplePdf "empty.pdf") tt tt Samples.emptyRecord).
  reflexivity.
Defined.

(** X28, witness: the test built from that record. *)
Lemma test_input_replays_the_recording_witness :
  ∃ t,
    Sanitizer.createSanitizedTestInput Samples.sampleParsers
      (λ _ w, Ok (Samples.emptyRecord, w)) "empty.json" tt = Ok (t, tt)
    ∧ Sanitizer.expect t = None
    ∧ Sanitizer.expectError t
      = Some (Some "Sanitized parser output is undefined but no error was encountered")
    ∧ ((None : option (Plain.ParsedOutput unit)) = None →
       ∃ msg, Some "Sanitized parser output is undefined but no error was encountered"
              = Some msg ∧ msg ≠ "")
    ∧ Sanitizer.test t
      = Sanitizer.parseText (Samples.sampleParsers tt)
          {| Sanitizer.textLines := [];
             Sanitizer.textFilePath := None;
             Sanitizer.textName := Some "sample";
             Sanitizer.textDebug := None;
             Sanitizer.textOptions := None |}.
Proof.
  apply (test_input_replays_the_recording Samples.sampleParsers Samples.sampleSanitizer
           (λ _ w, Ok (Samples.emptyRecord, w)) (Samples.samplePdf "empty.pdf")
           tt tt tt tt Samples.emptyRecord "empty.json"); reflexivity.
Defined.

(** X14, witness: the scenario; its third line
    follows the line [statement period]. *)
Lemma paypal_header_follows_the_statement_period_witness :
  ∃ before l0 l1 after a b d1 d2,
    Samples.statementLines = before ++ l0 :: l1 :: after
    ∧ includes Paypal.Statement (Text.toLowerCase l0) = true
    ∧ RegExp.match_ l1 Paypal.headerDataLineRegExp = Some [a; b; "1234"]
    ∧ Samples.namedCommaDate a = Ok d1 ∧ Some (Plain.mkDate 2021 1 1) = Some d1
    ∧ Samples.namedCommaDate b = Ok d2 ∧ Some (Plain.mkDate 2021 1 31) = Some d2.
Proof.
  exact (@paypal_header_follows_the_statement_period Samples.augments Samples.baseOptions
           "statement.pdf" None Samples.statementLines _ tt scenario_parses).
Defined.

(** X16, witness: the scenario; its transaction
    comes after the column header on the fourth line and the empty fifth
    line. *)
Lemma paypal_transactions_follow_the_column_header_witness :
  ∃ before l0 between after,
    Samples.statementLines = before ++ l0 :: between ++ "" :: after
    ∧ Paypal.isNone (RegExp.match_ l0 Paypal.activityHeader) = false.
Proof.
  refine (@paypal_transactions_follow_the_column_header Samples.augments Samples.baseOptions
            "statement.pdf" None Samples.statementLines _ tt scenario_parses _).
  vm_compute. lia.
Defined.

(** X29, witness: the scenario without the empty line
    before the notice; the description of the coffee expense ends with the
    notice line. *)
Lemma paypal_notice_joins_the_last_expense_witness :
  let o := Samples.scenarioOutput "statement.pdf" (VNumber (Fin 20 0)) in
  let l := "you must notify us no later than ..." in
  Machine.createParserStateMachine Samples.baseOptions
    (@Paypal.paypalMachine Samples.augments "statement.pdf" None)
    (take 6 Samples.statementLines ++ l :: []) tt
  = Ok (Paypal.withExpenses o
          ([] ++ [@Paypal.extend Samples.augments l
                    {| Paypal.date := Plain.mkDate 2021 1 5;
                       Paypal.description := "Coffee Shop";
                       Paypal.amount := Fin 45 1;
                       Paypal.fees := Fin 0 0;
                       Paypal.baseAmount := Fin 45 1;
                       Paypal.originalText := [Samples.coffeeLine] |}]), tt).
Proof.
  intros o l.
  apply (@paypal_notice_joins_the_last_expense Samples.augments Samples.baseOptions
           "statement.pdf" None (take 6 Samples.statementLines) [] l o tt);
    [by vm_compute|by vm_compute|by vm_compute|by vm_compute].
Defined.
